(** * The wallet-investigation core of the OSINT hub

    A shallow embedding of [cryptoWalletInvestigationService.ts] (provider
    fallback, response cache, breadth-first wallet graph, investigation
    orchestrator, analysis helpers) and of the force-directed layout of
    [CryptoWalletGraph.tsx], followed by the properties of the
    specification that were checked against them.  The embedding also
    covers the address and hash formats and the transaction lookup of
    the service, the search handler of [CryptoInvestigator.tsx] that
    calls them, and two display helpers of [leakedCredentialsService.ts],
    with the properties the code itself shows.  The two averages by
    which the specification classifies a transaction list are defined a
    second time, after its words (module [Specified]), and compared
    with what the helpers compute.

    JavaScript numbers are IEEE-754 doubles and are modelled by Rocq's
    primitive [float]; counters that the code only ever increments from
    zero are [nat]; integer arguments ([depth], [maxNodes], millisecond
    clocks) are [Z].  Sets whose iteration order is never observed are
    [gset]; JavaScript [Map]s and [Set]s that are iterated are
    association lists in insertion order. *)

From Stdlib Require Import ZArith List Ascii String Bool Lia.
From Stdlib Require Import Floats.PrimFloat Floats.SpecFloat Floats.FloatOps.
From Stdlib Require Import Numbers.Cyclic.Int63.Uint63.
From stdpp Require Import gmap strings list pretty.

Local Open Scope string_scope.

(* ===================================================================== *)
(** ** JavaScript numbers *)
(* ===================================================================== *)

Module JS.

(** [Number(n)] for a non-negative integer below 2^63. *)
Definition ofNat (n : nat) : float :=
  PrimFloat.of_uint63 (Uint63.of_Z (Z.of_nat n)).

Definition ofZ (z : Z) : float :=
  if (z <? 0)%Z then PrimFloat.opp (PrimFloat.of_uint63 (Uint63.of_Z (- z)))
  else PrimFloat.of_uint63 (Uint63.of_Z z).

(** Truthiness of a number: everything but [0], [-0] and [NaN]. *)
Definition truthy (x : float) : bool :=
  negb (PrimFloat.eqb x 0 || PrimFloat.is_nan x).

(** [x || d] on numbers. *)
Definition orElse (x d : float) : float := if truthy x then x else d.

(** [a > b] and [a < b]; both are false when an operand is [NaN]. *)
Definition gt (a b : float) : bool := PrimFloat.ltb b a.
Definition lt (a b : float) : bool := PrimFloat.ltb a b.

(** [s || d] on strings: the empty string is falsy. *)
Definition strOr (s : option string) (d : string) : string :=
  match s with
  | Some "" | None => d
  | Some v => v
  end.

(** [Math.PI]. *)
Definition PI : float := 0x1.921fb54442d18p+1%float.

End JS.

(* ===================================================================== *)
(** ** Types of cryptoWalletInvestigationService.ts *)
(* ===================================================================== *)

Inductive RiskLevel := Critical | High | Medium | Low | Safe.

Inductive NodeType := TWallet | TExchange | TMixer | TContract | TUnknown.

Inductive TxStatus := Confirmed | Pending | Failed.

Inductive Direction := Outgoing | Incoming | Bidirectional.

Inductive Relationship := Sender | Receiver | Both.

(** [metadata : Record<string, any>] is carried along by the source but
    never read by it; the records below leave it out. *)
Record CryptoWalletInfo := {
  w_address : string;
  w_network : string;
  w_balance : string;
  w_balanceUSD : float;
  w_totalReceived : string;
  w_totalSent : string;
  w_transactionCount : float;
  w_firstSeen : string;
  w_lastSeen : string;
  w_labels : list string;
  w_isExchange : bool;
  w_isMixer : bool;
  w_isRansomware : bool;
  w_riskScore : float;
  w_riskLevel : RiskLevel
}.

Record TransactionInput := {
  in_address : string;
  in_value : string;
  in_previousTxHash : string;
  in_previousIndex : float
}.

Record TransactionOutput := {
  out_address : string;
  out_value : string;
  out_index : nat;
  out_spent : bool;
  out_spentTxHash : option string
}.

Record CryptoTransaction := {
  tx_hash : string;
  tx_blockNumber : float;
  tx_blockHash : string;
  tx_timestamp : string;
  tx_confirmations : float;
  tx_from : string;
  tx_to : string;
  tx_value : string;
  tx_valueUSD : float;
  tx_fee : string;
  tx_feeUSD : float;
  tx_status : TxStatus;
  tx_inputs : list TransactionInput;
  tx_outputs : list TransactionOutput
}.

Record ConnectedWallet := {
  cw_address : string;
  cw_relationship : Relationship;
  cw_transactionCount : nat;
  cw_totalVolume : string;
  cw_totalVolumeUSD : float;
  cw_firstInteraction : string;
  cw_lastInteraction : string;
  cw_riskScore : float
}.

Record GraphNode := {
  n_id : string;
  n_address : string;
  n_label : string;
  n_type : NodeType;
  n_balance : string;
  n_transactionCount : float;
  n_riskScore : float;
  n_riskLevel : RiskLevel
}.

Record GraphEdge := {
  e_id : string;
  e_source : string;
  e_target : string;
  e_transactions : nat;
  e_totalVolume : string;
  e_totalVolumeUSD : float;
  e_firstTx : string;
  e_lastTx : string;
  e_direction : Direction
}.

Record WalletCluster := {
  c_id : string;
  c_addresses : list string
}.

Record WalletGraph := {
  nodes : list GraphNode;
  edges : list GraphEdge;
  clusters : list WalletCluster
}.

Record ThreatIntel := {
  isKnownThreat : bool;
  threatType : list string;
  associatedCampaigns : list string;
  sanctioned : bool;
  abuseReports : float;
  details : list string
}.

Record Analysis := {
  behaviorPattern : string;
  volumeAnalysis : string;
  frequencyAnalysis : string;
  riskFactors : list string;
  recommendations : list string
}.

Record CryptoInvestigationResult := {
  wallet : CryptoWalletInfo;
  transactions : list CryptoTransaction;
  connectedWallets : list ConnectedWallet;
  graph : WalletGraph;
  threatIntel : ThreatIntel;
  analysis : Analysis
}.

(* ===================================================================== *)
(** ** Provider responses *)
(* ===================================================================== *)

(** What [await fetch(url)] followed by [response.ok] and
    [await response.json()] can give: the promise rejects (or the body
    does not parse), the status is not 2xx, or a body arrives. *)
Inductive Response (A : Type) :=
  | Threw
  | NotOk
  | Ok (body : A).
Arguments Threw {A}.
Arguments NotOk {A}.
Arguments Ok {A} body.

(** A numeric JSON field that is absent is [undefined], which behaves as
    [NaN] in arithmetic and as falsy under [||] and [?:], exactly like a
    [NaN] value; such fields are plain [float]s.  Fields on which the
    source calls a method behind [?.] are [option]s. *)
Record RawPrevOut := {
  po_addr : option string;
  po_value : float;
  po_tx_index : option float;
  po_n : float
}.

Record RawInput := { ri_prev_out : option RawPrevOut }.

Record RawOut := {
  ro_addr : option string;
  ro_value : float;
  ro_spent : bool;
  ro_spending_tx_index : option float
}.

Record RawTx := {
  rt_hash : string;
  rt_time : float;
  rt_block_height : float;
  rt_block_hash : option string;
  rt_fee : float;
  rt_inputs : list RawInput;
  rt_out : list RawOut
}.

(** blockchain.info [/rawaddr/{address}?limit=]. *)
Record RawAddr := {
  ra_final_balance : float;
  ra_total_received : float;
  ra_total_sent : float;
  ra_n_tx : float;
  ra_txs : list RawTx
}.

(** [data.data?.[address].address] of the blockchair dashboard. *)
Record BlockchairAddress := {
  bc_balance : float;
  bc_balance_usd : float;
  bc_received : float;
  bc_spent : float;
  bc_transaction_count : float;
  bc_first_seen_receiving : option string;
  bc_last_seen_receiving : option string
}.

(** ethplorer [getAddressInfo]: [ETH?.balance], [ETH?.price?.rate],
    [countTxs]. *)
Record EthplorerInfo := {
  eth_balance : float;
  eth_rate : float;
  eth_countTxs : float
}.

(** The outside world as the service sees it.  Every provider call is
    answered by an oracle indexed by the number of calls made so far, so
    that the same request may be answered differently over time; the
    remaining fields are the runtime's built-ins the code relies on. *)
Class Env := {
  blockchainInfoRawAddr : nat -> string -> nat -> Response RawAddr;
  blockchairAddress : nat -> string -> Response (option BlockchairAddress);
  ethplorerAddressInfo : nat -> string -> Response EthplorerInfo;
  (** [Date.now()], in milliseconds, at a given call count *)
  dateNow : nat -> Z;
  (** [Number.prototype.toString] *)
  numToString : float -> string;
  parseFloat : string -> float;
  (** [new Date(ms).toISOString()]; [None] is its [RangeError] *)
  toISOString : float -> option string;
  (** [new Date(s).getTime()] *)
  getTime : string -> float;
  cos : float -> float;
  sin : float -> float
}.

(* ===================================================================== *)
(** ** State, exceptions and the cache *)
(* ===================================================================== *)

(** Modelled from the spec: the response cache of [@/lib/database],
    which is not among the sources, as a key/value store whose entries
    carry their expiry time in milliseconds.  The cache keys of the
    three operations start with different prefixes ([wallet_info_],
    [wallet_txs_], [tx_details_]), so the store is one typed map per
    kind of value.  [tick] counts the provider calls issued so far. *)
Record World := {
  tick : nat;
  walletCache : gmap string (CryptoWalletInfo * Z);
  txsCache : gmap string (list CryptoTransaction * Z)
}.

Definition emptyWorld : World :=
  {| tick := 0; walletCache := ∅; txsCache := ∅ |}.

(** How an [async] function completes. *)
Inductive Completion (A : Type) :=
  | Normal (a : A)
  | Throw (e : string).
Arguments Normal {A} a.
Arguments Throw {A} e.

Definition M (A : Type) : Type := World -> Completion A * World.

#[global] Instance M_ret : MRet M := fun A a w => (Normal a, w).

#[global] Instance M_bind : MBind M := fun A B f m w =>
  match m w with
  | (Normal a, w') => f a w'
  | (Throw e, w') => (Throw e, w')
  end.

Definition throw {A} (e : string) : M A := fun w => (Throw e, w).

(** [try { body } catch (error) { handler }] *)
Definition tryCatch {A} (body : M A) (handler : string -> M A) : M A :=
  fun w =>
    match body w with
    | (Normal a, w') => (Normal a, w')
    | (Throw e, w') => handler e w'
    end.

Definition nextTick (w : World) : World :=
  {| tick := S (tick w); walletCache := walletCache w; txsCache := txsCache w |}.

(** Modelled from the spec: the kinds of value the service caches, each
    with its own store. *)
Class Cacheable (A : Type) := {
  store : World -> gmap string (A * Z);
  setStore : gmap string (A * Z) -> World -> World
}.

#[global] Instance Cacheable_wallet : Cacheable CryptoWalletInfo := {|
  store := walletCache;
  setStore := fun m w => {| tick := tick w; walletCache := m; txsCache := txsCache w |}
|}.

#[global] Instance Cacheable_txs : Cacheable (list CryptoTransaction) := {|
  store := txsCache;
  setStore := fun m w => {| tick := tick w; walletCache := walletCache w; txsCache := m |}
|}.

(* ===================================================================== *)
(** ** Blockchain API functions *)
(* ===================================================================== *)

Section Service.
Context {env : Env}.

Definition fetchRawAddr (address : string) (limit : nat) : M (Response RawAddr) :=
  fun w => (Normal (blockchainInfoRawAddr (tick w) address limit), nextTick w).

Definition fetchBlockchair (address : string) : M (Response (option BlockchairAddress)) :=
  fun w => (Normal (blockchairAddress (tick w) address), nextTick w).

Definition fetchEthplorer (address : string) : M (Response EthplorerInfo) :=
  fun w => (Normal (ethplorerAddressInfo (tick w) address), nextTick w).

Definition now : M Z := fun w => (Normal (dateNow (tick w)), w).

(** Modelled from the spec: [getCachedData] of [@/lib/database], which
    is not among the sources.  [get(key) -> value | miss]; an entry is
    invisible once past its expiry, and a lookup does not fail. *)
Definition getCachedData {A} `{Cacheable A} (key : string) : M (option A) :=
  fun w =>
    (Normal match store w !! key with
            | Some (v, expiry) => if (dateNow (tick w) <? expiry)%Z then Some v else None
            | None => None
            end, w).

(** Modelled from the spec: [cacheAPIResponse] of [@/lib/database],
    which is not among the sources.  [put(key, value, ttl)] with the
    time-to-live in minutes; the last write wins. *)
Definition cacheAPIResponse {A} `{Cacheable A} (key : string) (data : A) (ttl : Z) : M unit :=
  fun w =>
    (Normal tt, setStore (<[key := (data, (dateNow (tick w) + ttl * 60000)%Z)]> (store w)) w).

Definition CACHE_TTL : Z := 10.

Definition satoshi : float := 100000000%float.

(** The record built from a blockchain.info body.  [toISOString] may
    raise, which the enclosing [try] catches: [None]. *)
Definition blockchainInfoWallet (address : string) (nowMs : Z) (data : RawAddr)
  : option CryptoWalletInfo :=
  let timeOf (t : option RawTx) : float :=
    match t with Some tx => (rt_time tx * 1000)%float | None => nan end in
  firstSeen ← toISOString (JS.orElse (timeOf (last (ra_txs data))) (JS.ofZ nowMs));
  lastSeen ← toISOString (JS.orElse (timeOf (head (ra_txs data))) (JS.ofZ nowMs));
  Some {|
    w_address := address;
    w_network := "bitcoin";
    w_balance := numToString (ra_final_balance data / satoshi)%float;
    w_balanceUSD := 0;
    w_totalReceived := numToString (ra_total_received data / satoshi)%float;
    w_totalSent := numToString (ra_total_sent data / satoshi)%float;
    w_transactionCount := ra_n_tx data;
    w_firstSeen := firstSeen;
    w_lastSeen := lastSeen;
    w_labels := [];
    w_isExchange := false;
    w_isMixer := false;
    w_isRansomware := false;
    w_riskScore := 0;
    w_riskLevel := Safe
  |}.

Definition blockchairWallet (address : string) (addrData : BlockchairAddress)
  : CryptoWalletInfo :=
  {|
    w_address := address;
    w_network := "bitcoin";
    w_balance := numToString (bc_balance addrData / satoshi)%float;
    w_balanceUSD := JS.orElse (bc_balance_usd addrData) 0;
    w_totalReceived := numToString (bc_received addrData / satoshi)%float;
    w_totalSent := numToString (bc_spent addrData / satoshi)%float;
    w_transactionCount := bc_transaction_count addrData;
    w_firstSeen := JS.strOr (bc_first_seen_receiving addrData) "";
    w_lastSeen := JS.strOr (bc_last_seen_receiving addrData) "";
    w_labels := [];
    w_isExchange := false;
    w_isMixer := false;
    w_isRansomware := false;
    w_riskScore := 0;
    w_riskLevel := Safe
  |}.

(** blockchain.info first, blockchair as the fallback; every failure of
    an attempt (rejected fetch, status not ok, exception while the record
    is built, address missing from the body) falls through to the next
    one, and the function throws when both have failed. *)
Definition getBitcoinWalletInfo (address : string) : M CryptoWalletInfo :=
  r1 ← fetchRawAddr address 0;
  t ← now;
  match match r1 with Ok data => blockchainInfoWallet address t data | _ => None end with
  | Some info => mret info
  | None =>
      r2 ← fetchBlockchair address;
      match r2 with
      | Ok (Some addrData) => mret (blockchairWallet address addrData)
      | _ => throw "Failed to fetch Bitcoin wallet information"
      end
  end.

Definition ethplorerWallet (address : string) (data : EthplorerInfo) : CryptoWalletInfo :=
  {|
    w_address := address;
    w_network := "ethereum";
    w_balance := numToString (JS.orElse (eth_balance data) 0);
    w_balanceUSD :=
      if JS.truthy (eth_rate data) then (eth_balance data * eth_rate data)%float else 0%float;
    w_totalReceived := "0";
    w_totalSent := "0";
    w_transactionCount := JS.orElse (eth_countTxs data) 0;
    w_firstSeen := "";
    w_lastSeen := "";
    w_labels := [];
    w_isExchange := false;
    w_isMixer := false;
    w_isRansomware := false;
    w_riskScore := 0;
    w_riskLevel := Safe
  |}.

Definition getEthereumWalletInfo (address : string) : M CryptoWalletInfo :=
  r ← fetchEthplorer address;
  match r with
  | Ok data => mret (ethplorerWallet address data)
  | _ => throw "Failed to fetch Ethereum wallet information"
  end.

(** The result is [null] ([None]) both when no provider knows the address
    and when every attempt raised: the [catch] turns every exception
    into [null]. *)
Definition getWalletInfo (address network : string) : M (option CryptoWalletInfo) :=
  let cacheKey := "wallet_info_" +:+ network +:+ "_" +:+ address in
  cached ← getCachedData cacheKey;
  match cached with
  | Some c => mret (Some c)
  | None =>
      tryCatch
        (walletInfo ←
           (if String.eqb network "bitcoin" then
              info ← getBitcoinWalletInfo address; mret (Some info)
            else if String.eqb network "ethereum" then
              info ← getEthereumWalletInfo address; mret (Some info)
            else mret None);
         match walletInfo with
         | Some info => _ ← cacheAPIResponse cacheKey info CACHE_TTL; mret walletInfo
         | None => mret walletInfo
         end)
        (fun _ => mret None)
  end.

Definition normalizeInput (input : RawInput) : TransactionInput :=
  let po := ri_prev_out input in
  {|
    in_address := JS.strOr (po ≫= po_addr) "Unknown";
    in_value := numToString (match po with Some p => po_value p | None => nan end / satoshi)%float;
    in_previousTxHash := JS.strOr (numToString <$> (po ≫= po_tx_index)) "";
    in_previousIndex := JS.orElse (match po with Some p => po_n p | None => nan end) 0
  |}.

Definition normalizeOutput (index : nat) (output : RawOut) : TransactionOutput :=
  {|
    out_address := JS.strOr (ro_addr output) "Unknown";
    out_value := numToString (ro_value output / satoshi)%float;
    out_index := index;
    out_spent := ro_spent output;
    out_spentTxHash := numToString <$> ro_spending_tx_index output
  |}.

Definition normalizeTx (tx : RawTx) : option CryptoTransaction :=
  let inputs := normalizeInput <$> rt_inputs tx in
  let outputs := imap normalizeOutput (rt_out tx) in
  timestamp ← toISOString (rt_time tx * 1000)%float;
  Some {|
    tx_hash := rt_hash tx;
    tx_blockNumber := JS.orElse (rt_block_height tx) 0;
    tx_blockHash := JS.strOr (rt_block_hash tx) "";
    tx_timestamp := timestamp;
    tx_confirmations := 0;
    tx_from := JS.strOr (in_address <$> head inputs) "Unknown";
    tx_to := JS.strOr (out_address <$> head outputs) "Unknown";
    tx_value :=
      numToString (foldl (fun sum out => (sum + parseFloat (out_value out))%float) 0%float outputs);
    tx_valueUSD := 0;
    tx_fee := numToString (rt_fee tx / satoshi)%float;
    tx_feeUSD := 0;
    tx_status := if JS.truthy (rt_block_height tx) then Confirmed else Pending;
    tx_inputs := inputs;
    tx_outputs := outputs
  |}.

(** Never throws: an exception while the list is mapped is caught and the
    function falls through to [return []]. *)
Definition getBitcoinWalletTransactions (address : string) (limit : nat)
  : M (list CryptoTransaction) :=
  r ← fetchRawAddr address limit;
  match r with
  | Ok data => mret (default [] (mapM normalizeTx (ra_txs data)))
  | _ => mret []
  end.

Definition getEthereumWalletTransactions (address : string) (limit : nat)
  : M (list CryptoTransaction) :=
  mret [].

Definition getWalletTransactions (address network : string) (limit : nat)
  : M (list CryptoTransaction) :=
  let cacheKey := "wallet_txs_" +:+ network +:+ "_" +:+ address +:+ "_" +:+ pretty limit in
  cached ← getCachedData cacheKey;
  match cached with
  | Some c => mret c
  | None =>
      tryCatch
        (txs ←
           (if String.eqb network "bitcoin" then getBitcoinWalletTransactions address limit
            else if String.eqb network "ethereum" then getEthereumWalletTransactions address limit
            else mret []);
         if decide (0 < length txs) then
           _ ← cacheAPIResponse cacheKey txs CACHE_TTL; mret txs
         else mret txs)
        (fun _ => mret [])
  end.

End Service.

(* ===================================================================== *)
(** ** buildWalletGraph *)
(* ===================================================================== *)

(** The value type of the [connections] map. *)
Record Connection := {
  count : nat;
  volume : float;
  txHashes : list string
}.

(** [Set.prototype.add] on a set that is iterated in insertion order. *)
Definition setAdd (s : list string) (a : string) : list string :=
  if bool_decide (a ∈ s) then s else s ++ [a].

(** [Map.prototype.get] and [Map.prototype.set] on a map that is
    iterated in insertion order: setting a present key keeps its place. *)
Definition mapGet {V} (m : list (string * V)) (k : string) : option V :=
  snd <$> find (fun kv => String.eqb (fst kv) k) m.

Fixpoint mapSet {V} (m : list (string * V)) (k : string) (v : V) : list (string * V) :=
  match m with
  | [] => [(k, v)]
  | (k', v') :: rest =>
      if String.eqb k' k then (k', v) :: rest else (k', v') :: mapSet rest k v
  end.

(** [forEach] with [await] in its body. *)
Fixpoint forEachM {A S} (f : S -> A -> M S) (s : S) (l : list A) : M S :=
  match l with
  | [] => mret s
  | a :: rest => s' ← f s a; forEachM f s' rest
  end.

(** The local variables of [buildWalletGraph]. *)
Record BfsState := {
  st_nodes : list GraphNode;
  st_edges : list GraphEdge;
  st_visited : gset string;
  st_queue : list (string * nat)
}.

Definition shortLabel (address : string) : string :=
  String.substring 0 8 address +:+ "..." +:+
  String.substring (String.length address - 6) (String.length address) address.

Definition makeNode (address : string) (info : CryptoWalletInfo) : GraphNode :=
  {|
    n_id := address;
    n_address := address;
    n_label := shortLabel address;
    n_type := if w_isExchange info then TExchange
              else if w_isMixer info then TMixer else TWallet;
    n_balance := w_balance info;
    n_transactionCount := w_transactionCount info;
    n_riskScore := w_riskScore info;
    n_riskLevel := w_riskLevel info
  |}.

(** The counterparts of [address] in one transaction: senders first, then
    receivers, without [address] itself and without the placeholder. *)
Definition connectedAddresses (address : string) (tx : CryptoTransaction) : list string :=
  let keep (a : string) := negb (String.eqb a address) && negb (String.eqb a "Unknown") in
  let senders :=
    foldl (fun s input => if keep (in_address input) then setAdd s (in_address input) else s)
          [] (tx_inputs tx) in
  foldl (fun s output => if keep (out_address output) then setAdd s (out_address output) else s)
        senders (tx_outputs tx).

Definition makeEdge {env : Env} (address connAddr : string) (data : Connection) : GraphEdge :=
  {|
    e_id := address +:+ "-" +:+ connAddr;
    e_source := address;
    e_target := connAddr;
    e_transactions := count data;
    e_totalVolume := numToString (volume data);
    e_totalVolumeUSD := 0;
    e_firstTx := JS.strOr (head (txHashes data)) "";
    e_lastTx := JS.strOr (last (txHashes data)) "";
    e_direction := Bidirectional
  |}.

Section Graph.
Context {env : Env}.

Definition trackConnection (tx : CryptoTransaction)
  (connections : list (string * Connection)) (connAddr : string)
  : list (string * Connection) :=
  let existing :=
    default {| count := 0; volume := 0; txHashes := [] |} (mapGet connections connAddr) in
  mapSet connections connAddr
    {| count := count existing + 1;
       volume := (volume existing + parseFloat (tx_value tx))%float;
       txHashes := txHashes existing ++ [tx_hash tx] |}.

(** "Analyze transactions to find connected wallets". *)
Definition analyzeConnections (address : string) (transactions : list CryptoTransaction)
  : list (string * Connection) :=
  foldl (fun connections tx =>
           foldl (trackConnection tx) connections (connectedAddresses address tx))
        [] transactions.

(** One round of "Add connected wallets as nodes and edges": the node is
    added only for an unvisited counterpart whose wallet is found, the
    edge is pushed in every case. *)
Definition addConnection (network address : string) (level : nat)
  (st : BfsState) (entry : string * Connection) : M BfsState :=
  let '(connAddr, data) := entry in
  st1 ←
    (if bool_decide (connAddr ∈ st_visited st) then mret st
     else
       connWallet ← getWalletInfo connAddr network;
       match connWallet with
       | Some info =>
           mret {| st_nodes := st_nodes st ++ [makeNode connAddr info];
                   st_edges := st_edges st;
                   st_visited := {[connAddr]} ∪ st_visited st;
                   st_queue := st_queue st ++ [(connAddr, level + 1)] |}
       | None => mret st
       end);
  mret {| st_nodes := st_nodes st1;
          st_edges := st_edges st1 ++ [makeEdge address connAddr data];
          st_visited := st_visited st1;
          st_queue := st_queue st1 |}.

(** The condition of the [while] loop. *)
Definition loopGuard (maxNodes : Z) (st : BfsState) : bool :=
  bool_decide (0 < length (st_queue st)) &&
  bool_decide (Z.of_nat (length (st_nodes st)) < maxNodes)%Z.

(** The body of the [while] loop. *)
Definition bfsStep (network : string) (depth : Z) (st : BfsState) : M BfsState :=
  match st_queue st with
  | [] => mret st
  | (address, level) :: rest =>
      let st0 := {| st_nodes := st_nodes st; st_edges := st_edges st;
                    st_visited := st_visited st; st_queue := rest |} in
      if bool_decide (depth <= Z.of_nat level)%Z then mret st0
      else
        transactions ← getWalletTransactions address network 20;
        forEachM (addConnection network address level) st0
                 (take 10 (analyzeConnections address transactions))
  end.

(** The [while] loop, unrolled at most [fuel] times. *)
Fixpoint bfsLoop (fuel : nat) (network : string) (depth maxNodes : Z) (st : BfsState)
  : M BfsState :=
  match fuel with
  | O => mret st
  | S fuel' =>
      if loopGuard maxNodes st then
        st' ← bfsStep network depth st;
        bfsLoop fuel' network depth maxNodes st'
      else mret st
  end.

(** A number of rounds after which the loop has always stopped (see
    [bfsLoop_exits]): each round either takes an address off the queue
    or adds nodes, and at most ten per round. *)
Definition loopFuel (maxNodes : Z) (st : BfsState) : nat :=
  length (st_queue st) + 11 * Z.to_nat (maxNodes - Z.of_nat (length (st_nodes st))).

Definition initialState (rootAddress : string) (rootWallet : option CryptoWalletInfo)
  : BfsState :=
  match rootWallet with
  | Some info =>
      {| st_nodes := [makeNode rootAddress info]; st_edges := [];
         st_visited := {[rootAddress]}; st_queue := [(rootAddress, 0)] |}
  | None =>
      {| st_nodes := []; st_edges := []; st_visited := ∅;
         st_queue := [(rootAddress, 0)] |}
  end.

(** [depth] defaults to 2 and [maxNodes] to 50 in the source. *)
Definition buildWalletGraph (rootAddress network : string) (depth maxNodes : Z)
  : M WalletGraph :=
  rootWallet ← getWalletInfo rootAddress network;
  let st0 := initialState rootAddress rootWallet in
  st ← bfsLoop (loopFuel maxNodes st0) network depth maxNodes st0;
  mret {| nodes := st_nodes st; edges := st_edges st; clusters := [] |}.

End Graph.

(* ===================================================================== *)
(** ** Analysis functions and investigateWallet *)
(* ===================================================================== *)

Section Investigation.
Context {env : Env}.

Local Open Scope float_scope.

(** [transactions.reduce((sum, tx) => sum + parseFloat(tx.value), 0)] *)
Definition sumValues (transactions : list CryptoTransaction) : float :=
  foldl (fun sum tx => sum + parseFloat (tx_value tx)) 0 transactions.

Definition analyzeBehaviorPattern (transactions : list CryptoTransaction) : string :=
  if bool_decide (length transactions = 0%nat) then "No transaction history"%string
  else
    let avgValue := sumValues transactions / JS.ofNat (length transactions) in
    let frequency := length transactions in
    if bool_decide (100 < frequency)%nat && JS.gt avgValue 1 then
      "High-frequency, high-value transactions - Possible exchange or business"%string
    else if bool_decide (50 < frequency)%nat then
      "Active wallet with regular transactions"%string
    else if bool_decide (frequency < 10)%nat then
      "Low activity wallet - Possibly dormant or new"%string
    else "Normal transaction pattern"%string.

Definition analyzeVolume (transactions : list CryptoTransaction) : string :=
  if bool_decide (length transactions = 0%nat) then "No volume data"%string
  else
    let totalVolume := sumValues transactions in
    if JS.gt totalVolume 1000 then "Very high volume - Major player or institutional"%string
    else if JS.gt totalVolume 100 then "High volume - Active trader or business"%string
    else if JS.gt totalVolume 10 then "Moderate volume - Regular user"%string
    else "Low volume - Casual user"%string.

(** [intervals[i-1] = timestamps[i-1] - timestamps[i]] for [i] from 1. *)
Definition txIntervals (transactions : list CryptoTransaction) : list float :=
  let timestamps := (fun tx => getTime (tx_timestamp tx)) <$> transactions in
  zip_with (fun earlier later => earlier - later) timestamps (tail timestamps).

Definition msPerDay : float := 1000 * 60 * 60 * 24.

Definition averageIntervalDays (transactions : list CryptoTransaction) : float :=
  let intervals := txIntervals transactions in
  let avgInterval := foldl (fun sum int => sum + int) 0 intervals / JS.ofNat (length intervals) in
  avgInterval / msPerDay.

Definition analyzeFrequency (transactions : list CryptoTransaction) : string :=
  if bool_decide (length transactions < 2)%nat then "Insufficient data"%string
  else
    let days := averageIntervalDays transactions in
    if JS.lt days 1 then "Multiple transactions per day - Very active"%string
    else if JS.lt days 7 then "Weekly transaction pattern"%string
    else if JS.lt days 30 then "Monthly transaction pattern"%string
    else "Infrequent transactions"%string.

(** [if (c) factors.push(s)] as a list fragment. *)
Definition pushIf (c : bool) (s : string) : list string := if c then [s] else [].

Definition identifyRiskFactors (wallet : CryptoWalletInfo)
  (transactions : list CryptoTransaction) : list string :=
  pushIf (w_isRansomware wallet) "Associated with ransomware activities" ++
  pushIf (w_isMixer wallet) "Connected to mixing services" ++
  pushIf (w_isExchange wallet) "Exchange wallet - high volume expected" ++
  pushIf (JS.gt (parseFloat (w_balance wallet)) 100) "High balance - attractive target" ++
  pushIf (bool_decide (100 < length transactions)%nat) "High transaction count".

Definition generateRecommendations (wallet : CryptoWalletInfo)
  (transactions : list CryptoTransaction) : list string :=
  pushIf (JS.gt (w_riskScore wallet) 70) "High risk - Investigate further before interaction" ++
  pushIf (w_isMixer wallet) "Avoid direct transactions - potential money laundering" ++
  pushIf (w_isRansomware wallet) "Report to authorities - known criminal activity" ++
  pushIf (bool_decide (length transactions = 0%nat)) "New or unused wallet - verify legitimacy".

Record InvestigationOptions := {
  fetchTransactions : option bool;
  buildGraph : option bool;
  graphDepth : option Z
}.

Definition emptyGraph : WalletGraph := {| nodes := []; edges := []; clusters := [] |}.

Definition connectedWalletOf (address : string) (graph : WalletGraph) (edge : GraphEdge)
  : ConnectedWallet :=
  {|
    cw_address := if String.eqb (e_target edge) address then e_source edge else e_target edge;
    cw_relationship := Both;
    cw_transactionCount := e_transactions edge;
    cw_totalVolume := e_totalVolume edge;
    cw_totalVolumeUSD := e_totalVolumeUSD edge;
    cw_firstInteraction := e_firstTx edge;
    cw_lastInteraction := e_lastTx edge;
    cw_riskScore :=
      JS.orElse
        (default nan
           (n_riskScore <$> find (fun n => String.eqb (n_id n) (e_target edge)) (nodes graph)))
        0
  |}.

Definition threatIntelOf (wallet : CryptoWalletInfo) : ThreatIntel :=
  {|
    isKnownThreat := w_isRansomware wallet || w_isMixer wallet;
    threatType :=
      filter (fun s => s <> ""%string)
        [ (if w_isRansomware wallet then "Ransomware" else "")%string;
          (if w_isMixer wallet then "Mixer" else "")%string ];
    associatedCampaigns := [];
    sanctioned := false;
    abuseReports := 0;
    details := []
  |}.

(** The object [investigateWallet] returns, from what its steps gave. *)
Definition assemble (address : string) (wallet : CryptoWalletInfo)
  (transactions : list CryptoTransaction) (graph : WalletGraph)
  : CryptoInvestigationResult :=
  {|
    wallet := wallet;
    transactions := transactions;
    connectedWallets := connectedWalletOf address graph <$> edges graph;
    graph := graph;
    threatIntel := threatIntelOf wallet;
    analysis := {|
      behaviorPattern := analyzeBehaviorPattern transactions;
      volumeAnalysis := analyzeVolume transactions;
      frequencyAnalysis := analyzeFrequency transactions;
      riskFactors := identifyRiskFactors wallet transactions;
      recommendations := generateRecommendations wallet transactions
    |}
  |}.

(** Everything runs inside one [try]; its [catch] returns [null]. *)
Definition investigateWallet (address network : string) (options : InvestigationOptions)
  : M (option CryptoInvestigationResult) :=
  tryCatch
    (found ← getWalletInfo address network;
     match found with
     | None => throw "Failed to fetch wallet information"
     | Some wallet =>
         transactions ←
           (if default true (fetchTransactions options)
            then getWalletTransactions address network 50
            else mret []);
         graph ←
           (if default true (buildGraph options)
            then buildWalletGraph address network (default 2%Z (graphDepth options)) 30
            else mret emptyGraph);
         mret (Some (assemble address wallet transactions graph))
     end)
    (fun _ => mret None).

End Investigation.

(* ===================================================================== *)
(** ** The quantities the specification names *)
(* ===================================================================== *)

(** The two averages by which the specification classifies a list of
    transactions, written after its words and independently of the
    helpers above, to be compared with what the helpers compute. *)
Module Specified.
Section Specified.
Context {env : Env}.

Local Open Scope float_scope.

(** The average of a list of numbers: their sum, taken from the left,
    over how many they are. *)
Definition average (l : list float) : float :=
  fold_left PrimFloat.add l 0 / JS.ofNat (length l).

(** "avgValue": the average of the values of the transactions. *)
Definition averageValue (transactions : list CryptoTransaction) : float :=
  average ((fun tx => parseFloat (tx_value tx)) <$> transactions).

(** The times of the transactions, in milliseconds since the epoch. *)
Definition times (transactions : list CryptoTransaction) : list float :=
  (fun tx => getTime (tx_timestamp tx)) <$> transactions.

(** The time between two transactions: the later time less the
    earlier. *)
Definition elapsed (t1 t2 : float) : float := if JS.lt t1 t2 then t2 - t1 else t1 - t2.

(** The intervals between consecutive transactions. *)
Fixpoint intervals (l : list float) : list float :=
  match l with
  | t1 :: ((t2 :: _) as rest) => elapsed t1 t2 :: intervals rest
  | _ => []
  end.

(** "average inter-transaction interval in days": a day has 86 400 000
    milliseconds. *)
Definition meanIntervalInDays (transactions : list CryptoTransaction) : float :=
  average (intervals (times transactions)) / 86400000.

(** The list is newest first, as the providers send it: no transaction
    is older than the one that follows it. *)
Fixpoint descending (l : list float) : Prop :=
  match l with
  | t1 :: ((t2 :: _) as rest) => JS.lt t1 t2 = false /\ descending rest
  | _ => True
  end.

Definition newestFirst (transactions : list CryptoTransaction) : Prop :=
  descending (times transactions).

End Specified.
End Specified.
(* ===================================================================== *)
(** ** CryptoWalletGraph.tsx: the force-directed layout *)
(* ===================================================================== *)

Record NodeWithPosition := {
  np_node : GraphNode;
  x : float;
  y : float;
  vx : float;
  vy : float
}.

(** [canvasRef.current]'s size, when there is a canvas. *)
Record Canvas := {
  width : float;
  height : float
}.

Section Layout.
Context {env : Env}.

Local Open Scope float_scope.

(* Decimal literals denote the nearest double, as they do in JavaScript. *)
#[local] Set Warnings "-inexact-float".

Definition radius : float := 200.
Definition alpha : float := 0.3.
Definition repulsion : float := 5000.
Definition attraction : float := 0.01.
Definition centerForce : float := 0.01.
Definition maxFrames : nat := 300.

(** "Initialize nodes with circular layout"; the effect returns early,
    leaving the state empty, without nodes or without a canvas. *)
Definition initialNodes (canvas : option Canvas) (graph : WalletGraph)
  : list NodeWithPosition :=
  match canvas with
  | None => []
  | Some c =>
      let centerX := width c / 2 in
      let centerY := height c / 2 in
      imap (fun index node =>
              let angle := JS.ofNat index / JS.ofNat (length (nodes graph)) * JS.PI * 2 in
              {| np_node := node;
                 x := centerX + radius * cos angle;
                 y := centerY + radius * sin angle;
                 vx := 0;
                 vy := 0 |})
           (nodes graph)
  end.

(** [newNodes.find(n => n.id === id)] *)
Definition findNode (newNodes : list NodeWithPosition) (id : string)
  : option NodeWithPosition :=
  find (fun n => String.eqb (n_id (np_node n)) id) newNodes.

(** "Repulsion between all nodes", read from the array as it is when
    node [i] is reached. *)
Definition repulsionForce (newNodes : list NodeWithPosition) (i : nat)
  (nodeA : NodeWithPosition) (f : float * float) : float * float :=
  foldl (fun f jb =>
           let '(j, nodeB) := jb in
           if Nat.eqb i j then f
           else
             let dx := x nodeA - x nodeB in
             let dy := y nodeA - y nodeB in
             let distance := JS.orElse (PrimFloat.sqrt (dx * dx + dy * dy)) 1 in
             let force := repulsion / (distance * distance) in
             (fst f + dx / distance * force, snd f + dy / distance * force))
        f (imap pair newNodes).

Definition pullToward (nodeA : NodeWithPosition) (other : option NodeWithPosition)
  (f : float * float) : float * float :=
  match other with
  | Some o => (fst f + (x o - x nodeA) * attraction, snd f + (y o - y nodeA) * attraction)
  | None => f
  end.

(** "Attraction along edges": an edge whose other end is not among the
    nodes contributes nothing. *)
Definition attractionForce (graphEdges : list GraphEdge) (newNodes : list NodeWithPosition)
  (nodeA : NodeWithPosition) (f : float * float) : float * float :=
  foldl (fun f edge =>
           let f1 :=
             if String.eqb (e_source edge) (n_id (np_node nodeA))
             then pullToward nodeA (findNode newNodes (e_target edge)) f else f in
           if String.eqb (e_target edge) (n_id (np_node nodeA))
           then pullToward nodeA (findNode newNodes (e_source edge)) f1 else f1)
        f graphEdges.

Definition gravityForce (canvas : option Canvas) (nodeA : NodeWithPosition)
  (f : float * float) : float * float :=
  match canvas with
  | Some c =>
      (fst f + (width c / 2 - x nodeA) * centerForce,
       snd f + (height c / 2 - y nodeA) * centerForce)
  | None => f
  end.

(** One round of the outer [for] loop: node [i] is updated in place, so
    the nodes after it see its new position. *)
Definition moveNode (canvas : option Canvas) (graphEdges : list GraphEdge)
  (newNodes : list NodeWithPosition) (i : nat) : list NodeWithPosition :=
  match newNodes !! i with
  | None => newNodes
  | Some nodeA =>
      let f := gravityForce canvas nodeA
                 (attractionForce graphEdges newNodes nodeA
                    (repulsionForce newNodes i nodeA (0, 0))) in
      let vx' := (vx nodeA + fst f) * alpha in
      let vy' := (vy nodeA + snd f) * alpha in
      <[i := {| np_node := np_node nodeA;
                x := x nodeA + vx'; y := y nodeA + vy';
                vx := vx'; vy := vy' |}]> newNodes
  end.

(** The state updater of [simulateForces]. *)
Definition simulateForces (canvas : option Canvas) (graphEdges : list GraphEdge)
  (prevNodes : list NodeWithPosition) : list NodeWithPosition :=
  foldl (moveNode canvas graphEdges) prevNodes (seq 0 (length prevNodes)).

(** The animation loop run for a given number of frames. *)
Definition animate (canvas : option Canvas) (graph : WalletGraph) (frames : nat)
  : list NodeWithPosition :=
  Nat.iter frames (simulateForces canvas (edges graph)) (initialNodes canvas graph).

(** The position map: each node's id with its coordinates. *)
Definition positions (l : list NodeWithPosition) : list (string * (float * float)) :=
  (fun n => (n_id (np_node n), (x n, y n))) <$> l.

End Layout.

(* ===================================================================== *)
(** ** Concrete ledgers *)
(* ===================================================================== *)

(** Small worlds on which the definitions above are run.  The runtime
    built-ins are toy ones that agree with JavaScript on the small
    non-negative integers used here: numbers print in decimal, dates are
    printed as seconds since the epoch. *)
Module Ledger.

Local Open Scope float_scope.

Definition digitValue (c : ascii) : option nat :=
  let n := nat_of_ascii c in
  if bool_decide (48 <= n /\ n <= 57)%nat then Some (n - 48)%nat else None.

Fixpoint parseDigits (acc : nat) (s : string) : option nat :=
  match s with
  | EmptyString => Some acc
  | String c rest =>
      match digitValue c with
      | Some d => parseDigits (10 * acc + d) rest
      | None => None
      end
  end.

Definition readNumber (s : string) : float :=
  match s with
  | EmptyString => nan
  | _ => match parseDigits 0 s with Some n => JS.ofNat n | None => nan end
  end.

Definition printNumber (f : float) : string :=
  match find (fun n => PrimFloat.eqb (JS.ofNat n) f) (seq 0 1000) with
  | Some n => pretty n
  | None => "NaN"
  end.

Definition printDate (ms : float) : option string :=
  if PrimFloat.is_nan ms then None else Some (printNumber (ms / 1000)).

Definition readDate (s : string) : float := readNumber s * 1000.

(** A transaction of [value] satoshi from [senders] to [receivers]. *)
Definition rawTx (hash : string) (time : float) (senders receivers : list string)
  (value : float) : RawTx :=
  {|
    rt_hash := hash;
    rt_time := time;
    rt_block_height := 1;
    rt_block_hash := Some "00"%string;
    rt_fee := 0;
    rt_inputs :=
      (fun a => {| ri_prev_out := Some {| po_addr := Some a; po_value := value;
                                          po_tx_index := None; po_n := 0 |} |}) <$> senders;
    rt_out :=
      (fun a => {| ro_addr := Some a; ro_value := value; ro_spent := false;
                   ro_spending_tx_index := None |}) <$> receivers
  |}.

Definition rawAddr (txs : list RawTx) : RawAddr :=
  {| ra_final_balance := 0; ra_total_received := 0; ra_total_sent := 0;
     ra_n_tx := JS.ofNat (length txs); ra_txs := txs |}.

(** A world with blockchain.info as the only provider that answers:
    [infoUp t a] says whether the address lookup (the request with
    [limit=0]) succeeds at call [t], [txsUp t a] whether the transaction
    list does, and [history a] is the list it returns.  The clock stands
    still. *)
Definition ledger (history : string -> list RawTx) (infoUp txsUp : nat -> string -> bool)
  : Env :=
  {|
    blockchainInfoRawAddr := fun t a limit =>
      match limit with
      | O => if infoUp t a then Ok (rawAddr []) else NotOk
      | _ => if txsUp t a then Ok (rawAddr (take limit (history a))) else NotOk
      end;
    blockchairAddress := fun _ _ => NotOk;
    ethplorerAddressInfo := fun _ _ => NotOk;
    dateNow := fun _ => 1000%Z;
    numToString := printNumber;
    parseFloat := readNumber;
    toISOString := printDate;
    getTime := readDate;
    cos := fun a => 1 - a * a / 2;
    sin := fun a => a - a * a * a / 6
  |}.

(** A world in which blockchain.info always answers [r1] and blockchair
    always answers [r2]. *)
Definition unreachable (r1 : Response RawAddr) (r2 : Response (option BlockchairAddress))
  : Env :=
  {|
    blockchainInfoRawAddr := fun _ _ _ => r1;
    blockchairAddress := fun _ _ => r2;
    ethplorerAddressInfo := fun _ _ => NotOk;
    dateNow := fun _ => 1000%Z;
    numToString := printNumber;
    parseFloat := readNumber;
    toISOString := printDate;
    getTime := readDate;
    cos := fun a => 1 - a * a / 2;
    sin := fun a => a - a * a * a / 6
  |}.

Definition up : nat -> string -> bool := fun _ _ => true.
Definition down : nat -> string -> bool := fun _ _ => false.
Definition except (missing : string) : nat -> string -> bool :=
  fun _ a => negb (String.eqb a missing).

(** [A] pays [B], [C] and [D] three coins each in one transaction. *)
Definition fanOut (a : string) : list RawTx :=
  if String.eqb a "A" then [rawTx "t1" 10 ["A"%string] ["B"; "C"; "D"]%string 300000000] else [].

(** [A] pays [B] one coin; both addresses list the transaction. *)
Definition payment (a : string) : list RawTx :=
  if String.eqb a "A" || String.eqb a "B"
  then [rawTx "t1" 10 ["A"%string] ["B"%string] 100000000] else [].

(** The scenario of the specification: three payments from [A] to [B],
    of 2, 2 and 1 coins, and one of 1 coin to [C]. *)
Definition threeToB (a : string) : list RawTx :=
  if String.eqb a "A"
  then [rawTx "t4" 40 ["A"%string] ["B"%string] 200000000;
        rawTx "t3" 30 ["A"%string] ["C"%string] 100000000;
        rawTx "t2" 20 ["A"%string] ["B"%string] 200000000;
        rawTx "t1" 10 ["A"%string] ["B"%string] 100000000]
  else [].

(** A tree of payments: the addresses are numbers, and each of the
    addresses 0 to 10 pays ten addresses of its own in one transaction. *)
Definition tree (a : string) : list RawTx :=
  match parseDigits 0 a with
  | Some k =>
      if bool_decide (k <= 10)%nat
      then [rawTx "t" 10 [a] ((fun j => pretty (10 * k + j)%nat) <$> seq 1 10) 100000000]
      else []
  | None => []
  end.

Definition treeWorld : Env := ledger tree up up.
Definition threeToBWorld : Env := ledger threeToB up up.
Definition fanOutWorld : Env := ledger fanOut up up.
Definition paymentWorld : Env := ledger payment up up.
(** [B]'s wallet cannot be fetched. *)
Definition withoutB : Env := ledger payment (except "B") up.
(** The root [A] cannot be fetched, its transactions can. *)
Definition withoutA : Env := ledger payment (except "A") up.
(** Every provider reports the address absent: 404 from blockchain.info,
    a body without the address from blockchair. *)
Definition absent : Env := unreachable NotOk (Ok None).
(** Every attempt raises. *)
Definition erroring : Env := unreachable Threw Threw.
(** The first call is answered, then the network is gone. *)
Definition goesDown : Env := ledger payment (fun t _ => Nat.eqb t 0) down.

(** One request fails: the second, which is the one for the
    transaction list of an investigated wallet. *)
Definition secondFails : Env := ledger payment up (fun t _ => negb (Nat.eqb t 1)).

(** The clock advances 700 seconds with every request, more than the
    ten minutes an entry of the cache lives.  The wallet of [A] is found
    by the first request only, the wallet of [B] and the transaction
    lists always. *)
Definition expiring : Env :=
  {|
    blockchainInfoRawAddr := fun t a limit =>
      match limit with
      | O => if Nat.eqb t 0 || String.eqb a "B" then Ok (rawAddr []) else NotOk
      | _ => Ok (rawAddr (take limit (payment a)))
      end;
    blockchairAddress := fun _ _ => NotOk;
    ethplorerAddressInfo := fun _ _ => NotOk;
    dateNow := fun t => (700000 * Z.of_nat t)%Z;
    numToString := printNumber;
    parseFloat := readNumber;
    toISOString := printDate;
    getTime := readDate;
    cos := fun a => 1 - a * a / 2;
    sin := fun a => a - a * a * a / 6
  |}.

Definition defaults : InvestigationOptions :=
  {| fetchTransactions := None; buildGraph := None; graphDepth := None |}.

(** A transaction as the analysis helpers read it: a time in seconds
    and a value. *)
Definition transfer (timestamp value : string) : CryptoTransaction :=
  {|
    tx_hash := "t"; tx_blockNumber := 1; tx_blockHash := ""; tx_timestamp := timestamp;
    tx_confirmations := 0; tx_from := "A"; tx_to := "B"; tx_value := value;
    tx_valueUSD := 0; tx_fee := "0"; tx_feeUSD := 0; tx_status := Confirmed;
    tx_inputs := []; tx_outputs := []
  |}.

(** Two payments one day apart, newest first. *)
Definition twoPayments : list CryptoTransaction :=
  [transfer "86400" "2"; transfer "0" "1"].

Definition plainNode (id balance : string) (level : RiskLevel) : GraphNode :=
  {| n_id := id; n_address := id; n_label := id; n_type := TWallet; n_balance := balance;
     n_transactionCount := 0; n_riskScore := 0; n_riskLevel := level |}.

Definition plainEdge (source target : string) (transactions : nat) : GraphEdge :=
  {| e_id := source +:+ "-" +:+ target; e_source := source; e_target := target;
     e_transactions := transactions; e_totalVolume := "0"; e_totalVolumeUSD := 0;
     e_firstTx := ""; e_lastTx := ""; e_direction := Bidirectional |}.

(** Two graphs with the same nodes and the same edge, and different
    balances, risk levels and transaction counts. *)
Definition pairGraph : WalletGraph :=
  {| nodes := [plainNode "A" "0" Safe; plainNode "B" "0" Safe];
     edges := [plainEdge "A" "B" 1]; clusters := [] |}.

Definition pairGraphRelabelled : WalletGraph :=
  {| nodes := [plainNode "A" "7" Critical; plainNode "B" "3" High];
     edges := [plainEdge "A" "B" 5]; clusters := [] |}.

(** The canvas of the component: 800 by 600. *)
Definition canvas : option Canvas := Some {| width := 800; height := 600 |}.

End Ledger.

(* ===================================================================== *)
(** ** Dates *)
(* ===================================================================== *)

(** [Date.prototype.toISOString] and [Date.prototype.getTime] on the
    strings that [toISOString] prints, which are the timestamps the
    service stores.  Any other string is read as an invalid date: that
    is what JavaScript does with a string that is no date, while it
    accepts more formats of dates than the one modelled here. *)
Module JSDate.

Definition msPerDay : Z := 86400000.

(** The days from 1970-01-01 to a date of the proleptic Gregorian
    calendar, counting the years from March so that the leap day comes
    last. *)
Definition daysFromCivil (year month day : Z) : Z :=
  let y := if (month <=? 2)%Z then (year - 1)%Z else year in
  let era := (y / 400)%Z in
  let yearOfEra := (y - era * 400)%Z in
  let monthFromMarch := if (2 <? month)%Z then (month - 3)%Z else (month + 9)%Z in
  let dayOfYear := ((153 * monthFromMarch + 2) / 5 + day - 1)%Z in
  let dayOfEra := (yearOfEra * 365 + yearOfEra / 4 - yearOfEra / 100 + dayOfYear)%Z in
  (era * 146097 + dayOfEra - 719468)%Z.

(** The year, month and day of a number of days from 1970-01-01. *)
Definition civilFromDays (days : Z) : Z * Z * Z :=
  let z := (days + 719468)%Z in
  let era := (z / 146097)%Z in
  let dayOfEra := (z - era * 146097)%Z in
  let yearOfEra :=
    ((dayOfEra - dayOfEra / 1460 + dayOfEra / 36524 - dayOfEra / 146096) / 365)%Z in
  let dayOfYear := (dayOfEra - (365 * yearOfEra + yearOfEra / 4 - yearOfEra / 100))%Z in
  let monthFromMarch := ((5 * dayOfYear + 2) / 153)%Z in
  let day := (dayOfYear - (153 * monthFromMarch + 2) / 5 + 1)%Z in
  let month := if (monthFromMarch <? 10)%Z then (monthFromMarch + 3)%Z
               else (monthFromMarch - 9)%Z in
  ((yearOfEra + era * 400 + (if (month <=? 2)%Z then 1 else 0))%Z, month, day).

Fixpoint zeros (n : nat) : string :=
  match n with
  | O => EmptyString
  | S n' => String "0" (zeros n')
  end.

(** A non-negative number in decimal, with zeros in front up to [width]
    digits. *)
Definition padded (width : nat) (n : Z) : string :=
  let digits := pretty (Z.to_N n) in
  zeros (width - String.length digits) +:+ digits.

(** The integer part of a number; [None] for [NaN] and the infinities. *)
Definition truncate (f : float) : option Z :=
  match Prim2SF f with
  | S754_zero _ => Some 0%Z
  | S754_finite negative m e =>
      let magnitude :=
        if (0 <=? e)%Z then (Z.pos m * 2 ^ e)%Z else (Z.pos m / 2 ^ (- e))%Z in
      Some (if negative then (- magnitude)%Z else magnitude)
  | _ => None
  end.

(** The greatest distance of a time value from the epoch. *)
Definition maxTime : Z := 8640000000000000.

(** [YYYY-MM-DDTHH:mm:ss.sssZ], the year with a sign and six digits
    when it is not between 0 and 9999. *)
Definition isoString (t : Z) : string :=
  let ms := (t mod msPerDay)%Z in
  let '(year, month, day) := civilFromDays (t / msPerDay) in
  (if (0 <=? year)%Z && (year <=? 9999)%Z then padded 4 year
   else (if (year <? 0)%Z then "-" else "+") +:+ padded 6 (Z.abs year)) +:+
  "-" +:+ padded 2 month +:+ "-" +:+ padded 2 day +:+
  "T" +:+ padded 2 (ms / 3600000) +:+ ":" +:+ padded 2 (ms / 60000 mod 60) +:+
  ":" +:+ padded 2 (ms / 1000 mod 60) +:+ "." +:+ padded 3 (ms mod 1000) +:+ "Z".

(** [new Date(ms).toISOString()]; [None] is the [RangeError] of an
    invalid date. *)
Definition toISOString (ms : float) : option string :=
  t ← truncate ms;
  if (Z.abs t <=? maxTime)%Z then Some (isoString t) else None.

Definition digitOf (c : ascii) : option Z :=
  let n := nat_of_ascii c in
  if bool_decide (48 <= n /\ n <= 57)%nat then Some (Z.of_nat n - 48)%Z else None.

Fixpoint numberFrom (acc : Z) (s : string) : option Z :=
  match s with
  | EmptyString => Some acc
  | String c rest => d ← digitOf c; numberFrom (10 * acc + d) rest
  end.

(** The number written in a field of a string. *)
Definition field (s : string) (start len : nat) : option Z :=
  numberFrom 0 (String.substring start len s).

(** The time value the fields of [s] stand for, when [s] has the length
    of a date with a year of four digits, or of six digits and a
    sign. *)
Definition fieldsOf (s : string) : option Z :=
  let long := bool_decide (String.length s = 27) in
  let shift := if long then 3 else 0 in
  year ← (if long
          then (if String.prefix "-" s then Z.opp else id) <$> field s 1 6
          else field s 0 4);
  month ← field s (5 + shift) 2;
  day ← field s (8 + shift) 2;
  hours ← field s (11 + shift) 2;
  minutes ← field s (14 + shift) 2;
  seconds ← field s (17 + shift) 2;
  milliseconds ← field s (20 + shift) 3;
  Some (daysFromCivil year month day * msPerDay + hours * 3600000 + minutes * 60000
        + seconds * 1000 + milliseconds)%Z.

(** [new Date(s).getTime()]: the time value of a string that is the
    print of one, [NaN] for every other string. *)
Definition getTime (s : string) : float :=
  match fieldsOf s with
  | Some t =>
      if String.eqb (isoString t) s && (Z.abs t <=? maxTime)%Z then JS.ofZ t else nan
  | None => nan
  end.

End JSDate.

(** A world with the dates of JavaScript in place of the toy ones. *)
Definition withCalendar (e : Env) : Env :=
  {|
    blockchainInfoRawAddr := @blockchainInfoRawAddr e;
    blockchairAddress := @blockchairAddress e;
    ethplorerAddressInfo := @ethplorerAddressInfo e;
    dateNow := @dateNow e;
    numToString := @numToString e;
    parseFloat := @parseFloat e;
    toISOString := JSDate.toISOString;
    getTime := JSDate.getTime;
    cos := @cos e;
    sin := @sin e
  |}.

Definition calendarWorld : Env := withCalendar Ledger.paymentWorld.

(** Two payments a day apart and three payments a month apart, newest
    first, and the latter oldest first. *)
Definition dayApart : list CryptoTransaction :=
  [Ledger.transfer "2024-03-09T12:00:00.000Z" "2";
   Ledger.transfer "2024-03-08T12:00:00.000Z" "1"].

Definition monthApart : list CryptoTransaction :=
  [Ledger.transfer "2024-03-31T00:00:00.000Z" "1";
   Ledger.transfer "2024-02-29T00:00:00.000Z" "1";
   Ledger.transfer "2024-01-30T00:00:00.000Z" "1"].

(* ===================================================================== *)
(** ** Predicates used in the statements *)
(* ===================================================================== *)

(** The computation completes normally from every state, with a result
    satisfying [Q]. *)
Definition always {A} (m : M A) (Q : A -> Prop) : Prop :=
  forall w, exists a w', m w = (Normal a, w') /\ Q a.

(** How a run completed, apart from the state it left. *)
Definition result {A} (r : Completion A * World) : Completion A := fst r.

(** The addresses of a list of nodes. *)
Definition addresses (l : list GraphNode) : list string := n_address <$> l.

(** The two ends of an edge, and of every edge of a graph. *)
Definition endsOf (e : GraphEdge) : string * string := (e_source e, e_target e).

Definition ends (g : WalletGraph) : list (string * string) := endsOf <$> edges g.

(** The transactions of a list in which [c] is a counterpart of
    [address]. *)
Definition involving (address c : string) (transactions : list CryptoTransaction)
  : list CryptoTransaction :=
  filter (fun tx => c ∈ connectedAddresses address tx) transactions.

(** A list of transactions merged into one connection: how many they
    are, the sum of their values and their hashes, in their order. *)
Definition accumulated {env : Env} (l : list CryptoTransaction) : Connection :=
  {| count := length l; volume := sumValues l; txHashes := tx_hash <$> l |}.

(** The entry of [c] in the connections map, or the record a first
    transaction starts from. *)
Definition entryOf (connections : list (string * Connection)) (c : string) : Connection :=
  default {| count := 0; volume := 0; txHashes := [] |} (mapGet connections c).

(** One more transaction merged into an entry. *)
Definition bump {env : Env} (d : Connection) (tx : CryptoTransaction) : Connection :=
  {| count := count d + 1;
     volume := (volume d + parseFloat (tx_value tx))%float;
     txHashes := txHashes d ++ [tx_hash tx] |}.

(** The invariant behind "one edge per ordered pair": no two edges with
    the same ends, no address queued twice, every queued address and
    every edge source visited, and no edge source still in the queue. *)
Definition EdgeInv (st : BfsState) : Prop :=
  NoDup (endsOf <$> st_edges st) /\
  NoDup (fst <$> st_queue st) /\
  (forall a, a ∈ (fst <$> st_queue st) -> a ∈ st_visited st) /\
  (forall e, e ∈ st_edges st -> e_source e ∈ st_visited st /\
                                e_source e ∉ (fst <$> st_queue st)).

(** What holds between two counterparts of the address being expanded:
    [EdgeInv], the address is visited and out of the queue, and its
    edges so far end outside the counterparts still to come. *)
Definition Expanding (address : string) (remaining : list string) (st : BfsState) : Prop :=
  EdgeInv st /\
  address ∈ st_visited st /\ (address ∉ (fst <$> st_queue st)) /\
  (forall e, e ∈ st_edges st -> e_source e = address -> e_target e ∉ remaining).

(** The risk fields every provider branch writes into a wallet. *)
Definition riskConstant (info : CryptoWalletInfo) : Prop :=
  w_riskScore info = 0%float /\ w_riskLevel info = Safe /\ w_labels info = [] /\
  w_isExchange info = false /\ w_isMixer info = false /\ w_isRansomware info = false.

(** Every cached wallet has the constant risk fields: true of the empty
    cache and kept by every operation of the service. *)
Definition cacheClean (w : World) : Prop :=
  forall key info expiry, walletCache w !! key = Some (info, expiry) -> riskConstant info.

(** The cache key of a transaction list. *)
Definition listKey (network address : string) (limit : nat) : string :=
  "wallet_txs_" +:+ network +:+ "_" +:+ address +:+ "_" +:+ pretty limit.

(** The transaction list of [address] cannot be had in the state [w]:
    the cache does not answer, and on bitcoin, the one network with a
    provider of lists, blockchain.info does not answer the request made
    in this state, or answers with a transaction whose time cannot be
    printed. *)
Definition noTransactionList {env : Env} (address network : string) (limit : nat)
  (w : World) : Prop :=
  match txsCache w !! listKey network address limit with
  | Some (_, expiry) => (expiry <= dateNow (tick w))%Z
  | None => True
  end /\
  (network = "bitcoin" ->
   match blockchainInfoRawAddr (tick w) address limit with
   | Ok data => Exists (fun tx => toISOString (rt_time tx * 1000)%float = None) (ra_txs data)
   | _ => True
   end).

(** The parts of a graph the layout reads: the ids of the nodes, in
    order, and the two ends of every edge, in order. *)
Definition layoutInput (g : WalletGraph) : list string * list (string * string) :=
  (n_id <$> nodes g, endsOf <$> edges g).

(** Two placed nodes agree on id, position and velocity. *)
Definition samePlaced (a b : NodeWithPosition) : Prop :=
  n_id (np_node a) = n_id (np_node b) /\
  x a = x b /\ y a = y b /\ vx a = vx b /\ vy a = vy b.

Definition samePlacement (l1 l2 : list NodeWithPosition) : Prop :=
  Forall2 samePlaced l1 l2.

(** Two edges have the same ends. *)
Definition sameEnds (e1 e2 : GraphEdge) : Prop :=
  e_source e1 = e_source e2 /\ e_target e1 = e_target e2.

(** What a round of the search adds: [k] nodes and as many queue entries. *)
Definition grew (k : nat) (st st' : BfsState) : Prop :=
  length (st_nodes st') = length (st_nodes st) + k /\
  length (st_queue st') = length (st_queue st) + k.

(** A later state of the search: nodes and edges are only ever added
    behind those there are. *)
Definition laterState (st st' : BfsState) : Prop :=
  (exists more, st_nodes st' = (st_nodes st ++ more)%list) /\
  (exists more, st_edges st' = (st_edges st ++ more)%list).

(** The edges a round pushes for the connections it is given. *)
Definition edgesOf {env : Env} (address : string) (l : list (string * Connection))
  : list GraphEdge :=
  (fun entry => makeEdge address (fst entry) (snd entry)) <$> l.

(** The states in which the body of a [forEach] runs, each with the
    element it runs on. *)
Fixpoint forEachTrace {A S} (f : S -> A -> M S) (s : S) (l : list A) (w : World)
  : list (S * A * World) :=
  match l with
  | [] => []
  | a :: rest =>
      (s, a, w) ::
      match f s a w with
      | (Normal s', w') => forEachTrace f s' rest w'
      | (Throw _, _) => []
      end
  end.

Section Lookups.
Context {env : Env}.

(** The counterpart whose wallet [addConnection] asks for and does not
    get, when it runs on [entry] in the state [st], [w]: none when the
    counterpart is visited, for then no wallet is asked for, and none
    when the wallet is found. *)
Definition missed (network : string) (visit : BfsState * (string * Connection) * World)
  : list string :=
  let '(st, entry, w) := visit in
  if bool_decide (fst entry ∈ st_visited st) then []
  else match getWalletInfo (fst entry) network w with
       | (Normal None, _) => [fst entry]
       | _ => []
       end.

(** The counterparts whose wallet was asked for and not found in the
    round that [bfsStep] runs from [st], [w]. *)
Definition roundMisses (network : string) (depth : Z) (st : BfsState) (w : World)
  : list string :=
  match st_queue st with
  | [] => []
  | (address, level) :: rest =>
      let st0 := {| st_nodes := st_nodes st; st_edges := st_edges st;
                    st_visited := st_visited st; st_queue := rest |} in
      if bool_decide (depth <= Z.of_nat level)%Z then []
      else
        match getWalletTransactions address network 20 w with
        | (Normal transactions, w1) =>
            concat (missed network <$>
                      forEachTrace (addConnection network address level) st0
                                   (take 10 (analyzeConnections address transactions)) w1)
        | (Throw _, _) => []
        end
  end.

(** The same for the rounds of [bfsLoop], in order. *)
Fixpoint loopMisses (fuel : nat) (network : string) (depth maxNodes : Z) (st : BfsState)
  (w : World) : list string :=
  match fuel with
  | O => []
  | S fuel' =>
      if loopGuard maxNodes st then
        roundMisses network depth st w ++
        match bfsStep network depth st w with
        | (Normal st', w') => loopMisses fuel' network depth maxNodes st' w'
        | (Throw _, _) => []
        end
      else []
  end.

(** The lookups that failed in one build: the counterparts whose wallet
    [buildWalletGraph], run from the state [w], asked for and did not
    get, in the order of the requests. *)
Definition failedLookups (rootAddress network : string) (depth maxNodes : Z) (w : World)
  : list string :=
  match getWalletInfo rootAddress network w with
  | (Normal rootWallet, w1) =>
      let st0 := initialState rootAddress rootWallet in
      loopMisses (loopFuel maxNodes st0) network depth maxNodes st0 w1
  | (Throw _, _) => []
  end.

End Lookups.

(** The invariant of the search, with the lookups that failed so far;
    [unfound] holds the root address when its own lookup failed, and
    nothing otherwise.  The visited set is the set of node addresses,
    every queued address is a node or the unfound root, every edge
    starts at a node or at the unfound root and ends at a node or at an
    address whose lookup failed, and every address whose lookup failed
    is the end of an edge. *)
Definition GraphInv (unfound : list string) (st : BfsState) (failed : list string) : Prop :=
  (forall a, a ∈ st_visited st <-> a ∈ addresses (st_nodes st)) /\
  (forall a level, (a, level) ∈ st_queue st -> a ∈ addresses (st_nodes st) \/ a ∈ unfound) /\
  (forall e, e ∈ st_edges st ->
     (e_source e ∈ addresses (st_nodes st) \/ e_source e ∈ unfound) /\
     (e_target e ∈ addresses (st_nodes st) \/ e_target e ∈ failed)) /\
  (forall a, a ∈ failed -> exists e, e ∈ st_edges st /\ e_target e = a).

(** The root address when its lookup found no wallet. *)
Definition unfoundRoot (rootAddress : string) (rootWallet : option CryptoWalletInfo)
  : list string :=
  match rootWallet with
  | Some _ => []
  | None => [rootAddress]
  end.

(* ===================================================================== *)
(** ** Address and hash formats *)
(* ===================================================================== *)

(** The regular expressions of the sources are all of one shape: a
    sequence of character classes, each with a repetition count, between
    [^] and [$].  A pattern is the list of its items, and a subject
    matches when it splits into consecutive pieces, one for each item,
    made of characters of the item's class and of a length the item
    allows.  Characters are the 8-bit characters of [string], read as
    the code units below 256. *)
Module RegExp.

(** [[...]] or [[^...]]: the ranges between the brackets, a single
    character being a range of one. *)
Record CharClass := {
  negated : bool;
  ranges : list (ascii * ascii)
}.

Definition inRange (c : ascii) (r : ascii * ascii) : bool :=
  (nat_of_ascii (fst r) <=? nat_of_ascii c)%nat && (nat_of_ascii c <=? nat_of_ascii (snd r))%nat.

Definition member (cc : CharClass) (c : ascii) : bool :=
  xorb (negated cc) (existsb (inRange c) (ranges cc)).

(** A class with its quantifier: [{m,n}], or [+] when there is no upper
    bound. *)
Record Item := {
  chars : CharClass;
  atLeast : nat;
  atMost : option nat
}.

Definition oneOf (l : list (ascii * ascii)) : CharClass :=
  {| negated := false; ranges := l |}.

Definition noneOf (l : list (ascii * ascii)) : CharClass :=
  {| negated := true; ranges := l |}.

Definition single (cc : CharClass) : Item :=
  {| chars := cc; atLeast := 1; atMost := Some 1 |}.

(** A literal character. *)
Definition lit (c : ascii) : Item := single (oneOf [(c, c)]).

Definition between (cc : CharClass) (m n : nat) : Item :=
  {| chars := cc; atLeast := m; atMost := Some n |}.

Definition oneOrMore (cc : CharClass) : Item :=
  {| chars := cc; atLeast := 1; atMost := None |}.

(** The lengths the first piece may have in a subject of length [n]. *)
Definition pieceLengths (item : Item) (n : nat) : list nat :=
  seq (atLeast item) (S (Nat.min n (default n (atMost item))) - atLeast item).

Fixpoint matchesFrom (pattern : list Item) (s : list ascii) : bool :=
  match pattern with
  | [] => match s with [] => true | _ => false end
  | item :: rest =>
      existsb (fun k => forallb (member (chars item)) (take k s) && matchesFrom rest (drop k s))
              (pieceLengths item (length s))
  end.

(** [/^pattern$/.test(s)] *)
Definition test (pattern : list Item) (s : string) : bool :=
  matchesFrom pattern (list_ascii_of_string s).

End RegExp.

Import RegExp.

(** The white space and line terminators among the characters below
    256: tab to carriage return, the space and the no-break space.
    [String.prototype.trim] strips them and [\s] matches them. *)
Definition whiteSpace : list (ascii * ascii) :=
  [("009", "013"); (" ", " "); ("160", "160")]%char.

Definition isWhiteSpace (c : ascii) : bool := existsb (inRange c) whiteSpace.

Fixpoint trimStart (s : string) : string :=
  match s with
  | EmptyString => EmptyString
  | String c rest => if isWhiteSpace c then trimStart rest else s
  end.

Fixpoint trimEnd (s : string) : string :=
  match s with
  | EmptyString => EmptyString
  | String c rest =>
      match trimEnd rest with
      | EmptyString => if isWhiteSpace c then EmptyString else String c EmptyString
      | kept => String c kept
      end
  end.

(** [s.trim()] *)
Definition trim (s : string) : string := trimEnd (trimStart s).

(** [[a-km-zA-HJ-NP-Z1-9]] *)
Definition base58 : CharClass :=
  oneOf [("a", "k"); ("m", "z"); ("A", "H"); ("J", "N"); ("P", "Z"); ("1", "9")]%char.

(** [[a-fA-F0-9]] *)
Definition hexDigit : CharClass :=
  oneOf [("a", "f"); ("A", "F"); ("0", "9")]%char.

(** [/^[13][a-km-zA-HJ-NP-Z1-9]{25,34}$/] *)
Definition bitcoinLegacy : list Item :=
  [single (oneOf [("1", "1"); ("3", "3")]%char); between base58 25 34].

(** [/^bc1[a-z0-9]{39,59}$/] *)
Definition bitcoinBech32 : list Item :=
  [lit "b"; lit "c"; lit "1"; between (oneOf [("a", "z"); ("0", "9")]%char) 39 59].

(** [/^0x[a-fA-F0-9]{40}$/] *)
Definition ethereumAddress : list Item :=
  [lit "0"; lit "x"; between hexDigit 40 40].

(** [/^T[A-Za-z1-9]{33}$/] *)
Definition tronAddress : list Item :=
  [lit "T"; between (oneOf [("A", "Z"); ("a", "z"); ("1", "9")]%char) 33 33].

(** [/^[LM][a-km-zA-HJ-NP-Z1-9]{26,33}$/] *)
Definition litecoinAddress : list Item :=
  [single (oneOf [("L", "L"); ("M", "M")]%char); between base58 26 33].

(** [/^[a-fA-F0-9]{64}$/] *)
Definition bareHash : list Item := [between hexDigit 64 64].

(** [/^0x[a-fA-F0-9]{64}$/] *)
Definition prefixedHash : list Item := [lit "0"; lit "x"; between hexDigit 64 64].

Definition detectNetworkFromAddress (address : string) : string :=
  let trimmed := trim address in
  if test bitcoinLegacy trimmed || test bitcoinBech32 trimmed then "bitcoin"
  else if test ethereumAddress trimmed then "ethereum"
  else if test tronAddress trimmed then "tron"
  else if test litecoinAddress trimmed then "litecoin"
  else "unknown".

Definition isValidTransactionHash (hash network : string) : bool :=
  let trimmed := trim hash in
  if String.eqb network "bitcoin" || String.eqb network "litecoin" then test bareHash trimmed
  else if String.eqb network "ethereum" || String.eqb network "tron" then test prefixedHash trimmed
  else false.

(* ===================================================================== *)
(** ** leakedCredentialsService.ts: the display helpers *)
(* ===================================================================== *)

(** ['*'.repeat(n)] *)
Fixpoint stars (n : nat) : string :=
  match n with
  | O => EmptyString
  | S n' => String "*" (stars n')
  end.

(** [password] is [string | null]; the empty string is falsy as well. *)
Definition maskPassword (password : option string) : string :=
  match password with
  | None | Some EmptyString => "N/A"
  | Some p =>
      if (String.length p <=? 4)%nat then "****"
      else
        String.substring 0 2 p +:+
        stars (Nat.min (String.length p - 4) 8) +:+
        String.substring (String.length p - 2) (String.length p) p
  end.

(** [[^\s@]] *)
Definition notSpaceNorAt : CharClass := noneOf (whiteSpace ++ [("@", "@")]%char).

(** [/^[^\s@]+@[^\s@]+\.[^\s@]+$/] *)
Definition emailPattern : list Item :=
  [oneOrMore notSpaceNorAt; lit "@"; oneOrMore notSpaceNorAt; lit "."; oneOrMore notSpaceNorAt].

Definition isEmail (str : string) : bool := test emailPattern str.

(* ===================================================================== *)
(** ** getTransactionDetails *)
(* ===================================================================== *)

(** blockchain.info [/rawtx/{hash}], answered like the providers of
    [Env]; the body has the fields of an entry of [txs]. *)
Class TxProvider := {
  blockchainInfoRawTx : nat -> string -> Response RawTx
}.

(** Modelled from the spec: the part of the response cache that holds
    the [tx_details_] entries, kept beside the [World] of the other two
    kinds of entry. *)
Record DetailsWorld := {
  world : World;
  detailsCache : gmap string (CryptoTransaction * Z)
}.

Definition MD (A : Type) : Type := DetailsWorld -> Completion A * DetailsWorld.

(** A computation of the service run where the details cache is around. *)
Definition inWorld {A} (m : M A) : MD A :=
  fun dw =>
    let '(c, w') := m (world dw) in
    (c, {| world := w'; detailsCache := detailsCache dw |}).

Section Details.
Context {env : Env} {txProvider : TxProvider}.

Definition fetchRawTx (txHash : string) : M (Response RawTx) :=
  fun w => (Normal (blockchainInfoRawTx (tick w) txHash), nextTick w).

(** The record built from a [/rawtx] body; [None] when [toISOString]
    raises. *)
Definition transactionOf (txHash : string) (data : RawTx) : option CryptoTransaction :=
  let inputs := normalizeInput <$> rt_inputs data in
  let outputs := imap normalizeOutput (rt_out data) in
  timestamp ← toISOString (rt_time data * 1000)%float;
  Some {|
    tx_hash := txHash;
    tx_blockNumber := JS.orElse (rt_block_height data) 0;
    tx_blockHash := JS.strOr (rt_block_hash data) "";
    tx_timestamp := timestamp;
    tx_confirmations := 0;
    tx_from := JS.strOr (in_address <$> head inputs) "Unknown";
    tx_to := JS.strOr (out_address <$> head outputs) "Unknown";
    tx_value :=
      numToString (foldl (fun sum out => (sum + parseFloat (out_value out))%float) 0%float outputs);
    tx_valueUSD := 0;
    tx_fee := numToString (rt_fee data / satoshi)%float;
    tx_feeUSD := 0;
    tx_status := if JS.truthy (rt_block_height data) then Confirmed else Pending;
    tx_inputs := inputs;
    tx_outputs := outputs
  |}.

(** Whatever goes wrong inside the [try] is logged, and the function
    throws its own error after it. *)
Definition getBitcoinTransaction (txHash : string) : M CryptoTransaction :=
  r ← fetchRawTx txHash;
  match match r with Ok data => transactionOf txHash data | _ => None end with
  | Some tx => mret tx
  | None => throw "Failed to fetch Bitcoin transaction"
  end.

Definition getEthereumTransaction (txHash : string) : M CryptoTransaction :=
  throw "Ethereum transaction lookup not fully implemented - requires API key".

(** Modelled from the spec: [getCachedData] on a [tx_details_] key. *)
Definition cachedDetails (key : string) (dw : DetailsWorld) : option CryptoTransaction :=
  match detailsCache dw !! key with
  | Some (v, expiry) => if (dateNow (tick (world dw)) <? expiry)%Z then Some v else None
  | None => None
  end.

(** Modelled from the spec: [cacheAPIResponse] on a [tx_details_] key. *)
Definition cacheDetails (key : string) (data : CryptoTransaction) (ttl : Z)
  (dw : DetailsWorld) : DetailsWorld :=
  {| world := world dw;
     detailsCache :=
       <[key := (data, (dateNow (tick (world dw)) + ttl * 60000)%Z)]> (detailsCache dw) |}.

Definition getTransactionDetails (txHash network : string) : MD (option CryptoTransaction) :=
  fun dw =>
    let cacheKey := "tx_details_" +:+ network +:+ "_" +:+ txHash in
    match cachedDetails cacheKey dw with
    | Some c => (Normal (Some c), dw)
    | None =>
        match inWorld
                (if String.eqb network "bitcoin" then
                   tx ← getBitcoinTransaction txHash; mret (Some tx)
                 else if String.eqb network "ethereum" then
                   tx ← getEthereumTransaction txHash; mret (Some tx)
                 else mret None) dw with
        | (Normal (Some tx), dw') => (Normal (Some tx), cacheDetails cacheKey tx CACHE_TTL dw')
        | (Normal None, dw') => (Normal None, dw')
        | (Throw _, dw') => (Normal None, dw')
        end
    end.

End Details.

(* ===================================================================== *)
(** ** CryptoInvestigator.tsx: the search handler *)
(* ===================================================================== *)

Inductive SearchType := WalletSearch | TransactionSearch.

Record SearchOptions := {
  so_fetchTransactions : bool;
  so_buildGraph : bool;
  so_graphDepth : Z
}.

(** A call of [toast.error], [toast.info] or [toast.success]. *)
Inductive Toast :=
  | ToastError (message : string)
  | ToastInfo (message : string)
  | ToastSuccess (message : string).

Definition optionsOf (o : SearchOptions) : InvestigationOptions :=
  {| fetchTransactions := Some (so_fetchTransactions o);
     buildGraph := Some (so_buildGraph o);
     graphDepth := Some (so_graphDepth o) |}.

(** The [useState] cells of the component that [handleSearch] writes;
    [searchQuery], [searchType] and [searchOptions] are only read. *)
Record ComponentState := {
  isSearching : bool;
  investigationResult : option CryptoInvestigationResult;
  transactionResult : option CryptoTransaction
}.

Definition setIsSearching (b : bool) (ui : ComponentState) : ComponentState :=
  {| isSearching := b;
     investigationResult := investigationResult ui;
     transactionResult := transactionResult ui |}.

Definition setInvestigationResult (r : option CryptoInvestigationResult)
  (ui : ComponentState) : ComponentState :=
  {| isSearching := isSearching ui;
     investigationResult := r;
     transactionResult := transactionResult ui |}.

Definition setTransactionResult (t : option CryptoTransaction) (ui : ComponentState)
  : ComponentState :=
  {| isSearching := isSearching ui;
     investigationResult := investigationResult ui;
     transactionResult := t |}.

Section Search.
Context {env : Env} {txProvider : TxProvider}.

(** The handler returns the toasts it shows, in order, and the cells as
    it leaves them.  A blank query returns before any cell is written;
    otherwise the cells are reset, the [try] runs, its [catch] turns an
    exception into a toast, and the [finally] clears [isSearching], also
    after a [return] from inside the [try]. *)
Definition handleSearch (searchQuery : string) (searchType : SearchType)
  (searchOptions : SearchOptions) (ui : ComponentState) : MD (list Toast * ComponentState) :=
  fun dw =>
    if String.eqb (trim searchQuery) "" then
      (Normal ([ToastError "Please enter a wallet address or transaction hash"], ui), dw)
    else
      let ui :=
        setTransactionResult None (setInvestigationResult None (setIsSearching true ui)) in
      let network := detectNetworkFromAddress searchQuery in
      (* what the [try] shows, how it completes, and the state it leaves *)
      let attempt : list Toast * Completion ComponentState * DetailsWorld :=
        if (if searchType is WalletSearch then true else false)
           && negb (String.eqb network "unknown") then
          let started := [ToastInfo ("Investigating " +:+ network +:+ " wallet...")] in
          match inWorld (investigateWallet searchQuery network (optionsOf searchOptions)) dw with
          | (Normal (Some r), dw') =>
              ((started ++ [ToastSuccess "Investigation complete!"])%list,
               Normal (setInvestigationResult (Some r) ui), dw')
          | (Normal None, dw') =>
              ((started ++ [ToastError "Failed to investigate wallet"])%list, Normal ui, dw')
          | (Throw e, dw') => (started, Throw e, dw')
          end
        else if (if searchType is TransactionSearch then true else false) then
          if String.eqb network "unknown" then
            ([ToastError "Could not detect blockchain network"], Normal ui, dw)
          else if negb (isValidTransactionHash searchQuery network) then
            ([ToastError "Invalid transaction hash format"], Normal ui, dw)
          else
            let started := [ToastInfo ("Looking up " +:+ network +:+ " transaction...")] in
            match getTransactionDetails searchQuery network dw with
            | (Normal (Some tx), dw') =>
                ((started ++ [ToastSuccess "Transaction found!"])%list,
                 Normal (setTransactionResult (Some tx) ui), dw')
            | (Normal None, dw') =>
                ((started ++ [ToastError "Transaction not found"])%list, Normal ui, dw')
            | (Throw e, dw') => (started, Throw e, dw')
            end
        else ([ToastError "Invalid address or transaction hash"], Normal ui, dw)
      in
      match attempt with
      | (shown, Normal ui', dw') => (Normal (shown, setIsSearching false ui'), dw')
      | (shown, Throw e, dw') =>
          (Normal ((shown ++ [ToastError ("Search failed: " +:+ e)])%list,
                   setIsSearching false ui), dw')
      end.

End Search.

(* ===================================================================== *)
(** ** More predicates used in the statements *)
(* ===================================================================== *)

(** A string made of white space only. *)
Definition blank (s : string) : bool := forallb isWhiteSpace (list_ascii_of_string s).

(** Every character of a string is a hexadecimal digit. *)
Definition allHex (s : string) : bool :=
  forallb (RegExp.member hexDigit) (list_ascii_of_string s).

(** The cache key of a wallet lookup. *)
Definition walletKey (network address : string) : string :=
  "wallet_info_" +:+ network +:+ "_" +:+ address.

(** The cache key of a transaction lookup. *)
Definition detailsKey (network txHash : string) : string :=
  "tx_details_" +:+ network +:+ "_" +:+ txHash.

(** Nothing is cached. *)
Definition emptyDetails : DetailsWorld := {| world := emptyWorld; detailsCache := ∅ |}.

(** A [/rawtx] endpoint that knows the transaction [t1], a payment of
    one coin from [A] to [B], and reports it under a hash of its own. *)
Definition oneTransaction : TxProvider :=
  {| blockchainInfoRawTx := fun _ txHash =>
       if String.eqb txHash "t1"
       then Ok (Ledger.rawTx "another" 10 ["A"] ["B"] 100000000)
       else NotOk |}.

(** The options the investigator starts with. *)
Definition initialOptions : SearchOptions :=
  {| so_fetchTransactions := true; so_buildGraph := true; so_graphDepth := 2 |}.

(** The cells of the component after a search that found nothing: no
    search is running and no result is on display. *)
Definition idle : ComponentState :=
  {| isSearching := false; investigationResult := None; transactionResult := None |}.

(** The cells with a transaction on display from an earlier search. *)
Definition shown : ComponentState :=
  {| isSearching := false; investigationResult := None;
     transactionResult := Some (Ledger.transfer "0" "1") |}.

(** The cache does not answer a lookup of the wallet: there is no entry
    under its key, or the entry has expired. *)
Definition uncachedWallet {env : Env} (network address : string) (w : World) : Prop :=
  match walletCache w !! walletKey network address with
  | Some (_, expiry) => (expiry <= dateNow (tick w))%Z
  | None => True
  end.

(** [a] is [k] edges away from [root], following edges from source to
    target. *)
Inductive Within (graphEdges : list GraphEdge) (root : string) : nat -> string -> Prop :=
  | within_root : Within graphEdges root 0 root
  | within_step k e :
      e ∈ graphEdges -> Within graphEdges root k (e_source e) ->
      Within graphEdges root (S k) (e_target e).

(** An edge as the search makes them: between two different addresses,
    not to the placeholder, counting at least one transaction, named
    after its two ends. *)
Definition properEdge (e : GraphEdge) : Prop :=
  e_source e <> e_target e /\ e_target e <> "Unknown" /\ 1 <= e_transactions e /\
  e_id e = e_source e +:+ "-" +:+ e_target e /\ e_direction e = Bidirectional.

(** A connection as an expansion of [address] finds them. *)
Definition properEntry (address : string) (entry : string * Connection) : Prop :=
  fst entry <> address /\ fst entry <> "Unknown" /\ 1 <= count (snd entry).

(** The shape of the search state, whether the root was found or not:
    no address is a node twice, the visited addresses are the nodes,
    every node and every queued address is within [depth] edges of the
    root, and every edge is proper. *)
Definition Shape (root : string) (depth : Z) (st : BfsState) : Prop :=
  NoDup (addresses (st_nodes st)) /\
  (forall a, a ∈ st_visited st <-> a ∈ addresses (st_nodes st)) /\
  (forall n, n ∈ st_nodes st ->
     n_id n = n_address n /\
     exists k, (Z.of_nat k <= Z.max 0 depth)%Z /\
               Within (st_edges st) root k (n_address n)) /\
  (forall a l, (a, l) ∈ st_queue st ->
     (Z.of_nat l <= Z.max 0 depth)%Z /\ Within (st_edges st) root l a) /\
  (forall e, e ∈ st_edges st -> properEdge e).

(** A world in which ethplorer knows every address, with a balance of 5
    at a rate of 2 and three transactions, and no other provider
    answers. *)
Definition etherWorld : Env :=
  {|
    blockchainInfoRawAddr := fun _ _ _ => NotOk;
    blockchairAddress := fun _ _ => NotOk;
    ethplorerAddressInfo := fun _ _ =>
      Ok {| eth_balance := 5; eth_rate := 2; eth_countTxs := 3 |};
    dateNow := fun _ => 1000%Z;
    numToString := Ledger.printNumber;
    parseFloat := Ledger.readNumber;
    toISOString := Ledger.printDate;
    getTime := Ledger.readDate;
    cos := fun a => (1 - a * a / 2)%float;
    sin := fun a => (a - a * a * a / 6)%float
  |}.

(** The graph without expansion: the root node when the root wallet was
    found, and nothing else. *)
Definition rootOnly (rootAddress : string) (rootWallet : option CryptoWalletInfo)
  : WalletGraph :=
  {| nodes := match rootWallet with
              | Some info => [makeNode rootAddress info]
              | None => []
              end;
     edges := []; clusters := [] |}.

(** From every state that satisfies [P] the computation completes
    normally, in a state that satisfies [P], with a result satisfying
    [Q]. *)
Definition keeps {A} (P : World -> Prop) (m : M A) (Q : A -> Prop) : Prop :=
  forall w, P w -> exists a w', m w = (Normal a, w') /\ P w' /\ Q a.

(** A node as the legend shows a harmless wallet: no risk, safe, and
    neither an exchange nor a mixer. *)
Definition safeNode (n : GraphNode) : Prop :=
  n_riskScore n = 0%float /\ n_riskLevel n = Safe /\ n_type n = TWallet.

(** The threat intelligence of a wallet that is no threat. *)
Definition noThreat : ThreatIntel :=
  {| isKnownThreat := false; threatType := []; associatedCampaigns := [];
     sanctioned := false; abuseReports := 0; details := [] |}.


(** The ids of the placed nodes, in order. *)
Definition placedIds (l : list NodeWithPosition) : list string :=
  (fun n => n_id (np_node n)) <$> l.

(** An edge both ends of which are among the ids [ids]. *)
Definition joins (ids : list string) (e : GraphEdge) : Prop :=
  e_source e ∈ ids /\ e_target e ∈ ids.

(** A graph without its dangling edges, those with an end that is not
    the id of a node. *)
Definition withoutDangling (g : WalletGraph) : WalletGraph :=
  {| nodes := nodes g;
     edges := filter (joins (n_id <$> nodes g)) (edges g);
     clusters := clusters g |}.

(** A non-empty string without white space and without [@]. *)
Definition plain (s : string) : Prop :=
  s <> "" /\
  forallb (fun c => negb (isWhiteSpace c) && negb (Ascii.eqb c "@"))
          (list_ascii_of_string s) = true.

(** The last two characters of a string. *)
Definition lastTwo (s : string) : string :=
  String.substring (String.length s - 2) 2 s.

(** [A] made two payments, and the provider reports the older one
    without a time. *)
Definition undated (a : string) : list RawTx :=
  if String.eqb a "A"
  then [Ledger.rawTx "t2" 20 ["A"] ["B"] 100000000;
        Ledger.rawTx "t1" nan ["A"] ["C"] 100000000]
  else [].

Definition undatedWorld : Env := Ledger.ledger undated Ledger.up Ledger.up.

(** The fields [getBitcoinWalletTransactions] fills with constants. *)
Definition unpriced (tx : CryptoTransaction) : Prop :=
  tx_confirmations tx = 0%float /\ tx_valueUSD tx = 0%float /\ tx_feeUSD tx = 0%float /\
  tx_status tx <> Failed.


(* ===================================================================== *)
(** * Properties *)
(* ===================================================================== *)

(** ** Running the monad *)

Section MonadFacts.
Context {env : Env}.

Lemma always_ret {A} (a : A) (Q : A -> Prop) : Q a -> always (mret a) Q.
Proof. intros HQ w. exists a, w. split; [reflexivity | exact HQ]. Qed.

Lemma always_bind {A B} (m : M A) (f : A -> M B) (P : A -> Prop) (Q : B -> Prop) :
  always m P -> (forall a, P a -> always (f a) Q) -> always (m ≫= f) Q.
Proof.
  intros Hm Hf w. destruct (Hm w) as (a & w1 & E & HP).
  destruct (Hf a HP w1) as (b & w2 & E2 & HQ).
  exists b, w2. split; [| exact HQ].
  unfold mbind, M_bind. rewrite E. exact E2.
Qed.

Lemma always_mono {A} (m : M A) (P Q : A -> Prop) :
  always m P -> (forall a, P a -> Q a) -> always m Q.
Proof.
  intros Hm HPQ w. destruct (Hm w) as (a & w1 & E & HP). exists a, w1. auto.
Qed.

Lemma bind_normal {A B} (m : M A) (f : A -> M B) w a w1 :
  m w = (Normal a, w1) -> (m ≫= f) w = f a w1.
Proof. intros E. unfold mbind, M_bind. rewrite E. reflexivity. Qed.

Lemma bind_throw {A B} (m : M A) (f : A -> M B) w e w1 :
  m w = (Throw e, w1) -> (m ≫= f) w = (Throw e, w1).
Proof. intros E. unfold mbind, M_bind. rewrite E. reflexivity. Qed.

(** A sequence that completed normally: so did its first part, and the
    rest ran from where the first part left. *)
Lemma bind_inv {A B} (m : M A) (f : A -> M B) w b w' :
  (m ≫= f) w = (Normal b, w') ->
  exists a w1, m w = (Normal a, w1) /\ f a w1 = (Normal b, w').
Proof.
  unfold mbind, M_bind. destruct (m w) as [[a | e] w1]; [eauto | discriminate].
Qed.

Lemma tryCatch_normal {A} (body : M A) handler w a w1 :
  body w = (Normal a, w1) -> tryCatch body handler w = (Normal a, w1).
Proof. intros E. unfold tryCatch. rewrite E. reflexivity. Qed.

Lemma tryCatch_throw {A} (body : M A) handler w e w1 :
  body w = (Throw e, w1) -> tryCatch body handler w = handler e w1.
Proof. intros E. unfold tryCatch. rewrite E. reflexivity. Qed.

Lemma tryCatch_total {A} (body : M A) (d : A) :
  always (tryCatch body (fun _ => mret d)) (fun _ => True).
Proof.
  intros w. unfold tryCatch. destruct (body w) as [[a | e] w1]; eauto.
Qed.

Lemma getWalletInfo_normal address network :
  always (getWalletInfo address network) (fun _ => True).
Proof.
  intros w. unfold getWalletInfo.
  erewrite bind_normal by reflexivity.
  match goal with |- context [match ?c with Some _ => _ | None => _ end] => destruct c end.
  - eexists _, _. split; [reflexivity | exact I].
  - apply tryCatch_total.
Qed.

Lemma getWalletTransactions_normal address network limit :
  always (getWalletTransactions address network limit) (fun _ => True).
Proof.
  intros w. unfold getWalletTransactions.
  erewrite bind_normal by reflexivity.
  match goal with |- context [match ?c with Some _ => _ | None => _ end] => destruct c end.
  - eexists _, _. split; [reflexivity | exact I].
  - apply tryCatch_total.
Qed.

End MonadFacts.

(** ** The search loop *)

Section BfsFacts.
Context {env : Env}.
Variable network : string.

Lemma addConnection_grew address level st entry :
  always (addConnection network address level st entry)
         (fun st' => exists k, k <= 1 /\ grew k st st').
Proof.
  destruct entry as [connAddr data]. unfold addConnection.
  eapply always_bind with (P := fun st1 => exists k, k <= 1 /\ grew k st st1).
  - case_bool_decide.
    + apply always_ret. exists 0. unfold grew. lia.
    + eapply always_bind; [apply getWalletInfo_normal |].
      intros [info |] _; apply always_ret.
      * exists 1. unfold grew. cbn. rewrite !length_app. cbn. lia.
      * exists 0. unfold grew. lia.
  - intros st1 (k & Hk & Hn & Hq). apply always_ret. exists k. unfold grew. cbn. auto.
Qed.

Lemma forEach_grew address level l : forall st,
  always (forEachM (addConnection network address level) st l)
         (fun st' => exists k, k <= length l /\ grew k st st').
Proof.
  induction l as [| entry l IH]; intros st; cbn [forEachM].
  - apply always_ret. exists 0. unfold grew. cbn. lia.
  - eapply always_bind; [apply addConnection_grew |].
    intros st1 (k1 & Hk1 & Hn1 & Hq1).
    eapply always_mono; [apply IH |].
    intros st2 (k2 & Hk2 & Hn2 & Hq2). exists (k1 + k2). unfold grew. cbn. lia.
Qed.

Lemma bfsStep_grew depth st :
  0 < length (st_queue st) ->
  always (bfsStep network depth st)
         (fun st' => exists k, k <= 10 /\
            length (st_nodes st') = length (st_nodes st) + k /\
            S (length (st_queue st')) = length (st_queue st) + k).
Proof.
  intros Hq. unfold bfsStep. destruct (st_queue st) as [| [address level] rest] eqn:E.
  - cbn in Hq. lia.
  - case_bool_decide.
    + apply always_ret. exists 0. cbn. lia.
    + eapply always_bind; [apply getWalletTransactions_normal |].
      intros txs _. eapply always_mono; [apply forEach_grew |].
      intros st' (k & Hk & Hn & Hq'). cbn in Hn, Hq'. exists k.
      rewrite length_take in Hk. cbn. lia.
Qed.

Lemma loopGuard_true maxNodes st :
  loopGuard maxNodes st = true <->
  0 < length (st_queue st) /\ (Z.of_nat (length (st_nodes st)) < maxNodes)%Z.
Proof.
  unfold loopGuard. rewrite andb_true_iff, !bool_decide_eq_true. reflexivity.
Qed.

Lemma loopGuard_false maxNodes st :
  loopGuard maxNodes st = false <->
  st_queue st = [] \/ (maxNodes <= Z.of_nat (length (st_nodes st)))%Z.
Proof.
  unfold loopGuard. rewrite andb_false_iff, !bool_decide_eq_false.
  destruct (st_queue st); cbn; split; intros [H | H]; auto; try lia; try discriminate.
Qed.

(** The loop has stopped by itself when the fuel covers [loopFuel]. *)
Lemma bfsLoop_exits depth maxNodes : forall fuel st,
  loopFuel maxNodes st <= fuel ->
  always (bfsLoop fuel network depth maxNodes st)
         (fun st' => loopGuard maxNodes st' = false).
Proof.
  induction fuel as [| fuel IH]; intros st Hfuel; cbn [bfsLoop].
  - apply always_ret. apply loopGuard_false. unfold loopFuel in Hfuel.
    left. destruct (st_queue st); [reflexivity | cbn in Hfuel; lia].
  - destruct (loopGuard maxNodes st) eqn:G; [| apply always_ret; exact G].
    apply loopGuard_true in G. destruct G as [Hq Hn].
    eapply always_bind; [apply (bfsStep_grew depth st Hq) |].
    intros st' (k & Hk & Hn' & Hq'). apply IH.
    unfold loopFuel in *. lia.
Qed.

(** A property kept by every round is kept by the loop. *)
Lemma bfsLoop_invariant depth maxNodes (I : BfsState -> Prop) :
  (forall st, I st -> loopGuard maxNodes st = true -> always (bfsStep network depth st) I) ->
  forall fuel st, I st -> always (bfsLoop fuel network depth maxNodes st) I.
Proof.
  intros Hstep. induction fuel as [| fuel IH]; intros st HI; cbn [bfsLoop].
  - apply always_ret. exact HI.
  - destruct (loopGuard maxNodes st) eqn:G; [| apply always_ret; exact HI].
    eapply always_bind; [apply (Hstep st HI G) |]. intros st' HI'. apply IH. exact HI'.
Qed.

End BfsFacts.

(** ** Edges and nodes *)

(** The trace of a [forEach] is its run: it starts in the state the
    loop starts in, it has one visit for each element, in order, and the
    body run from a visit gives the state of the next visit, or the
    state the loop ends in after the last. *)
Lemma forEachTrace_run {A St} (f : St -> A -> M St) (l : list A) : forall s w s' w',
  forEachM f s l w = (Normal s', w') ->
  length (forEachTrace f s l w) = length l /\
  match forEachTrace f s l w with
  | [] => s' = s /\ w' = w
  | (s0, _, w0) :: _ => s0 = s /\ w0 = w
  end /\
  forall i si ai wi,
    forEachTrace f s l w !! i = Some (si, ai, wi) ->
    l !! i = Some ai /\
    exists sj wj,
      f si ai wi = (Normal sj, wj) /\
      match forEachTrace f s l w !! S i with
      | Some (sk, _, wk) => sk = sj /\ wk = wj
      | None => s' = sj /\ w' = wj
      end.
Proof.
  induction l as [| a l IH]; intros s w s' w' E; cbn [forEachM] in E.
  - inversion E; subst. cbn. split; [reflexivity |]. split; [auto |].
    intros i si ai wi Hi. rewrite lookup_nil in Hi. discriminate Hi.
  - apply bind_inv in E. destruct E as (s1 & w1 & E1 & E2).
    destruct (IH _ _ _ _ E2) as (Hlen & Hhead & Hstep).
    cbn [forEachTrace]. rewrite E1. cbn [length]. split; [rewrite Hlen; reflexivity |].
    split; [auto |].
    intros [| i] si ai wi Hi; cbn in Hi.
    + inversion Hi; subst. split; [reflexivity |]. exists s1, w1. split; [exact E1 |].
      cbn. destruct (forEachTrace f s1 l w1) as [| [[s0 a0] w0] rest]; cbn.
      * destruct Hhead as [-> ->]. auto.
      * destruct Hhead as [-> ->]. auto.
    + destruct (Hstep i si ai wi Hi) as (Hl & sj & wj & Ej & Hnext).
      split; [exact Hl |]. exists sj, wj. split; [exact Ej | exact Hnext].
Qed.

Section GraphInvariant.
Context {env : Env}.
Variable network : string.
Variable unfound : list string.

Lemma concat_missed_cons visit trace :
  concat (missed network <$> visit :: trace) =
  (missed network visit ++ concat (missed network <$> trace))%list.
Proof. reflexivity. Qed.

(** A state with one more edge, from [address] to a counterpart that is
    a node, or whose lookup has just failed. *)
Lemma graphInv_edge address connAddr data st failed just :
  GraphInv unfound st failed ->
  address ∈ addresses (st_nodes st) \/ address ∈ unfound ->
  (forall a, a ∈ just -> a = connAddr) ->
  connAddr ∈ addresses (st_nodes st) \/ connAddr ∈ just ->
  GraphInv unfound
           {| st_nodes := st_nodes st;
              st_edges := st_edges st ++ [makeEdge address connAddr data];
              st_visited := st_visited st;
              st_queue := st_queue st |} (failed ++ just).
Proof.
  intros (Hv & Hq & He & Hf) Ha Hjust Hc. unfold GraphInv. cbn.
  split; [exact Hv |]. split; [exact Hq |]. split.
  - intros e Hin. apply elem_of_app in Hin. destruct Hin as [Hin | Hin].
    + destruct (He e Hin) as [Hs Ht]. split; [exact Hs |].
      destruct Ht as [Ht | Ht]; [left; exact Ht | right; apply elem_of_app; left; exact Ht].
    + apply list_elem_of_singleton in Hin. subst e. cbn. split; [exact Ha |].
      destruct Hc as [Hc | Hc]; [left; exact Hc | right; apply elem_of_app; right; exact Hc].
  - intros a Hin. apply elem_of_app in Hin. destruct Hin as [Hin | Hin].
    + destruct (Hf a Hin) as (e & Hin' & Ht). exists e.
      split; [apply elem_of_app; left; exact Hin' | exact Ht].
    + apply Hjust in Hin. subst a. eexists.
      split; [apply elem_of_app; right; apply list_elem_of_singleton; reflexivity |].
      reflexivity.
Qed.

(** A state with one more node, visited and queued. *)
Lemma graphInv_node connAddr info level st failed :
  GraphInv unfound st failed ->
  GraphInv unfound
           {| st_nodes := st_nodes st ++ [makeNode connAddr info];
              st_edges := st_edges st;
              st_visited := {[connAddr]} ∪ st_visited st;
              st_queue := st_queue st ++ [(connAddr, level)] |} failed.
Proof.
  intros (Hv & Hq & He & Hf). unfold GraphInv, addresses in *. cbn. rewrite !fmap_app. cbn.
  split; [| split; [| split]].
  - intros a. rewrite elem_of_union, elem_of_singleton, elem_of_app,
      list_elem_of_singleton, Hv. tauto.
  - intros a l Hin. apply elem_of_app in Hin. destruct Hin as [Hin | Hin].
    + destruct (Hq a l Hin) as [H | H]; [left; apply elem_of_app; left; exact H | right; exact H].
    + apply list_elem_of_singleton in Hin. inversion Hin; subst.
      left. apply elem_of_app. right. apply list_elem_of_singleton. reflexivity.
  - intros e Hin. destruct (He e Hin) as [Hs Ht]. split.
    + destruct Hs as [Hs | Hs]; [left; apply elem_of_app; left; exact Hs | right; exact Hs].
    + destruct Ht as [Ht | Ht]; [left; apply elem_of_app; left; exact Ht | right; exact Ht].
  - exact Hf.
Qed.

Lemma addConnection_inv address level st entry w st' w' failed :
  GraphInv unfound st failed ->
  address ∈ addresses (st_nodes st) \/ address ∈ unfound ->
  addConnection network address level st entry w = (Normal st', w') ->
  GraphInv unfound st' (failed ++ missed network (st, entry, w)) /\
  (address ∈ addresses (st_nodes st') \/ address ∈ unfound).
Proof.
  intros HI Ha. destruct entry as [connAddr data]. unfold addConnection, missed. cbn [fst].
  pose proof HI as (Hv & _).
  case_bool_decide as Hvis.
  - erewrite bind_normal by reflexivity. intros E. inversion E; subst st' w'. clear E.
    split; [| exact Ha].
    apply graphInv_edge; [exact HI | exact Ha | |].
    + intros a Hin. apply elem_of_nil in Hin. contradiction.
    + left. apply Hv. exact Hvis.
  - destruct (getWalletInfo_normal connAddr network w) as (r & w1 & Er & _). rewrite Er.
    destruct r as [info |];
      (erewrite bind_normal by (erewrite bind_normal by exact Er; reflexivity));
      intros E; inversion E; subst st' w'; clear E.
    + pose proof (graphInv_edge address connAddr data _ failed []
                    (graphInv_node connAddr info (level + 1) st failed HI)) as Hedge.
      cbn [st_nodes st_edges st_visited st_queue] in Hedge.
      assert (Ha' : address ∈ addresses (st_nodes st ++ [makeNode connAddr info]) \/
                    address ∈ unfound).
      { unfold addresses. rewrite fmap_app.
        destruct Ha as [Ha | Ha]; [left; apply elem_of_app; left; exact Ha | right; exact Ha]. }
      split; [| exact Ha'].
      apply Hedge; [exact Ha' | |].
      * intros a Hin. apply elem_of_nil in Hin. contradiction.
      * left. unfold addresses. rewrite fmap_app. apply elem_of_app. right.
        apply list_elem_of_singleton. reflexivity.
    + split; [| exact Ha].
      apply graphInv_edge; [exact HI | exact Ha | |].
      * intros a Hin. apply list_elem_of_singleton in Hin. exact Hin.
      * right. apply list_elem_of_singleton. reflexivity.
Qed.

Lemma forEach_inv address level l : forall st w st' w' failed,
  GraphInv unfound st failed ->
  address ∈ addresses (st_nodes st) \/ address ∈ unfound ->
  forEachM (addConnection network address level) st l w = (Normal st', w') ->
  GraphInv unfound st'
    (failed ++ concat (missed network <$>
                         forEachTrace (addConnection network address level) st l w)).
Proof.
  induction l as [| entry l IH]; intros st w st' w' failed HI Ha E; cbn [forEachM] in E.
  - inversion E; subst. cbn. rewrite app_nil_r. exact HI.
  - apply bind_inv in E. destruct E as (st1 & w1 & E1 & E2).
    cbn [forEachTrace]. rewrite E1, concat_missed_cons, app_assoc.
    destruct (addConnection_inv address level st entry w st1 w1 failed HI Ha E1) as [HI1 Ha1].
    eapply IH; eassumption.
Qed.

Lemma bfsStep_inv depth st w st' w' failed :
  GraphInv unfound st failed ->
  bfsStep network depth st w = (Normal st', w') ->
  GraphInv unfound st' (failed ++ roundMisses network depth st w).
Proof.
  intros HI. pose proof HI as (Hv & Hq & He & Hf). unfold bfsStep, roundMisses.
  destruct (st_queue st) as [| [address level] rest] eqn:Eq.
  - intros E. inversion E; subst. rewrite app_nil_r. exact HI.
  - assert (HI0 : GraphInv unfound
                    {| st_nodes := st_nodes st; st_edges := st_edges st;
                       st_visited := st_visited st; st_queue := rest |} failed).
    { unfold GraphInv. cbn. split; [exact Hv |]. split; [| split; assumption].
      intros a l Hin. apply (Hq a l). apply elem_of_cons. right. exact Hin. }
    case_bool_decide.
    + intros E. inversion E; subst. rewrite app_nil_r. exact HI0.
    + intros E. apply bind_inv in E. destruct E as (txs & w1 & Etx & E). rewrite Etx.
      eapply forEach_inv; [exact HI0 | | exact E]. cbn.
      apply (Hq address level). apply elem_of_cons. left. reflexivity.
Qed.

Lemma bfsLoop_inv depth maxNodes : forall fuel st w st' w' failed,
  GraphInv unfound st failed ->
  bfsLoop fuel network depth maxNodes st w = (Normal st', w') ->
  GraphInv unfound st' (failed ++ loopMisses fuel network depth maxNodes st w).
Proof.
  induction fuel as [| fuel IH]; intros st w st' w' failed HI E;
    cbn [bfsLoop] in E; cbn [loopMisses].
  - inversion E; subst. rewrite app_nil_r. exact HI.
  - destruct (loopGuard maxNodes st).
    + apply bind_inv in E. destruct E as (st1 & w1 & E1 & E2). rewrite E1, app_assoc.
      eapply IH; [| exact E2]. eapply bfsStep_inv; eassumption.
    + inversion E; subst. rewrite app_nil_r. exact HI.
Qed.

End GraphInvariant.

Lemma initialState_inv rootAddress rootWallet :
  GraphInv (unfoundRoot rootAddress rootWallet) (initialState rootAddress rootWallet) [].
Proof.
  unfold GraphInv, initialState, addresses, unfoundRoot.
  destruct rootWallet as [info |]; cbn; (split; [| split; [| split]]).
  - intros a. rewrite elem_of_singleton, list_elem_of_singleton. reflexivity.
  - intros a l Hin. apply list_elem_of_singleton in Hin. inversion Hin; subst.
    left. apply list_elem_of_singleton. reflexivity.
  - intros e Hin. apply elem_of_nil in Hin. contradiction.
  - intros a Hin. apply elem_of_nil in Hin. contradiction.
  - intros a. rewrite elem_of_empty. split; [contradiction |].
    intros Hin. apply elem_of_nil in Hin. contradiction.
  - intros a l Hin. apply list_elem_of_singleton in Hin. inversion Hin; subst.
    right. apply list_elem_of_singleton. reflexivity.
  - intros e Hin. apply elem_of_nil in Hin. contradiction.
  - intros a Hin. apply elem_of_nil in Hin. contradiction.
Qed.
(* ===================================================================== *)
(** ** The connections of one expansion *)
(* ===================================================================== *)

Section Connections.
Context {env : Env}.

Lemma setAdd_NoDup s a : NoDup s -> NoDup (setAdd s a).
Proof.
  intros H. unfold setAdd. case_bool_decide as Hin; [exact H |].
  apply NoDup_app. split; [exact H |]. split.
  - intros b Hb Hb'. apply list_elem_of_singleton in Hb'. subst. contradiction.
  - apply NoDup_singleton.
Qed.

Lemma connectedAddresses_NoDup address tx : NoDup (connectedAddresses address tx).
Proof.
  unfold connectedAddresses.
  assert (Hfold : forall (A : Type) (addr : A -> string) (keep : string -> bool) (l : list A) s,
             NoDup s ->
             NoDup (foldl (fun s i => if keep (addr i) then setAdd s (addr i) else s) s l)).
  { intros A addr keep l. induction l as [| i l IH]; intros s Hs; cbn; [exact Hs |].
    apply IH. destruct (keep (addr i)); [apply setAdd_NoDup |]; exact Hs. }
  set (keep := fun a : string => negb (String.eqb a address) && negb (String.eqb a "Unknown")).
  apply (Hfold _ out_address keep). apply (Hfold _ in_address keep). constructor.
Qed.

Lemma mapGet_mapSet_eq {V} (m : list (string * V)) k v : mapGet (mapSet m k v) k = Some v.
Proof.
  unfold mapGet. induction m as [| [k' v'] m IH]; cbn.
  - rewrite String.eqb_refl. reflexivity.
  - destruct (String.eqb k' k) eqn:E; cbn; rewrite E; [reflexivity | exact IH].
Qed.

Lemma mapGet_mapSet_ne {V} (m : list (string * V)) k v c :
  k <> c -> mapGet (mapSet m k v) c = mapGet m c.
Proof.
  intros Hne. unfold mapGet. induction m as [| [k' v'] m IH]; cbn.
  - apply String.eqb_neq in Hne. rewrite Hne. reflexivity.
  - destruct (String.eqb k' k) eqn:E; cbn.
    + apply String.eqb_eq in E. subst k'. apply String.eqb_neq in Hne. rewrite Hne. reflexivity.
    + destruct (String.eqb k' c); [reflexivity | exact IH].
Qed.

Lemma mapSet_keys_elem {V} (m : list (string * V)) k v a :
  a ∈ fst <$> mapSet m k v -> a = k \/ a ∈ fst <$> m.
Proof.
  induction m as [| [k' v'] m IH]; cbn; intros Ha.
  - apply list_elem_of_singleton in Ha. auto.
  - destruct (String.eqb k' k); cbn in Ha.
    + right. exact Ha.
    + apply elem_of_cons in Ha. destruct Ha as [-> | Ha].
      * right. apply elem_of_cons. auto.
      * destruct (IH Ha) as [-> | Hin]; [auto | right; apply elem_of_cons; auto].
Qed.

Lemma mapSet_keys_NoDup {V} (m : list (string * V)) k v :
  NoDup (fst <$> m) -> NoDup (fst <$> mapSet m k v).
Proof.
  induction m as [| [k' v'] m IH]; cbn; intros Hnd.
  - apply NoDup_singleton.
  - apply NoDup_cons in Hnd. destruct Hnd as [Hnotin Hnd].
    destruct (String.eqb k' k) eqn:E; cbn.
    + apply NoDup_cons. auto.
    + apply NoDup_cons. split; [| apply IH; exact Hnd].
      intros Hin. apply String.eqb_neq in E.
      destruct (mapSet_keys_elem m k v k' Hin) as [-> | Hin'];
        [apply E; reflexivity | contradiction].
Qed.

Lemma mapSet_values {V} (P : V -> Prop) (m : list (string * V)) k v :
  P v -> Forall (fun kv => P (snd kv)) m -> Forall (fun kv => P (snd kv)) (mapSet m k v).
Proof.
  intros Hv. induction 1 as [| [k' v'] m Hkv Hm IH]; cbn.
  - constructor; [exact Hv | constructor].
  - destruct (String.eqb k' k); constructor; auto.
Qed.

Lemma mapGet_elem {V} (m : list (string * V)) c v :
  NoDup (fst <$> m) -> (c, v) ∈ m -> mapGet m c = Some v.
Proof.
  unfold mapGet. induction m as [| [k' v'] m IH]; cbn; intros Hnd Hin.
  - apply elem_of_nil in Hin. contradiction.
  - apply NoDup_cons in Hnd. destruct Hnd as [Hnotin Hnd].
    apply elem_of_cons in Hin. destruct Hin as [Heq | Hin].
    + inversion Heq; subst. rewrite String.eqb_refl. reflexivity.
    + destruct (String.eqb k' c) eqn:E; [| apply IH; assumption].
      apply String.eqb_eq in E. subst k'. exfalso. apply Hnotin.
      apply list_elem_of_fmap. exists (c, v). auto.
Qed.

Lemma trackConnection_entry tx connections k c :
  entryOf (trackConnection tx connections k) c =
  if decide (k = c) then bump (entryOf connections c) tx else entryOf connections c.
Proof.
  unfold trackConnection, entryOf. case_decide as Hk.
  - subst k. rewrite mapGet_mapSet_eq. reflexivity.
  - rewrite mapGet_mapSet_ne by exact Hk. reflexivity.
Qed.

Lemma track_all_entry tx c l : forall connections,
  NoDup l ->
  entryOf (foldl (trackConnection tx) connections l) c =
  if decide (c ∈ l) then bump (entryOf connections c) tx else entryOf connections c.
Proof.
  induction l as [| k l IH]; intros connections Hnd; cbn [foldl].
  - case_decide as Hin; [apply elem_of_nil in Hin; contradiction | reflexivity].
  - apply NoDup_cons in Hnd. destruct Hnd as [Hnotin Hnd].
    rewrite (IH _ Hnd), trackConnection_entry.
    destruct (decide (k = c)) as [-> | Hne].
    + rewrite decide_False by exact Hnotin.
      rewrite decide_True by (apply elem_of_cons; auto). reflexivity.
    + destruct (decide (c ∈ l)) as [Hin | Hin].
      * rewrite decide_True by (apply elem_of_cons; auto). reflexivity.
      * rewrite decide_False; [reflexivity |].
        intros H. apply elem_of_cons in H. destruct H as [-> | H]; contradiction.
Qed.

Lemma analyze_entry address c transactions : forall connections,
  entryOf (foldl (fun connections tx =>
                    foldl (trackConnection tx) connections (connectedAddresses address tx))
                 connections transactions) c =
  foldl bump (entryOf connections c) (involving address c transactions).
Proof.
  unfold involving.
  induction transactions as [| tx transactions IH]; intros connections; cbn [foldl];
    [reflexivity |].
  rewrite IH, track_all_entry by apply connectedAddresses_NoDup.
  rewrite filter_cons. destruct (decide (c ∈ connectedAddresses address tx)); reflexivity.
Qed.

Lemma foldl_bump l : forall d,
  foldl bump d l =
  {| count := count d + length l;
     volume := foldl (fun sum tx => (sum + parseFloat (tx_value tx))%float) (volume d) l;
     txHashes := txHashes d ++ (tx_hash <$> l) |}.
Proof.
  induction l as [| tx l IH]; intros d; cbn.
  - destruct d. cbn. rewrite Nat.add_0_r, app_nil_r. reflexivity.
  - rewrite IH. cbn. f_equal; [lia |]. rewrite <- app_assoc. reflexivity.
Qed.

Lemma analyzeConnections_keys address transactions :
  NoDup (fst <$> analyzeConnections address transactions) /\
  Forall (fun kv => 0 < count (snd kv)) (analyzeConnections address transactions).
Proof.
  unfold analyzeConnections.
  assert (H : forall connections : list (string * Connection),
             NoDup (fst <$> connections) /\ Forall (fun kv => 0 < count (snd kv)) connections ->
             NoDup (fst <$> foldl (fun connections tx =>
                                     foldl (trackConnection tx) connections
                                           (connectedAddresses address tx))
                                  connections transactions) /\
             Forall (fun kv => 0 < count (snd kv))
                    (foldl (fun connections tx =>
                              foldl (trackConnection tx) connections
                                    (connectedAddresses address tx))
                           connections transactions)).
  { induction transactions as [| tx transactions IH]; intros connections Hc; cbn; [exact Hc |].
    apply IH. generalize (connectedAddresses address tx). intros l. revert connections Hc.
    induction l as [| k l IHl]; intros connections Hc; cbn; [exact Hc |].
    apply IHl. destruct Hc as [Hnd Hpos]. unfold trackConnection. split.
    - apply mapSet_keys_NoDup. exact Hnd.
    - apply (mapSet_values (fun d => 0 < count d)); [cbn; lia | exact Hpos]. }
  apply H. cbn. split; constructor.
Qed.

(** Within one expansion the transactions with a counterpart are merged
    into one entry: their number, the sum of their values and their
    hashes. *)
Lemma analyzeConnections_spec address transactions c data :
  (c, data) ∈ analyzeConnections address transactions ->
  data = accumulated (involving address c transactions) /\
  involving address c transactions <> [].
Proof.
  intros Hin. destruct (analyzeConnections_keys address transactions) as [Hnd Hpos].
  pose proof (mapGet_elem _ _ _ Hnd Hin) as Hget.
  assert (Hentry : entryOf (analyzeConnections address transactions) c = data)
    by (unfold entryOf; rewrite Hget; reflexivity).
  unfold analyzeConnections in Hentry. rewrite analyze_entry, foldl_bump in Hentry.
  cbn in Hentry. split; [symmetry; exact Hentry |].
  intros Hnil. rewrite Forall_forall in Hpos. specialize (Hpos _ Hin). cbn in Hpos.
  rewrite <- Hentry, Hnil in Hpos. cbn in Hpos. lia.
Qed.

(** A round pushes one edge for each of the connections it is given. *)
Lemma forEach_edges network address level l : forall st w st' w',
  forEachM (addConnection network address level) st l w = (Normal st', w') ->
  st_edges st' =
  (st_edges st ++ ((fun entry => makeEdge address (fst entry) (snd entry)) <$> l))%list.
Proof.
  induction l as [| [connAddr data] l IH]; intros st w st' w' E; cbn [forEachM] in E.
  - inversion E; subst. cbn. rewrite app_nil_r. reflexivity.
  - destruct (addConnection_grew network address level st (connAddr, data) w)
      as (st1 & w1 & E1 & _).
    erewrite bind_normal in E by exact E1. rewrite (IH _ _ _ _ E).
    assert (H1 : st_edges st1 = (st_edges st ++ [makeEdge address connAddr data])%list).
    { clear E IH. unfold addConnection in E1.
      destruct (bool_decide (connAddr ∈ st_visited st)).
      - erewrite bind_normal in E1 by reflexivity. inversion E1; subst. reflexivity.
      - destruct (getWalletInfo_normal connAddr network w) as (r & w2 & E2 & _).
        destruct r;
          (erewrite bind_normal in E1 by (erewrite bind_normal by exact E2; reflexivity));
          inversion E1; subst; reflexivity. }
    rewrite H1. cbn. rewrite <- app_assoc. reflexivity.
Qed.

End Connections.

(* ===================================================================== *)
(** ** buildWalletGraph: the properties of the specification *)
(* ===================================================================== *)

Section GraphTheorems.
Context {env : Env}.

(** The search always comes back with a state in which the loop
    condition is false. *)
Lemma buildWalletGraph_run rootAddress network depth maxNodes w rootWallet w1 :
  getWalletInfo rootAddress network w = (Normal rootWallet, w1) ->
  exists st w',
    bfsLoop (loopFuel maxNodes (initialState rootAddress rootWallet)) network depth maxNodes
            (initialState rootAddress rootWallet) w1 = (Normal st, w') /\
    loopGuard maxNodes st = false /\
    buildWalletGraph rootAddress network depth maxNodes w =
      (Normal {| nodes := st_nodes st; edges := st_edges st; clusters := [] |}, w').
Proof.
  intros E.
  destruct (bfsLoop_exits network depth maxNodes _ (initialState rootAddress rootWallet)
              (Nat.le_refl _) w1) as (st & w' & Eloop & Hexit).
  exists st, w'. split; [exact Eloop | split; [exact Hexit |]].
  unfold buildWalletGraph. erewrite bind_normal by exact E.
  erewrite bind_normal by exact Eloop. reflexivity.
Qed.

Lemma buildWalletGraph_normal rootAddress network depth maxNodes :
  always (buildWalletGraph rootAddress network depth maxNodes) (fun _ => True).
Proof.
  intros w. destruct (getWalletInfo_normal rootAddress network w) as (r & w1 & E & _).
  destruct (buildWalletGraph_run rootAddress network depth maxNodes w r w1 E)
    as (st & w' & _ & _ & Eg).
  eauto.
Qed.

(** C2, as the code has it: every edge of the returned graph starts at
    the address of a node of the graph, or at the root address when the
    lookup of the root itself failed, and ends at the address of a node
    or at a counterpart whose wallet this build asked for and did not
    get; every counterpart whose lookup failed in this build is the end
    of an edge all the same.  So both ends of every edge are nodes when
    the root wallet was found and no lookup failed in the build.  (See
    [edge_to_missing_node] for edges to and from a missing node.) *)
Theorem edge_endpoints rootAddress network depth maxNodes w rootWallet w1 g w' :
  getWalletInfo rootAddress network w = (Normal rootWallet, w1) ->
  buildWalletGraph rootAddress network depth maxNodes w = (Normal g, w') ->
  let failed := failedLookups rootAddress network depth maxNodes w in
  (forall e, e ∈ edges g ->
     (e_source e ∈ addresses (nodes g) \/ rootWallet = None /\ e_source e = rootAddress) /\
     (e_target e ∈ addresses (nodes g) \/ e_target e ∈ failed)) /\
  (forall a, a ∈ failed -> exists e, e ∈ edges g /\ e_target e = a) /\
  (is_Some rootWallet -> failed = [] ->
   forall e, e ∈ edges g ->
     e_source e ∈ addresses (nodes g) /\ e_target e ∈ addresses (nodes g)).
Proof.
  intros E Eg failed.
  destruct (buildWalletGraph_run rootAddress network depth maxNodes w _ w1 E)
    as (st & w2 & Eloop & _ & Eg').
  rewrite Eg in Eg'. inversion Eg'; subst g w2. clear Eg'. cbn [edges nodes] in *.
  pose proof (bfsLoop_inv network _ depth maxNodes _ _ _ _ _ []
                (initialState_inv rootAddress rootWallet) Eloop) as (_ & _ & Hedges & Hfailed).
  assert (Ef : failed =
               loopMisses (loopFuel maxNodes (initialState rootAddress rootWallet))
                          network depth maxNodes (initialState rootAddress rootWallet) w1).
  { unfold failed, failedLookups. rewrite E. reflexivity. }
  cbn [app] in Hedges, Hfailed. rewrite <- Ef in Hedges, Hfailed.
  assert (Hends : forall e, e ∈ st_edges st ->
            (e_source e ∈ addresses (st_nodes st) \/
             rootWallet = None /\ e_source e = rootAddress) /\
            (e_target e ∈ addresses (st_nodes st) \/ e_target e ∈ failed)).
  { intros e He. destruct (Hedges e He) as [Hs Ht]. split; [| exact Ht].
    destruct Hs as [Hs | Hs]; [left; exact Hs | right].
    destruct rootWallet; cbn in Hs; [apply elem_of_nil in Hs; contradiction |].
    apply list_elem_of_singleton in Hs. auto. }
  split; [exact Hends |]. split; [exact Hfailed |].
  intros [info ->] Hnone e He. destruct (Hends e He) as [Hs Ht]. split.
  - destruct Hs as [Hs | [Hs _]]; [exact Hs | discriminate Hs].
  - destruct Ht as [Ht | Ht]; [exact Ht |].
    rewrite Hnone in Ht. apply elem_of_nil in Ht. contradiction.
Qed.

(** C3, as the code has it: [buildWalletGraph] has no fatal condition.
    It returns a graph from every state, and when the lookup of the root
    fails that graph is the one the search builds from the root address
    with no node and no visited address to start with. *)
Theorem buildWalletGraph_never_fails rootAddress network depth maxNodes w :
  exists g w',
    buildWalletGraph rootAddress network depth maxNodes w = (Normal g, w') /\
    forall w1, getWalletInfo rootAddress network w = (Normal None, w1) ->
      exists st,
        bfsLoop (loopFuel maxNodes (initialState rootAddress None)) network depth maxNodes
                (initialState rootAddress None) w1 = (Normal st, w') /\
        loopGuard maxNodes st = false /\
        g = {| nodes := st_nodes st; edges := st_edges st; clusters := [] |}.
Proof.
  destruct (buildWalletGraph_normal rootAddress network depth maxNodes w) as (g & w' & Eg & _).
  exists g, w'. split; [exact Eg |]. intros w1 E.
  destruct (buildWalletGraph_run rootAddress network depth maxNodes w _ w1 E)
    as (st & w2 & Eloop & Hexit & Eg').
  rewrite Eg in Eg'. inversion Eg'; subst. eauto.
Qed.

End GraphTheorems.

(** C1 fails on the code: the node budget is only tested between two
    rounds of the loop, so one round can go past it.  With [maxNodes = 2]
    and a root that pays three addresses, the graph has four nodes. *)
Lemma node_budget_exceeded :
  exists g,
    result (buildWalletGraph (env := Ledger.fanOutWorld) "A" "bitcoin" 2 2 emptyWorld) = Normal g /\
    addresses (nodes g) = ["A"; "B"; "C"; "D"] /\
    (2 < Z.of_nat (length (nodes g)))%Z.
Proof. eexists. split; [vm_compute; reflexivity |]. split; [reflexivity | cbn; lia]. Qed.

(** The claim of C2 is false as stated: with [B]'s wallet out of reach
    the graph has the edge from [A] to [B] although [B] is not a node;
    and with the wallet of the root [A] out of reach it has an edge
    from [A] although [A] is not a node. *)
Lemma edge_to_missing_node :
  (exists g e,
     result (buildWalletGraph (env := Ledger.withoutB) "A" "bitcoin" 2 10 emptyWorld) = Normal g /\
     e ∈ edges g /\ e_target e ∉ addresses (nodes g)) /\
  (exists g e,
     result (buildWalletGraph (env := Ledger.withoutA) "A" "bitcoin" 2 10 emptyWorld) = Normal g /\
     e ∈ edges g /\ e_source e ∉ addresses (nodes g)).
Proof.
  split.
  - eexists _, _. split; [vm_compute; reflexivity |]. split.
    + apply list_elem_of_singleton. reflexivity.
    + cbn. intros H. apply list_elem_of_singleton in H. discriminate H.
  - eexists _, _. split; [vm_compute; reflexivity |]. split.
    + apply list_elem_of_here.
    + cbn. intros H. apply list_elem_of_singleton in H. discriminate H.
Qed.

(** The claim of C3 is false as stated: the lookup of the root [A]
    fails, and [buildWalletGraph] still explores and returns a graph,
    with a node and two edges. *)
Lemma root_failure_still_builds :
  result (getWalletInfo (env := Ledger.withoutA) "A" "bitcoin" emptyWorld) = Normal None /\
  exists g,
    result (buildWalletGraph (env := Ledger.withoutA) "A" "bitcoin" 2 10 emptyWorld) = Normal g /\
    addresses (nodes g) = ["B"] /\
    ends g = [("A", "B"); ("B", "A")].
Proof.
  split; [vm_compute; reflexivity |].
  eexists. split; [vm_compute; reflexivity |]. split; reflexivity.
Qed.

(** C4 fails on the code: there is to be one edge per unordered pair of
    addresses, but when [A] is expanded against [B] and then [B] against
    [A], the one payment between them is recorded as two edges of the
    pair, each counting the transaction once. *)
Lemma reverse_edge_duplicated :
  exists g,
    result (buildWalletGraph (env := Ledger.paymentWorld) "A" "bitcoin" 2 10 emptyWorld) = Normal g /\
    ends g = [("A", "B"); ("B", "A")] /\
    e_transactions <$> edges g = [1; 1].
Proof. eexists. split; [vm_compute; reflexivity |]. split; reflexivity. Qed.

(* ===================================================================== *)
(** ** One edge per ordered pair *)
(* ===================================================================== *)

Section EdgeUniqueness.
Context {env : Env}.
Variable network : string.

Lemma addConnection_expanding address level st connAddr data remaining :
  NoDup (connAddr :: remaining) ->
  Expanding address (connAddr :: remaining) st ->
  always (addConnection network address level st (connAddr, data))
         (Expanding address remaining).
Proof.
  intros Hnd ((He & Hq & Hqv & Hsrc) & Hav & Haq & Hnew).
  apply NoDup_cons in Hnd. destruct Hnd as [Hk Hnd].
  unfold addConnection.
  eapply always_bind with
    (P := fun st1 =>
            st_edges st1 = st_edges st /\
            NoDup (fst <$> st_queue st1) /\
            (forall a, a ∈ fst <$> st_queue st1 -> a ∈ st_visited st1) /\
            (forall a, a ∈ st_visited st -> a ∈ st_visited st1) /\
            (forall a, a ∈ st_visited st -> a ∉ (fst <$> st_queue st) ->
                       a ∉ (fst <$> st_queue st1))).
  - case_bool_decide as Hvis.
    + apply always_ret. tauto.
    + eapply always_bind; [apply getWalletInfo_normal |].
      intros [info |] _; apply always_ret; [| tauto].
      cbn. rewrite fmap_app. cbn. split; [reflexivity |]. split; [| split; [| split]].
      * apply NoDup_app. split; [exact Hq |]. split; [| apply NoDup_singleton].
        intros a Ha Ha'. apply list_elem_of_singleton in Ha'. subst a.
        apply Hvis. apply Hqv. exact Ha.
      * intros a Ha. apply elem_of_app in Ha. apply elem_of_union.
        destruct Ha as [Ha | Ha]; [right; apply Hqv; exact Ha |].
        left. apply list_elem_of_singleton in Ha. subst. apply elem_of_singleton. reflexivity.
      * intros a Ha. apply elem_of_union. right. exact Ha.
      * intros a Ha Hna Hin. apply elem_of_app in Hin. destruct Hin as [Hin | Hin];
          [contradiction |].
        apply list_elem_of_singleton in Hin. subst a. contradiction.
  - intros st1 (Hedges & Hq1 & Hqv1 & Hmono & Hout). apply always_ret.
    unfold Expanding, EdgeInv. cbn. rewrite Hedges, fmap_app. cbn.
    split; [split; [| split; [| split]] | split; [| split]].
    + apply NoDup_app. split; [exact He |]. split; [| apply NoDup_singleton].
      intros p Hp Hp'. apply list_elem_of_singleton in Hp'. subst p.
      apply list_elem_of_fmap in Hp. destruct Hp as (e & Heq & Hin).
      unfold endsOf in Heq. inversion Heq as [[Hs Ht]].
      apply (Hnew e Hin); [symmetry; exact Hs |]. rewrite <- Ht. apply elem_of_cons. auto.
    + exact Hq1.
    + exact Hqv1.
    + intros e Hin. apply elem_of_app in Hin. destruct Hin as [Hin | Hin].
      * destruct (Hsrc e Hin) as [Hv Hnq]. split; [apply Hmono; exact Hv |].
        apply Hout; assumption.
      * apply list_elem_of_singleton in Hin. subst e. cbn.
        split; [apply Hmono; exact Hav | apply Hout; assumption].
    + apply Hmono. exact Hav.
    + apply Hout; assumption.
    + intros e Hin Hs. apply elem_of_app in Hin. destruct Hin as [Hin | Hin].
      * intros Hr. apply (Hnew e Hin Hs). apply elem_of_cons. auto.
      * apply list_elem_of_singleton in Hin. subst e. cbn. exact Hk.
Qed.

Lemma forEach_expanding address level l : forall st,
  NoDup (fst <$> l) ->
  Expanding address (fst <$> l) st ->
  always (forEachM (addConnection network address level) st l) EdgeInv.
Proof.
  induction l as [| [connAddr data] l IH]; intros st Hnd Hexp; cbn [forEachM].
  - apply always_ret. apply Hexp.
  - cbn in Hnd, Hexp. eapply always_bind.
    + apply (addConnection_expanding address level st connAddr data (fst <$> l) Hnd Hexp).
    + intros st1 Hexp1. apply IH; [| exact Hexp1].
      apply NoDup_cons in Hnd. apply Hnd.
Qed.

Lemma bfsStep_edges depth st :
  EdgeInv st -> always (bfsStep network depth st) EdgeInv.
Proof.
  intros (He & Hq & Hqv & Hsrc). unfold bfsStep.
  destruct (st_queue st) as [| [address level] rest] eqn:E.
  - apply always_ret. unfold EdgeInv. rewrite E. auto.
  - cbn in Hq, Hqv, Hsrc. apply NoDup_cons in Hq. destruct Hq as [Harest Hrest].
    assert (Hinv0 : EdgeInv {| st_nodes := st_nodes st; st_edges := st_edges st;
                               st_visited := st_visited st; st_queue := rest |}).
    { unfold EdgeInv. cbn. split; [exact He |]. split; [exact Hrest |]. split.
      - intros a Ha. apply Hqv. apply elem_of_cons. auto.
      - intros e Hin. destruct (Hsrc e Hin) as [Hv Hnq]. split; [exact Hv |].
        intros Hr. apply Hnq. apply elem_of_cons. auto. }
    case_bool_decide.
    + apply always_ret. exact Hinv0.
    + eapply always_bind; [apply getWalletTransactions_normal |].
      intros txs _. apply forEach_expanding.
      * rewrite fmap_take. eapply sublist_NoDup; [| apply sublist_take].
        apply analyzeConnections_keys.
      * split; [exact Hinv0 |]. cbn. split; [| split].
        -- apply Hqv. apply elem_of_cons. auto.
        -- exact Harest.
        -- intros e Hin Hs. exfalso. destruct (Hsrc e Hin) as [_ Hnq].
           apply Hnq. rewrite Hs. apply elem_of_cons. auto.
Qed.

Lemma initialState_edges rootAddress info : EdgeInv (initialState rootAddress (Some info)).
Proof.
  unfold EdgeInv, initialState. cbn. split; [constructor |]. split; [apply NoDup_singleton |].
  split.
  - intros a Ha. apply list_elem_of_singleton in Ha. subst. apply elem_of_singleton. reflexivity.
  - intros e Hin. apply elem_of_nil in Hin. contradiction.
Qed.

(** X18: What the code does guarantee about repeated edges: in every graph
    returned by [buildWalletGraph] when the root wallet is found there
    is at most one edge per ordered pair of addresses; the edges of one
    expansion are one per counterpart among the first ten connections,
    and the transactions of the expansion that involve a counterpart are
    merged into its connection: their number, the sum of their values,
    their hashes.  The two orders of a pair are not merged, see
    [reverse_edge_duplicated]. *)
Theorem one_edge_per_ordered_pair rootAddress depth maxNodes w info w1 g w' :
  getWalletInfo rootAddress network w = (Normal (Some info), w1) ->
  buildWalletGraph rootAddress network depth maxNodes w = (Normal g, w') ->
  NoDup (ends g) /\
  (forall address transactions c data,
     (c, data) ∈ analyzeConnections address transactions ->
     data = accumulated (involving address c transactions) /\
     involving address c transactions <> []) /\
  (forall address level l st w0 st' w0',
     forEachM (addConnection network address level) st l w0 = (Normal st', w0') ->
     st_edges st' =
     (st_edges st ++ ((fun entry => makeEdge address (fst entry) (snd entry)) <$> l))%list).
Proof.
  intros E Eg. split; [| split].
  - destruct (buildWalletGraph_run rootAddress network depth maxNodes w _ w1 E)
      as (st & w2 & Eloop & _ & Eg').
    rewrite Eg in Eg'. inversion Eg'; subst g w2. clear Eg'. unfold ends. cbn [edges].
    destruct (bfsLoop_invariant network depth maxNodes EdgeInv
                (fun st0 H _ => bfsStep_edges depth st0 H)
                (loopFuel maxNodes (initialState rootAddress (Some info))) _
                (initialState_edges rootAddress info) w1)
      as (st' & w3 & Eloop' & (Hnd & _)).
    rewrite Eloop in Eloop'. inversion Eloop'; subst st' w3. exact Hnd.
  - intros address transactions c data. apply analyzeConnections_spec.
  - intros address level l. apply forEach_edges.
Qed.

End EdgeUniqueness.

Import Ledger.

Lemma edge_endpoints_witness :
  exists g,
    result (buildWalletGraph (env := withoutB) "A" "bitcoin" 2 10 emptyWorld) = Normal g /\
    failedLookups (env := withoutB) "A" "bitcoin" 2 10 emptyWorld = ["B"] /\
    (forall e, e ∈ edges g ->
       e_source e ∈ addresses (nodes g) /\
       (e_target e ∈ addresses (nodes g) \/ e_target e = "B")) /\
    exists e, e ∈ edges g /\ e_target e = "B".
Proof.
  eexists. split; [vm_compute; reflexivity |].
  assert (Ef : failedLookups (env := withoutB) "A" "bitcoin" 2 10 emptyWorld = ["B"])
    by (vm_compute; reflexivity).
  split; [exact Ef |].
  edestruct (edge_endpoints (env := withoutB) "A" "bitcoin" 2 10 emptyWorld)
    as (Hedges & Hfailed & _).
  - vm_compute. reflexivity.
  - vm_compute. reflexivity.
  - rewrite Ef in Hedges, Hfailed. split.
    + intros e He. destruct (Hedges e He) as [Hs Ht]. split.
      * destruct Hs as [Hs | [Hs _]]; [exact Hs | discriminate Hs].
      * destruct Ht as [Ht | Ht]; [left; exact Ht | right].
        apply list_elem_of_singleton in Ht. exact Ht.
    + apply Hfailed. apply list_elem_of_singleton. reflexivity.
Defined.

Lemma buildWalletGraph_never_fails_witness :
  exists g w',
    buildWalletGraph (env := withoutA) "A" "bitcoin" 2 10 emptyWorld = (Normal g, w') /\
    exists st,
      bfsLoop (env := withoutA) (loopFuel 10 (initialState "A" None)) "bitcoin" 2 10
              (initialState "A" None) (nextTick (nextTick emptyWorld)) = (Normal st, w') /\
      loopGuard 10 st = false /\
      g = {| nodes := st_nodes st; edges := st_edges st; clusters := [] |}.
Proof.
  destruct (buildWalletGraph_never_fails (env := withoutA) "A" "bitcoin" 2 10 emptyWorld)
    as (g & w' & Eg & H).
  exists g, w'. split; [exact Eg |]. apply H. vm_compute. reflexivity.
Defined.

Section NodeBudget.
Context {env : Env}.

(** X17: How far past the budget a graph can go: a round starts below
    [maxNodes] and adds at most ten nodes. *)
Lemma node_count_bound rootAddress network depth maxNodes w g w' :
  buildWalletGraph rootAddress network depth maxNodes w = (Normal g, w') ->
  (Z.of_nat (length (nodes g)) <= Z.max 1 (maxNodes + 9))%Z.
Proof.
  intros Eg.
  destruct (getWalletInfo_normal rootAddress network w) as (r & w1 & E & _).
  destruct (buildWalletGraph_run rootAddress network depth maxNodes w _ w1 E)
    as (st & w2 & Eloop & _ & Eg').
  rewrite Eg in Eg'. inversion Eg'; subst g w2. clear Eg'. cbn [nodes].
  set (I := fun st : BfsState =>
              (Z.of_nat (length (st_nodes st)) <= Z.max 1 (maxNodes + 9))%Z).
  assert (Hstep : forall st0, I st0 -> loopGuard maxNodes st0 = true ->
                              always (bfsStep network depth st0) I).
  { intros st0 _ G. apply loopGuard_true in G. destruct G as [Hq Hn].
    eapply always_mono; [apply (bfsStep_grew network depth st0 Hq) |].
    intros st' (k & Hk & Hn' & _). unfold I. lia. }
  assert (Hinit : I (initialState rootAddress r)).
  { unfold I. destruct r; cbn; lia. }
  destruct (bfsLoop_invariant network depth maxNodes I Hstep
              (loopFuel maxNodes (initialState rootAddress r)) _ Hinit w1)
    as (st' & w3 & Eloop' & HI).
  rewrite Eloop in Eloop'. inversion Eloop'; subst st' w3. exact HI.
Qed.

End NodeBudget.

(** The same through [investigateWallet], which asks for at most 30
    nodes: on the tree of payments the graph has 31. *)
Example investigation_over_budget :
  exists r,
    result (investigateWallet (env := treeWorld) "0" "bitcoin" defaults emptyWorld) =
      Normal (Some r) /\
    length (nodes (graph r)) = 31.
Proof. eexists. split; [vm_compute; reflexivity | reflexivity]. Qed.

(** What the two edges of a pair do to an investigation: [B] is listed
    twice among the wallets connected to [A]. *)
Example connected_wallet_listed_twice :
  exists r,
    result (investigateWallet (env := paymentWorld) "A" "bitcoin" defaults emptyWorld) =
      Normal (Some r) /\
    cw_address <$> connectedWallets r = ["B"; "B"].
Proof. eexists. split; [vm_compute; reflexivity | reflexivity]. Qed.

Lemma one_edge_per_ordered_pair_witness :
  exists g,
    result (buildWalletGraph (env := paymentWorld) "A" "bitcoin" 2 10 emptyWorld) = Normal g /\
    NoDup (ends g).
Proof.
  eexists. split; [vm_compute; reflexivity |].
  eapply (one_edge_per_ordered_pair (env := paymentWorld) "bitcoin" "A" 2 10 emptyWorld).
  - vm_compute. reflexivity.
  - vm_compute. reflexivity.
Defined.

(** The first scenario of the specification: three payments to [B] and
    one to [C], depth 1: the nodes are [A], [B], [C], the edge to [B]
    counts three transactions of total volume 5 and the edge to [C] one
    of volume 1. *)
Example specification_scenario :
  exists g,
    result (buildWalletGraph (env := threeToBWorld) "A" "bitcoin" 1 10 emptyWorld) = Normal g /\
    addresses (nodes g) = ["A"; "B"; "C"] /\
    (fun e => (endsOf e, e_transactions e, e_totalVolume e)) <$> edges g =
      [("A", "B", 3, "5"); ("A", "C", 1, "1")].
Proof. eexists. split; [vm_compute; reflexivity |]. split; reflexivity. Qed.

(** The second scenario of the specification: with [maxNodes = 1] the
    graph is the root alone, without edges. *)
Example single_node_scenario :
  exists g,
    result (buildWalletGraph (env := threeToBWorld) "A" "bitcoin" 2 1 emptyWorld) = Normal g /\
    addresses (nodes g) = ["A"] /\ edges g = [].
Proof. eexists. split; [vm_compute; reflexivity |]. split; reflexivity. Qed.

(* ===================================================================== *)
(** ** getWalletInfo and investigateWallet *)
(* ===================================================================== *)

Section LookupFacts.
Context {env : Env}.

Lemma blockchainInfoWallet_constant address t data info :
  blockchainInfoWallet address t data = Some info -> riskConstant info.
Proof.
  unfold blockchainInfoWallet. intros H. simplify_option_eq. repeat split.
Qed.

Lemma getBitcoinWalletInfo_constant address w info w' :
  getBitcoinWalletInfo address w = (Normal info, w') ->
  riskConstant info /\ walletCache w' = walletCache w /\ txsCache w' = txsCache w /\
  tick w <= tick w'.
Proof.
  unfold getBitcoinWalletInfo.
  erewrite bind_normal by reflexivity. erewrite bind_normal by reflexivity.
  destruct (match blockchainInfoRawAddr (tick w) address 0 with
            | Ok data => blockchainInfoWallet address (dateNow (tick (nextTick w))) data
            | _ => None end) as [info1 |] eqn:E1.
  - intros H. inversion H; subst. split; [| cbn; auto].
    destruct (blockchainInfoRawAddr (tick w) address 0); try discriminate E1.
    eapply blockchainInfoWallet_constant. exact E1.
  - erewrite bind_normal by reflexivity.
    destruct (blockchairAddress (tick (nextTick w)) address) as [| | [addrData |]];
      intros H; inversion H; subst.
    split; [repeat split | cbn; auto].
Qed.

Lemma getBitcoinWalletInfo_frame address w c w' :
  getBitcoinWalletInfo address w = (c, w') ->
  walletCache w' = walletCache w /\ txsCache w' = txsCache w /\ tick w <= tick w'.
Proof.
  unfold getBitcoinWalletInfo.
  erewrite bind_normal by reflexivity. erewrite bind_normal by reflexivity.
  destruct (match blockchainInfoRawAddr (tick w) address 0 with
            | Ok data => blockchainInfoWallet address (dateNow (tick (nextTick w))) data
            | _ => None end) as [info1 |].
  - intros H. inversion H; subst. cbn. auto.
  - erewrite bind_normal by reflexivity.
    destruct (blockchairAddress (tick (nextTick w)) address) as [| | [addrData |]];
      intros H; inversion H; subst; cbn; auto.
Qed.

Lemma getEthereumWalletInfo_constant address w info w' :
  getEthereumWalletInfo address w = (Normal info, w') ->
  riskConstant info /\ walletCache w' = walletCache w /\ txsCache w' = txsCache w /\
  tick w <= tick w'.
Proof.
  unfold getEthereumWalletInfo. erewrite bind_normal by reflexivity.
  destruct (ethplorerAddressInfo (tick w) address); intros H; inversion H; subst.
  split; [repeat split | cbn; auto].
Qed.

Lemma getEthereumWalletInfo_frame address w c w' :
  getEthereumWalletInfo address w = (c, w') ->
  walletCache w' = walletCache w /\ txsCache w' = txsCache w /\ tick w <= tick w'.
Proof.
  unfold getEthereumWalletInfo. erewrite bind_normal by reflexivity.
  destruct (ethplorerAddressInfo (tick w) address); intros H; inversion H; subst; cbn; auto.
Qed.

Lemma cacheClean_insert key info expiry w :
  cacheClean w -> riskConstant info ->
  cacheClean (setStore (<[key := (info, expiry)]> (store w)) w).
Proof.
  intros Hc Hi key' info' expiry'. cbn. rewrite lookup_insert. case_decide.
  - intros Heq. inversion Heq; subst. exact Hi.
  - apply Hc.
Qed.

Lemma providerLookup_spec address network w c w' :
  (if String.eqb network "bitcoin" then
     info ← getBitcoinWalletInfo address; mret (Some info)
   else if String.eqb network "ethereum" then
     info ← getEthereumWalletInfo address; mret (Some info)
   else mret None) w = (c, w') ->
  (forall info, c = Normal (Some info) -> riskConstant info) /\
  walletCache w' = walletCache w /\ txsCache w' = txsCache w /\ tick w <= tick w'.
Proof.
  destruct (String.eqb network "bitcoin"); [| destruct (String.eqb network "ethereum")].
  - destruct (getBitcoinWalletInfo address w) as [[info | e] w1] eqn:E.
    + erewrite bind_normal by exact E. intros H. inversion H; subst.
      destruct (getBitcoinWalletInfo_constant _ _ _ _ E) as (Hc & Hf).
      split; [| exact Hf]. intros info' H'. inversion H'; subst. exact Hc.
    + erewrite bind_throw by exact E. intros H. inversion H; subst.
      split; [intros info' H'; discriminate H' |].
      eapply getBitcoinWalletInfo_frame. exact E.
  - destruct (getEthereumWalletInfo address w) as [[info | e] w1] eqn:E.
    + erewrite bind_normal by exact E. intros H. inversion H; subst.
      destruct (getEthereumWalletInfo_constant _ _ _ _ E) as (Hc & Hf).
      split; [| exact Hf]. intros info' H'. inversion H'; subst. exact Hc.
    + erewrite bind_throw by exact E. intros H. inversion H; subst.
      split; [intros info' H'; discriminate H' |].
      eapply getEthereumWalletInfo_frame. exact E.
  - intros H. inversion H; subst. split; [intros info' H'; discriminate H' | auto].
Qed.

End LookupFacts.

Section Unreachable.
Context {env : Env}.

(** When the address is not cached and both providers fail, each in any
    of its ways, the lookup gives [null]. *)
Lemma getWalletInfo_bitcoin_unreachable address w :
  match walletCache w !! ("wallet_info_" +:+ "bitcoin" +:+ "_" +:+ address) with
  | Some (_, expiry) => (expiry <= dateNow (tick w))%Z
  | None => True
  end ->
  match blockchainInfoRawAddr (tick w) address 0 with
  | Ok data => blockchainInfoWallet address (dateNow (S (tick w))) data = None
  | _ => True
  end ->
  match blockchairAddress (S (tick w)) address with
  | Ok (Some _) => False
  | _ => True
  end ->
  getWalletInfo address "bitcoin" w = (Normal None, nextTick (nextTick w)).
Proof.
  intros Hcache H1 H2. unfold getWalletInfo.
  erewrite bind_normal by reflexivity. cbn [store Cacheable_wallet].
  assert (Hmiss : match walletCache w !! ("wallet_info_" +:+ "bitcoin" +:+ "_" +:+ address) with
                  | Some (v, expiry) => if (dateNow (tick w) <? expiry)%Z then Some v else None
                  | None => None
                  end = None).
  { destruct (walletCache w !! _) as [[v expiry] |]; [| reflexivity].
    destruct (Z.ltb_spec (dateNow (tick w)) expiry); [lia | reflexivity]. }
  rewrite Hmiss.
  assert (Hthrow : getBitcoinWalletInfo address w =
                   (Throw "Failed to fetch Bitcoin wallet information", nextTick (nextTick w))).
  { unfold getBitcoinWalletInfo.
    erewrite bind_normal by reflexivity. erewrite bind_normal by reflexivity.
    cbn [tick nextTick].
    assert (Hfirst : match blockchainInfoRawAddr (tick w) address 0 with
                     | Ok data => blockchainInfoWallet address (dateNow (S (tick w))) data
                     | _ => None
                     end = None)
      by (destruct (blockchainInfoRawAddr (tick w) address 0); auto).
    rewrite Hfirst. erewrite bind_normal by reflexivity. cbn [tick nextTick].
    destruct (blockchairAddress (S (tick w)) address) as [| | [addrData |]];
      try reflexivity. contradiction. }
  erewrite tryCatch_throw
    by (cbn [String.eqb Ascii.eqb Bool.eqb];
        erewrite bind_throw by (erewrite bind_throw by exact Hthrow; reflexivity);
        reflexivity).
  reflexivity.
Qed.

End Unreachable.

Section Lookup.
Context {env : Env}.

(** What a wallet lookup does to the state, and what it returns when the
    cached wallets have the constant risk fields. *)
Lemma getWalletInfo_spec address network w r w' :
  getWalletInfo address network w = (Normal r, w') ->
  txsCache w' = txsCache w /\ tick w <= tick w' /\
  (cacheClean w -> cacheClean w' /\ forall info, r = Some info -> riskConstant info).
Proof.
  unfold getWalletInfo. erewrite bind_normal by reflexivity.
  destruct (store w !! _) as [[c expiry] |] eqn:Ec;
    [destruct (dateNow (tick w) <? expiry)%Z |].
  1: { intros H. inversion H; subst. split; [reflexivity | split; [lia |]].
       intros Hc. split; [exact Hc |]. intros info Hi. inversion Hi; subst.
       eapply Hc. exact Ec. }
  all: match goal with
       | |- tryCatch (?d ≫= ?k) ?h ?w0 = _ -> _ =>
           destruct (d w) as [c1 w1] eqn:Ed;
           destruct (providerLookup_spec address network w c1 w1 Ed) as (Hrisk & Hwc & Htc & Htick);
           destruct c1 as [[info |] | e]
       end.
  all: try (erewrite tryCatch_normal
              by (erewrite bind_normal by exact Ed; cbv beta iota;
                  first [erewrite bind_normal by reflexivity; reflexivity | reflexivity])).
  all: try (erewrite tryCatch_throw by (erewrite bind_throw by exact Ed; reflexivity)).
  all: assert (Hc1 : cacheClean w -> cacheClean w1)
         by (intros Hc k i x Hk; apply (Hc k i x); rewrite <- Hwc; exact Hk).
  all: intros H; inversion H; subst; cbn [txsCache tick setStore Cacheable_wallet].
  all: split; [exact Htc | split; [exact Htick |]]; intros Hc.
  all: try (split; [exact (Hc1 Hc) | intros i Hi; discriminate Hi]).
  all: split; [apply cacheClean_insert; auto |
               intros i Hi; inversion Hi; subst; apply Hrisk; reflexivity].
Qed.

(** C10: a wallet that [getWalletInfo] returns has [riskScore] 0,
    [riskLevel] safe, no labels, and is flagged neither as an exchange,
    nor as a mixer, nor as ransomware, whatever the provider and the
    network; no risk is computed.  The cache hands back what an earlier
    lookup stored, so the statement is for a cache whose wallets have
    these values (the empty one to begin with), and that stays so. *)
Theorem fetched_wallet_risk_constant address network w info w' :
  cacheClean w ->
  getWalletInfo address network w = (Normal (Some info), w') ->
  riskConstant info /\ cacheClean w'.
Proof.
  intros Hc E. destruct (getWalletInfo_spec _ _ _ _ _ E) as (_ & _ & H).
  destruct (H Hc) as [Hc' Hi]. split; [apply Hi; reflexivity | exact Hc'].
Qed.

(** C5, as the code has it: when the lookup of the address gives no
    wallet, [investigateWallet] returns [null] and nothing else; the
    state is the one the lookup left, and no part of a result is built.
    The [null] carries no kind of error (see
    [failure_kinds_not_distinguished]). *)
Theorem investigateWallet_root_failure address network options w w1 :
  getWalletInfo address network w = (Normal None, w1) ->
  investigateWallet address network options w = (Normal None, w1).
Proof.
  intros E. unfold investigateWallet.
  erewrite tryCatch_throw by (erewrite bind_normal by exact E; reflexivity).
  reflexivity.
Qed.

End Lookup.

Lemma emptyWorld_clean : cacheClean emptyWorld.
Proof. intros key info expiry H. cbn in H. rewrite lookup_empty in H. discriminate H. Qed.

Lemma fetched_wallet_risk_constant_witness :
  exists info w',
    getWalletInfo (env := Ledger.paymentWorld) "A" "bitcoin" emptyWorld = (Normal (Some info), w') /\
    riskConstant info /\ cacheClean w'.
Proof.
  eexists _, _. split; [vm_compute; reflexivity |].
  eapply (fetched_wallet_risk_constant (env := Ledger.paymentWorld) "A" "bitcoin" emptyWorld).
  - exact emptyWorld_clean.
  - vm_compute. reflexivity.
Defined.

Lemma investigateWallet_root_failure_witness :
  investigateWallet (env := Ledger.absent) "A" "bitcoin" Ledger.defaults emptyWorld =
  (Normal None, nextTick (nextTick emptyWorld)).
Proof.
  apply (investigateWallet_root_failure (env := Ledger.absent)). vm_compute. reflexivity.
Defined.

(** The claim of C5 is false as stated: whether every provider reports
    the address absent or every attempt raises, the caller gets the same
    [null]. *)
Lemma failure_kinds_not_distinguished :
  result (investigateWallet (env := Ledger.absent) "A" "bitcoin" Ledger.defaults emptyWorld) =
    Normal None /\
  result (investigateWallet (env := Ledger.erroring) "A" "bitcoin" Ledger.defaults emptyWorld) =
    Normal None.
Proof. split; vm_compute; reflexivity. Qed.

(** ** investigateWallet when a step fails *)

Section Degradation.
Context {env : Env}.

Lemma normalizeTx_unprintable tx :
  toISOString (rt_time tx * 1000)%float = None -> normalizeTx tx = None.
Proof. intros E. unfold normalizeTx. rewrite E. reflexivity. Qed.

Lemma mapM_unprintable txs :
  Exists (fun tx => toISOString (rt_time tx * 1000)%float = None) txs ->
  mapM normalizeTx txs = None.
Proof.
  intros H. apply mapM_None_2. eapply Exists_impl; [exact H |].
  intros tx. apply normalizeTx_unprintable.
Qed.

(** A list that cannot be had is the empty list, and nothing is stored. *)
Lemma getWalletTransactions_none address network limit w :
  noTransactionList address network limit w ->
  exists w',
    getWalletTransactions address network limit w = (Normal [], w') /\
    walletCache w' = walletCache w /\ txsCache w' = txsCache w.
Proof.
  intros [Hcache Hfetch]. unfold getWalletTransactions.
  erewrite bind_normal by reflexivity. cbn [store Cacheable_txs].
  fold (listKey network address limit).
  assert (Hmiss : match txsCache w !! listKey network address limit with
                  | Some (v, expiry) =>
                      if (dateNow (tick w) <? expiry)%Z then Some v else None
                  | None => None
                  end = None).
  { destruct (txsCache w !! listKey network address limit) as [[v expiry] |]; [| reflexivity].
    destruct (Z.ltb_spec (dateNow (tick w)) expiry); [lia | reflexivity]. }
  rewrite Hmiss. clear Hmiss.
  destruct (String.eqb_spec network "bitcoin") as [-> | Hb];
    [| destruct (String.eqb network "ethereum")].
  - specialize (Hfetch eq_refl). exists (nextTick w). split; [| cbn; auto].
    apply tryCatch_normal.
    erewrite bind_normal with (a := []).
    + reflexivity.
    + unfold getBitcoinWalletTransactions. erewrite bind_normal by reflexivity.
      destruct (blockchainInfoRawAddr (tick w) address limit) as [| | data];
        [reflexivity | reflexivity |].
      rewrite (mapM_unprintable _ Hfetch). reflexivity.
  - exists w. split; [| auto]. apply tryCatch_normal. reflexivity.
  - exists w. split; [| auto]. apply tryCatch_normal. reflexivity.
Qed.

Lemma bfsLoop_stop fuel network depth maxNodes st w :
  loopGuard maxNodes st = false ->
  bfsLoop fuel network depth maxNodes st w = (Normal st, w).
Proof. intros G. destruct fuel; cbn [bfsLoop]; [| rewrite G]; reflexivity. Qed.

Lemma bfsLoop_single fuel network depth maxNodes st w st' w' :
  0 < fuel -> loopGuard maxNodes st = true ->
  bfsStep network depth st w = (Normal st', w') -> st_queue st' = [] ->
  bfsLoop fuel network depth maxNodes st w = (Normal st', w').
Proof.
  intros Hf G E Hq. destruct fuel as [| fuel]; [lia |]. cbn [bfsLoop]. rewrite G.
  erewrite bind_normal by exact E. apply bfsLoop_stop.
  apply loopGuard_false. left. exact Hq.
Qed.

(** When the root is not to be expanded, or its transaction list comes
    back empty, the search finds no counterpart: the graph is the root
    alone, or nothing when the root itself is not found. *)
Lemma buildWalletGraph_barren rootAddress network depth maxNodes w rootWallet w1 :
  getWalletInfo rootAddress network w = (Normal rootWallet, w1) ->
  (depth <= 0)%Z \/ (exists w2, getWalletTransactions rootAddress network 20 w1 = (Normal [], w2)) ->
  exists w',
    buildWalletGraph rootAddress network depth maxNodes w =
      (Normal (rootOnly rootAddress rootWallet), w').
Proof.
  intros E Hbarren.
  set (st0 := initialState rootAddress rootWallet).
  assert (Hq0 : st_queue st0 = [(rootAddress, 0)]) by (destruct rootWallet; reflexivity).
  assert (Hg0 : {| nodes := st_nodes st0; edges := st_edges st0; clusters := [] |} =
                rootOnly rootAddress rootWallet) by (destruct rootWallet; reflexivity).
  assert (Hloop : exists st w',
             bfsLoop (loopFuel maxNodes st0) network depth maxNodes st0 w1 = (Normal st, w') /\
             st_nodes st = st_nodes st0 /\ st_edges st = st_edges st0).
  { destruct (loopGuard maxNodes st0) eqn:G.
    - assert (Hstep : exists w',
                 bfsStep network depth st0 w1 =
                 (Normal {| st_nodes := st_nodes st0; st_edges := st_edges st0;
                            st_visited := st_visited st0; st_queue := [] |}, w')).
      { unfold bfsStep. rewrite Hq0. case_bool_decide as Hd; [eexists; reflexivity |].
        destruct Hbarren as [Hdepth | (w2 & Etx)]; [cbn in Hd; lia |].
        exists w2. erewrite bind_normal by exact Etx. reflexivity. }
      destruct Hstep as [w2 Hstep].
      exists {| st_nodes := st_nodes st0; st_edges := st_edges st0;
                st_visited := st_visited st0; st_queue := [] |}, w2.
      split; [| split; reflexivity].
      eapply bfsLoop_single; [| exact G | exact Hstep | reflexivity].
      unfold loopFuel. rewrite Hq0. cbn. lia.
    - exists st0, w1. split; [apply bfsLoop_stop; exact G | auto]. }
  destruct Hloop as (st & w2 & Eloop & Hn & He).
  exists w2. unfold buildWalletGraph. erewrite bind_normal by exact E.
  fold st0. erewrite bind_normal by exact Eloop.
  cbn. rewrite Hn, He. rewrite <- Hg0. reflexivity.
Qed.

Lemma laterState_refl st : laterState st st.
Proof. split; exists []; rewrite app_nil_r; reflexivity. Qed.

Lemma laterState_trans st1 st2 st3 :
  laterState st1 st2 -> laterState st2 st3 -> laterState st1 st3.
Proof.
  intros [[n1 Hn1] [e1 He1]] [[n2 Hn2] [e2 He2]]. split.
  - exists (n1 ++ n2)%list. rewrite Hn2, Hn1, app_assoc. reflexivity.
  - exists (e1 ++ e2)%list. rewrite He2, He1, app_assoc. reflexivity.
Qed.

(** The search only ever adds nodes and edges behind those it has. *)
Lemma addConnection_later network address level st entry :
  always (addConnection network address level st entry) (laterState st).
Proof.
  destruct entry as [connAddr data]. unfold addConnection.
  eapply always_bind with (P := laterState st).
  - case_bool_decide.
    + apply always_ret. apply laterState_refl.
    + eapply always_bind; [apply getWalletInfo_normal |].
      intros [info |] _; apply always_ret.
      * split; [eexists; reflexivity | exists []; rewrite app_nil_r; reflexivity].
      * apply laterState_refl.
  - intros st1 [Hn [more He]]. apply always_ret. split; [exact Hn |].
    cbn. exists (more ++ [makeEdge address connAddr data])%list.
    rewrite He, app_assoc. reflexivity.
Qed.

Lemma forEach_later network address level l : forall st,
  always (forEachM (addConnection network address level) st l) (laterState st).
Proof.
  induction l as [| entry l IH]; intros st; cbn [forEachM].
  - apply always_ret. apply laterState_refl.
  - eapply always_bind; [apply addConnection_later |].
    intros st1 H1. eapply always_mono; [apply IH |].
    intros st2 H2. eapply laterState_trans; eassumption.
Qed.

Lemma bfsStep_later network depth st :
  always (bfsStep network depth st) (laterState st).
Proof.
  unfold bfsStep. destruct (st_queue st) as [| [address level] rest].
  - apply always_ret. apply laterState_refl.
  - case_bool_decide.
    + apply always_ret. split; exists []; rewrite app_nil_r; reflexivity.
    + eapply always_bind; [apply getWalletTransactions_normal |].
      intros txs _. eapply always_mono; [apply forEach_later |].
      intros st' H'. exact H'.
Qed.

Lemma bfsLoop_later network depth maxNodes fuel st :
  always (bfsLoop fuel network depth maxNodes st) (laterState st).
Proof.
  apply (bfsLoop_invariant network depth maxNodes (laterState st)).
  - intros st0 H0 _. eapply always_mono; [apply bfsStep_later |].
    intros st1 H1. eapply laterState_trans; eassumption.
  - apply laterState_refl.
Qed.

(** When the lookup of the root finds the wallet, the root is the first
    node of the graph. *)
Lemma buildWalletGraph_root_first rootAddress network depth maxNodes w info w1 g w' :
  getWalletInfo rootAddress network w = (Normal (Some info), w1) ->
  buildWalletGraph rootAddress network depth maxNodes w = (Normal g, w') ->
  exists others, nodes g = makeNode rootAddress info :: others.
Proof.
  intros E Eg.
  destruct (buildWalletGraph_run rootAddress network depth maxNodes w _ w1 E)
    as (st & w2 & Eloop & _ & Eg').
  rewrite Eg in Eg'. inversion Eg'; subst g w2. clear Eg'. cbn [nodes].
  destruct (bfsLoop_later network depth maxNodes
              (loopFuel maxNodes (initialState rootAddress (Some info)))
              (initialState rootAddress (Some info)) w1)
    as (st' & w3 & Eloop' & [[others Hn] _]).
  rewrite Eloop in Eloop'. inversion Eloop'; subst. exists others. exact Hn.
Qed.

(** When the root is expanded, the graph starts with the edges to the
    counterparts its transaction list names, whether or not the root
    itself was found. *)
Lemma buildWalletGraph_first_round rootAddress network depth maxNodes w rootWallet w1
  txs w2 g w' :
  getWalletInfo rootAddress network w = (Normal rootWallet, w1) ->
  (0 < depth)%Z -> (1 < maxNodes)%Z ->
  getWalletTransactions rootAddress network 20 w1 = (Normal txs, w2) ->
  buildWalletGraph rootAddress network depth maxNodes w = (Normal g, w') ->
  exists more,
    edges g = (edgesOf rootAddress (take 10 (analyzeConnections rootAddress txs)) ++ more)%list.
Proof.
  intros E Hdepth Hmax Etx Eg.
  destruct (buildWalletGraph_run rootAddress network depth maxNodes w _ w1 E)
    as (st & w3 & Eloop & _ & Eg').
  rewrite Eg in Eg'. inversion Eg'; subst g w3. clear Eg'. cbn [edges].
  set (st0 := initialState rootAddress rootWallet) in *.
  assert (Hq0 : st_queue st0 = [(rootAddress, 0)]) by (destruct rootWallet; reflexivity).
  assert (He0 : st_edges st0 = []) by (destruct rootWallet; reflexivity).
  assert (Hn0 : length (st_nodes st0) <= 1) by (destruct rootWallet; cbn; lia).
  assert (G : loopGuard maxNodes st0 = true).
  { apply loopGuard_true. rewrite Hq0. cbn. lia. }
  assert (Hfuel : exists fuel, loopFuel maxNodes st0 = S fuel).
  { unfold loopFuel. rewrite Hq0. cbn. eauto. }
  destruct Hfuel as [fuel Hfuel]. rewrite Hfuel in Eloop. cbn [bfsLoop] in Eloop.
  rewrite G in Eloop. apply bind_inv in Eloop. destruct Eloop as (st1 & w4 & Estep & Eloop).
  assert (He1 : st_edges st1 =
                edgesOf rootAddress (take 10 (analyzeConnections rootAddress txs))).
  { unfold bfsStep in Estep. rewrite Hq0 in Estep.
    rewrite bool_decide_eq_false_2 in Estep by (cbn; lia).
    erewrite bind_normal in Estep by exact Etx.
    rewrite (forEach_edges _ _ _ _ _ _ _ _ Estep). cbn [st_edges]. rewrite He0. reflexivity. }
  destruct (bfsLoop_later network depth maxNodes fuel st1 w4)
    as (st' & w5 & Eloop' & [_ [more He]]).
  rewrite Eloop in Eloop'. inversion Eloop'; subst. exists more. rewrite He, He1. reflexivity.
Qed.

Lemma investigateWallet_found address network options w wallet0 w1 :
  getWalletInfo address network w = (Normal (Some wallet0), w1) ->
  forall txs w2 g w3,
    (if default true (fetchTransactions options)
     then getWalletTransactions address network 50 else mret []) w1 = (Normal txs, w2) ->
    (if default true (buildGraph options)
     then buildWalletGraph address network (default 2%Z (graphDepth options)) 30
     else mret emptyGraph) w2 = (Normal g, w3) ->
    investigateWallet address network options w =
      (Normal (Some (assemble address wallet0 txs g)), w3).
Proof.
  intros E txs w2 g w3 Etx Eg. unfold investigateWallet.
  apply tryCatch_normal. erewrite bind_normal by exact E. cbv beta iota.
  erewrite bind_normal by exact Etx. erewrite bind_normal by exact Eg. reflexivity.
Qed.

(** C6, as the code has it: once the wallet is found the investigation
    always returns a complete result carrying that wallet, made of what
    the two later steps return; the result has no field for an error.
    When no transactions are asked for, or the transaction list cannot
    be had, the transaction list is empty.  The graph is the empty one
    when no graph is asked for.  Otherwise it is the graph
    [buildWalletGraph] returns, which cannot fail as a whole: when its
    own lookup of the root finds the wallet, the root is the first node
    of the graph; and when the root is not to be expanded or its
    transaction list cannot be had, the graph is the root alone, or the
    empty graph when that lookup of the root failed; and when the root
    is expanded, the graph starts with the edges to the first ten
    counterparts its transaction list names, whether or not that lookup
    of the root found the wallet.  (So a build whose lookup of the root fails need
    not return the empty graph, see [failed_build_is_not_empty].) *)
Theorem investigateWallet_degrades address network options w wallet0 w1 :
  getWalletInfo address network w = (Normal (Some wallet0), w1) ->
  exists r w2 w',
    investigateWallet address network options w = (Normal (Some r), w') /\
    wallet r = wallet0 /\
    (if default true (fetchTransactions options)
     then getWalletTransactions address network 50 else mret []) w1 =
      (Normal (transactions r), w2) /\
    (if default true (buildGraph options)
     then buildWalletGraph address network (default 2%Z (graphDepth options)) 30
     else mret emptyGraph) w2 = (Normal (graph r), w') /\
    (default true (fetchTransactions options) = false \/
     noTransactionList address network 50 w1 -> transactions r = []) /\
    (default true (buildGraph options) = false -> graph r = emptyGraph) /\
    (default true (buildGraph options) = true ->
     forall rootWallet w3,
       getWalletInfo address network w2 = (Normal rootWallet, w3) ->
       (forall info, rootWallet = Some info ->
          exists others, nodes (graph r) = makeNode address info :: others) /\
       ((default 2%Z (graphDepth options) <= 0)%Z \/ noTransactionList address network 20 w3 ->
          graph r = rootOnly address rootWallet) /\
       (forall txs w4,
          (0 < default 2%Z (graphDepth options))%Z ->
          getWalletTransactions address network 20 w3 = (Normal txs, w4) ->
          exists more,
            edges (graph r) =
            (edgesOf address (take 10 (analyzeConnections address txs)) ++ more)%list)).
Proof.
  intros E.
  assert (Htx : exists txs w2,
             (if default true (fetchTransactions options)
              then getWalletTransactions address network 50 else mret []) w1 = (Normal txs, w2) /\
             (default true (fetchTransactions options) = false \/
              noTransactionList address network 50 w1 -> txs = [])).
  { destruct (default true (fetchTransactions options)).
    - destruct (getWalletTransactions_normal address network 50 w1) as (txs & w2 & Etx & _).
      exists txs, w2. split; [exact Etx |]. intros [Hoff | Hnone]; [discriminate Hoff |].
      destruct (getWalletTransactions_none _ _ _ _ Hnone) as (w2' & Etx' & _).
      rewrite Etx in Etx'. inversion Etx'. reflexivity.
    - exists [], w1. split; [reflexivity | auto]. }
  destruct Htx as (txs & w2 & Etx & Htx).
  assert (Hg : exists g w3,
             (if default true (buildGraph options)
              then buildWalletGraph address network (default 2%Z (graphDepth options)) 30
              else mret emptyGraph) w2 = (Normal g, w3)).
  { destruct (default true (buildGraph options)).
    - destruct (buildWalletGraph_normal address network (default 2%Z (graphDepth options)) 30 w2)
        as (g & w3 & Eg & _).
      eauto.
    - exists emptyGraph, w2. reflexivity. }
  destruct Hg as (g & w3 & Eg).
  exists (assemble address wallet0 txs g), w2, w3.
  split; [eapply investigateWallet_found; eassumption |].
  split; [reflexivity |]. split; [exact Etx |]. split; [exact Eg |].
  split; [exact Htx |]. cbn [graph assemble].
  destruct (default true (buildGraph options)).
  - split; [discriminate |]. intros _ rootWallet w4 Eroot. split; [| split].
    + intros info ->. eapply buildWalletGraph_root_first; eassumption.
    + intros Hbarren.
      destruct (buildWalletGraph_barren address network (default 2%Z (graphDepth options)) 30
                  w2 rootWallet w4 Eroot) as (w5 & Eg').
      * destruct Hbarren as [Hd | Hnone]; [left; exact Hd | right].
        destruct (getWalletTransactions_none _ _ _ _ Hnone) as (w5 & Etx' & _). eauto.
      * rewrite Eg in Eg'. inversion Eg'. reflexivity.
    + intros txs20 w5 Hdepth Etx20.
      apply (buildWalletGraph_first_round address network (default 2%Z (graphDepth options)) 30
               w2 rootWallet w4 txs20 w5 g w3 Eroot Hdepth ltac:(lia) Etx20 Eg).
  - split; [| discriminate]. intros _. inversion Eg. reflexivity.
Qed.

End Degradation.

Lemma investigateWallet_degrades_witness :
  exists r w',
    investigateWallet (env := Ledger.secondFails) "A" "bitcoin" Ledger.defaults emptyWorld =
      (Normal (Some r), w') /\
    transactions r = [] /\
    exists info others, nodes (graph r) = makeNode "A" info :: others.
Proof.
  edestruct (investigateWallet_degrades (env := Ledger.secondFails) "A" "bitcoin"
               Ledger.defaults emptyWorld)
    as (r & w2 & w' & E & _ & Etx & _ & Htx & _ & Hgraph).
  - vm_compute. reflexivity.
  - exists r, w'. split; [exact E |].
    split; [apply Htx; right; split; [exact I | intros _; exact I] |].
    apply (f_equal snd) in Etx. vm_compute in Etx. subst w2.
    edestruct (Hgraph eq_refl) as (Hroot & _ & _); [vm_compute; reflexivity |].
    eexists. apply Hroot. reflexivity.
Defined.

(** The same investigation when every request after the first fails,
    and when only the request for the transaction list does: the list
    is empty in both, the graph is the root alone in the first and has
    both wallets and both edges in the second. *)
Example degraded_investigations :
  (exists r,
     result (investigateWallet (env := Ledger.goesDown) "A" "bitcoin" Ledger.defaults
               emptyWorld) = Normal (Some r) /\
     transactions r = [] /\ addresses (nodes (graph r)) = ["A"] /\ edges (graph r) = []) /\
  (exists r,
     result (investigateWallet (env := Ledger.secondFails) "A" "bitcoin" Ledger.defaults
               emptyWorld) = Normal (Some r) /\
     transactions r = [] /\ addresses (nodes (graph r)) = ["A"; "B"] /\
     ends (graph r) = [("A", "B"); ("B", "A")]).
Proof.
  split; (eexists; split; [vm_compute; reflexivity |]); repeat split.
Qed.

(** The claim of C6 is false as stated: the wallet is found, its
    transactions are fetched, and the graph build then fails to find
    the root, whose cache entry has expired; the result is complete,
    and its graph is not the empty graph: it has a node and two edges. *)
Lemma failed_build_is_not_empty :
  exists r w1 w2,
    investigateWallet (env := Ledger.expiring) "A" "bitcoin" Ledger.defaults emptyWorld =
      (Normal (Some r), w2) /\
    getWalletTransactions (env := Ledger.expiring) "A" "bitcoin" 50
      (snd (getWalletInfo (env := Ledger.expiring) "A" "bitcoin" emptyWorld)) =
      (Normal (transactions r), w1) /\
    result (getWalletInfo (env := Ledger.expiring) "A" "bitcoin" w1) = Normal None /\
    buildWalletGraph (env := Ledger.expiring) "A" "bitcoin" 2 30 w1 = (Normal (graph r), w2) /\
    addresses (nodes (graph r)) = ["B"] /\
    ends (graph r) = [("A", "B"); ("B", "A")] /\
    graph r <> emptyGraph.
Proof.
  eexists _, _, _. split; [vm_compute; reflexivity |].
  split; [vm_compute; reflexivity |]. split; [vm_compute; reflexivity |].
  split; [vm_compute; reflexivity |]. split; [reflexivity |]. split; [reflexivity |].
  discriminate.
Qed.
(* ===================================================================== *)
(** ** The analysis helpers *)
(* ===================================================================== *)

Section AnalysisFacts.
Context {env : Env}.

Lemma foldl_add_fmap {A} (f : A -> float) (l : list A) : forall acc,
  foldl (fun sum a => (sum + f a)%float) acc l = fold_left PrimFloat.add (f <$> l) acc.
Proof. induction l as [| a l IH]; intros acc; cbn; [reflexivity | apply IH]. Qed.

Lemma foldl_add (l : list float) : forall acc,
  foldl (fun sum int => (sum + int)%float) acc l = fold_left PrimFloat.add l acc.
Proof. induction l as [| a l IH]; intros acc; cbn; [reflexivity | apply IH]. Qed.

(** The average value the helper computes is the average of the values. *)
Lemma averageValue_computed transactions :
  (sumValues transactions / JS.ofNat (length transactions))%float =
  Specified.averageValue transactions.
Proof.
  unfold sumValues, Specified.averageValue, Specified.average.
  rewrite foldl_add_fmap, length_fmap. reflexivity.
Qed.

(** On a list that is newest first, the differences the helper takes
    are the intervals between consecutive transactions. *)
Lemma differences_are_intervals (l : list float) :
  Specified.descending l ->
  zip_with (fun earlier later => (earlier - later)%float) l (tail l) = Specified.intervals l.
Proof.
  induction l as [| t1 l IH]; [reflexivity |].
  destruct l as [| t2 l]; [reflexivity |].
  intros [Hlt Hrest]. cbn [tail zip_with Specified.intervals].
  unfold Specified.elapsed at 1. rewrite Hlt. f_equal. apply IH. exact Hrest.
Qed.

Lemma msPerDay_value : msPerDay = 86400000%float.
Proof. reflexivity. Qed.

(** On a list that is newest first, the number of days the helper
    computes is the average interval between consecutive transactions,
    in days. *)
Lemma averageIntervalDays_computed transactions :
  Specified.newestFirst transactions ->
  averageIntervalDays transactions = Specified.meanIntervalInDays transactions.
Proof.
  intros Horder. unfold averageIntervalDays, txIntervals, Specified.meanIntervalInDays.
  fold (Specified.times transactions).
  rewrite (differences_are_intervals _ Horder), foldl_add, msPerDay_value. reflexivity.
Qed.

(** C8, as the code has it: the two helpers are the case analyses of
    the specification.  The behaviour pattern is decided by the number
    of transactions and the average of their values.  The frequency is
    decided by the average interval between consecutive transactions,
    in days, when the list is newest first, which is how the providers
    send it; a comparison with [NaN] is false, which sends an undefined
    average to the last case.  (On a list in another order the helper
    goes by the differences it takes, see [oldest_first_is_very_active].) *)
Theorem analysis_cases (transactions : list CryptoTransaction) :
  let frequency := length transactions in
  let avgValue := Specified.averageValue transactions in
  let days := Specified.meanIntervalInDays transactions in
  (frequency = 0 -> analyzeBehaviorPattern transactions = "No transaction history") /\
  (100 < frequency -> JS.gt avgValue 1 = true ->
     analyzeBehaviorPattern transactions =
     "High-frequency, high-value transactions - Possible exchange or business") /\
  (50 < frequency -> ~ (100 < frequency /\ JS.gt avgValue 1 = true) ->
     analyzeBehaviorPattern transactions = "Active wallet with regular transactions") /\
  (0 < frequency < 10 ->
     analyzeBehaviorPattern transactions = "Low activity wallet - Possibly dormant or new") /\
  (10 <= frequency <= 50 ->
     analyzeBehaviorPattern transactions = "Normal transaction pattern") /\
  (frequency < 2 -> analyzeFrequency transactions = "Insufficient data") /\
  (Specified.newestFirst transactions -> 2 <= frequency ->
     (JS.lt days 1 = true ->
        analyzeFrequency transactions = "Multiple transactions per day - Very active") /\
     (JS.lt days 1 = false -> JS.lt days 7 = true ->
        analyzeFrequency transactions = "Weekly transaction pattern") /\
     (JS.lt days 1 = false -> JS.lt days 7 = false -> JS.lt days 30 = true ->
        analyzeFrequency transactions = "Monthly transaction pattern") /\
     (JS.lt days 1 = false -> JS.lt days 7 = false -> JS.lt days 30 = false ->
        analyzeFrequency transactions = "Infrequent transactions")).
Proof.
  intros frequency avgValue days.
  unfold analyzeBehaviorPattern, analyzeFrequency.
  rewrite averageValue_computed.
  fold frequency. fold avgValue.
  repeat match goal with |- _ /\ _ => split end.
  - intros H. rewrite bool_decide_eq_true_2 by exact H. reflexivity.
  - intros H1 H2. rewrite bool_decide_eq_false_2 by lia.
    rewrite (bool_decide_eq_true_2 (100 < frequency)) by exact H1. rewrite H2. reflexivity.
  - intros H1 H2. rewrite bool_decide_eq_false_2 by lia.
    destruct (bool_decide (100 < frequency) && JS.gt avgValue 1) eqn:E.
    + exfalso. apply H2. apply andb_true_iff in E. destruct E as [E1 E2].
      apply bool_decide_eq_true in E1. auto.
    + rewrite (bool_decide_eq_true_2 (50 < frequency)) by exact H1. reflexivity.
  - intros H. rewrite bool_decide_eq_false_2 by lia.
    rewrite (bool_decide_eq_false_2 (100 < frequency)) by lia. cbn [andb].
    rewrite (bool_decide_eq_false_2 (50 < frequency)) by lia.
    rewrite (bool_decide_eq_true_2 (frequency < 10)) by lia. reflexivity.
  - intros H. rewrite bool_decide_eq_false_2 by lia.
    rewrite (bool_decide_eq_false_2 (100 < frequency)) by lia. cbn [andb].
    rewrite (bool_decide_eq_false_2 (50 < frequency)) by lia.
    rewrite (bool_decide_eq_false_2 (frequency < 10)) by lia. reflexivity.
  - intros H. rewrite bool_decide_eq_true_2 by exact H. reflexivity.
  - intros Horder H. rewrite bool_decide_eq_false_2 by lia.
    rewrite (averageIntervalDays_computed _ Horder). fold days.
    repeat split.
    + intros H1. rewrite H1. reflexivity.
    + intros H1 H7. rewrite H1, H7. reflexivity.
    + intros H1 H7 H30. rewrite H1, H7, H30. reflexivity.
    + intros H1 H7 H30. rewrite H1, H7, H30. reflexivity.
Qed.

End AnalysisFacts.

Lemma analysis_cases_witness :
  Specified.newestFirst (env := calendarWorld) dayApart /\
  Specified.meanIntervalInDays (env := calendarWorld) dayApart = 1%float /\
  analyzeBehaviorPattern (env := calendarWorld) dayApart =
    "Low activity wallet - Possibly dormant or new" /\
  analyzeFrequency (env := calendarWorld) dayApart = "Weekly transaction pattern".
Proof.
  assert (Horder : Specified.newestFirst (env := calendarWorld) dayApart)
    by (split; [vm_compute; reflexivity | exact I]).
  split; [exact Horder |]. split; [vm_compute; reflexivity |].
  destruct (analysis_cases (env := calendarWorld) dayApart)
    as (_ & _ & _ & Hlow & _ & _ & Hfrequency).
  split.
  - apply Hlow. cbn. lia.
  - destruct (Hfrequency Horder) as (_ & Hweek & _); [cbn; lia |].
    apply Hweek; vm_compute; reflexivity.
Defined.

(** The claim of C8 is false as stated: three payments a month apart,
    listed oldest first, have an average interval of 30.5 days, which
    the specification calls infrequent, and the helper answers that
    there are several transactions a day. *)
Lemma oldest_first_is_very_active :
  Specified.meanIntervalInDays (env := calendarWorld) (rev monthApart) = 30.5%float /\
  JS.lt 30.5 1 = false /\ JS.lt 30.5 7 = false /\ JS.lt 30.5 30 = false /\
  analyzeFrequency (env := calendarWorld) (rev monthApart) =
    "Multiple transactions per day - Very active".
Proof. repeat split; vm_compute; reflexivity. Qed.

(** The helper on the same payments newest first, on transactions
    without a readable date, and on a single transaction. *)
Example frequency_examples :
  analyzeFrequency (env := calendarWorld) monthApart = "Infrequent transactions" /\
  analyzeFrequency (env := calendarWorld) Ledger.twoPayments = "Infrequent transactions" /\
  analyzeFrequency (env := calendarWorld) (take 1 dayApart) = "Insufficient data".
Proof. repeat split; vm_compute; reflexivity. Qed.
(* ===================================================================== *)
(** ** The layout *)
(* ===================================================================== *)

Section LayoutFacts.
Context {env : Env}.

Lemma fmap_eq_Forall2 {A B} (f : A -> B) (l1 l2 : list A) :
  f <$> l1 = f <$> l2 -> Forall2 (fun a b => f a = f b) l1 l2.
Proof.
  revert l2. induction l1 as [| a l1 IH]; intros [| b l2] H; try discriminate H.
  - constructor.
  - cbn in H. inversion H. constructor; auto.
Qed.

Lemma imap_Forall2 {A B} (R : A -> A -> Prop) (S : B -> B -> Prop) (l1 l2 : list A) :
  Forall2 R l1 l2 ->
  forall f1 f2 : nat -> A -> B,
    (forall i a b, R a b -> S (f1 i a) (f2 i b)) ->
    Forall2 S (imap f1 l1) (imap f2 l2).
Proof.
  induction 1 as [| a b l1 l2 Hab Hl IH]; intros f1 f2 Hf; cbn.
  - constructor.
  - constructor; [apply Hf; exact Hab |]. apply IH. intros i a' b' H'. apply Hf. exact H'.
Qed.

Lemma foldl_Forall2 {A C} (R : A -> A -> Prop) (F1 F2 : C -> A -> C) (l1 l2 : list A) :
  Forall2 R l1 l2 ->
  (forall acc a b, R a b -> F1 acc a = F2 acc b) ->
  forall acc, foldl F1 acc l1 = foldl F2 acc l2.
Proof.
  intros Hl HF. induction Hl as [| a b l1 l2 Hab Hl IH]; intros acc; cbn.
  - reflexivity.
  - rewrite (HF acc a b Hab). apply IH.
Qed.

Lemma initialNodes_same canvas g1 g2 :
  n_id <$> nodes g1 = n_id <$> nodes g2 ->
  samePlacement (initialNodes canvas g1) (initialNodes canvas g2).
Proof.
  intros Hids. unfold initialNodes, samePlacement. destruct canvas as [c |]; [| constructor].
  assert (Hlen : length (nodes g1) = length (nodes g2)).
  { rewrite <- (length_fmap n_id (nodes g1)), Hids. apply length_fmap. }
  rewrite Hlen.
  eapply imap_Forall2; [exact (fmap_eq_Forall2 n_id _ _ Hids) |].
  intros i a b Hab. unfold samePlaced. cbn. auto.
Qed.

Lemma findNode_same l1 l2 id :
  samePlacement l1 l2 ->
  option_Forall2 samePlaced (findNode l1 id) (findNode l2 id).
Proof.
  unfold findNode. induction 1 as [| a b l1 l2 Hab Hl IH]; cbn.
  - constructor.
  - destruct Hab as (Hid & Hrest). rewrite Hid.
    destruct (String.eqb (n_id (np_node b)) id); [| exact IH].
    constructor. split; [exact Hid | exact Hrest].
Qed.

Lemma pullToward_same a b o1 o2 f :
  samePlaced a b -> option_Forall2 samePlaced o1 o2 ->
  pullToward a o1 f = pullToward b o2 f.
Proof.
  intros (_ & Hx & Hy & _) Ho. destruct Ho as [o1 o2 (_ & Hox & Hoy & _) |]; cbn.
  - rewrite Hx, Hy, Hox, Hoy. reflexivity.
  - reflexivity.
Qed.

Lemma repulsionForce_same l1 l2 i a b f :
  samePlacement l1 l2 -> samePlaced a b ->
  repulsionForce l1 i a f = repulsionForce l2 i b f.
Proof.
  intros Hl (_ & Hx & Hy & _). unfold repulsionForce.
  apply foldl_Forall2 with (R := fun p q => fst p = fst q /\ samePlaced (snd p) (snd q)).
  - eapply imap_Forall2; [exact Hl |]. intros j a' b' H'. cbn. auto.
  - intros acc [j a'] [j' b'] [Hj (_ & Hx' & Hy' & _)]. cbn in Hj, Hx', Hy'. subst j'.
    rewrite Hx, Hy, Hx', Hy'. reflexivity.
Qed.

Lemma attractionForce_same e1 e2 l1 l2 a b f :
  Forall2 sameEnds e1 e2 -> samePlacement l1 l2 -> samePlaced a b ->
  attractionForce e1 l1 a f = attractionForce e2 l2 b f.
Proof.
  intros He Hl Hab. unfold attractionForce.
  apply foldl_Forall2 with (R := sameEnds); [exact He |].
  intros acc edge1 edge2 [Hs Ht]. rewrite Hs, Ht.
  destruct Hab as (Hid & Hrest). rewrite Hid.
  assert (Hab : samePlaced a b) by (split; assumption).
  rewrite (pullToward_same a b _ _ acc Hab (findNode_same l1 l2 (e_target edge2) Hl)).
  destruct (String.eqb (e_source edge2) (n_id (np_node b)));
    destruct (String.eqb (e_target edge2) (n_id (np_node b)));
    try reflexivity;
    apply pullToward_same; auto using findNode_same.
Qed.

Lemma gravityForce_same canvas a b f :
  samePlaced a b -> gravityForce canvas a f = gravityForce canvas b f.
Proof.
  intros (_ & Hx & Hy & _). unfold gravityForce. destruct canvas; [| reflexivity].
  rewrite Hx, Hy. reflexivity.
Qed.

Lemma moveNode_same canvas e1 e2 l1 l2 i :
  Forall2 sameEnds e1 e2 -> samePlacement l1 l2 ->
  samePlacement (moveNode canvas e1 l1 i) (moveNode canvas e2 l2 i).
Proof.
  intros He Hl. unfold moveNode.
  destruct (l1 !! i) as [a |] eqn:E1.
  - destruct (Forall2_lookup_l _ _ _ _ _ Hl E1) as (b & E2 & Hab). rewrite E2.
    rewrite (repulsionForce_same l1 l2 i a b _ Hl Hab).
    rewrite (attractionForce_same e1 e2 l1 l2 a b _ He Hl Hab).
    rewrite (gravityForce_same canvas a b _ Hab).
    destruct Hab as (Hid & Hx & Hy & Hvx & Hvy).
    apply Forall2_insert; [exact Hl |].
    unfold samePlaced. cbn. rewrite Hx, Hy, Hvx, Hvy. auto.
  - destruct (l2 !! i) as [b |] eqn:E2; [| exact Hl].
    destruct (Forall2_lookup_r _ _ _ _ _ Hl E2) as (a & E1' & _). congruence.
Qed.

Lemma simulateForces_same canvas e1 e2 l1 l2 :
  Forall2 sameEnds e1 e2 -> samePlacement l1 l2 ->
  samePlacement (simulateForces canvas e1 l1) (simulateForces canvas e2 l2).
Proof.
  intros He Hl. unfold simulateForces.
  rewrite (Forall2_length _ _ _ Hl).
  generalize (seq 0 (length l2)). intros indices. revert l1 l2 Hl.
  induction indices as [| i indices IH]; intros l1 l2 Hl; cbn.
  - exact Hl.
  - apply IH. apply moveNode_same; assumption.
Qed.

Lemma animate_same canvas g1 g2 frames :
  layoutInput g1 = layoutInput g2 ->
  samePlacement (animate canvas g1 frames) (animate canvas g2 frames).
Proof.
  intros H. unfold layoutInput in H. inversion H as [[Hids Hends]].
  assert (He : Forall2 sameEnds (edges g1) (edges g2)).
  { apply fmap_eq_Forall2 in Hends. eapply Forall2_impl; [exact Hends |].
    intros e1 e2 Heq. unfold endsOf in Heq. inversion Heq. split; assumption. }
  unfold animate. induction frames as [| frames IH]; cbn.
  - apply initialNodes_same. exact Hids.
  - apply simulateForces_same; assumption.
Qed.

(** C9: the layout is a function of the graph, the number of frames and
    the canvas alone, and of the graph it reads only the node ids in
    their order and the ends of the edges in theirs.  Two runs on the
    same graph are the case [g1 = g2]; nothing else (no random source,
    no other field of a node or an edge) reaches the positions. *)
Theorem layout_deterministic canvas g1 g2 frames :
  layoutInput g1 = layoutInput g2 ->
  positions (animate canvas g1 frames) = positions (animate canvas g2 frames).
Proof.
  intros H. pose proof (animate_same canvas g1 g2 frames H) as Hs.
  unfold positions. induction Hs as [| a b l1 l2 (Hid & Hx & Hy & _) Hl IH]; cbn.
  - reflexivity.
  - rewrite Hid, Hx, Hy, IH. reflexivity.
Qed.

End LayoutFacts.

Lemma layout_deterministic_witness :
  positions
    (animate (env := Ledger.paymentWorld) Ledger.canvas Ledger.pairGraph 3) =
  positions
    (animate (env := Ledger.paymentWorld) Ledger.canvas Ledger.pairGraphRelabelled 3).
Proof.
  apply (layout_deterministic (env := Ledger.paymentWorld)). reflexivity.
Defined.

(** The layout runs: after one frame the two nodes of [pairGraph] have
    moved from their places on the circle. *)
Example layout_runs :
  fst <$> positions (animate (env := Ledger.paymentWorld) Ledger.canvas Ledger.pairGraph 1) =
  ["A"; "B"].
Proof. vm_compute. reflexivity. Qed.

(* ===================================================================== *)
(** ** Address and hash formats *)
(* ===================================================================== *)

Section FormatFacts.

Import RegExp.

Lemma length_list_ascii s : length (list_ascii_of_string s) = String.length s.
Proof. induction s as [| c s IH]; cbn; [reflexivity | now rewrite IH]. Qed.

Lemma list_ascii_app s1 s2 :
  list_ascii_of_string (s1 +:+ s2) = (list_ascii_of_string s1 ++ list_ascii_of_string s2)%list.
Proof.
  induction s1 as [| c s1 IH]; [reflexivity |].
  change (String c s1 +:+ s2) with (String c (s1 +:+ s2)). cbn. now rewrite IH.
Qed.

Lemma list_ascii_inj s1 s2 : list_ascii_of_string s1 = list_ascii_of_string s2 -> s1 = s2.
Proof.
  intros E. rewrite <- (string_of_list_ascii_of_string s1), E.
  apply string_of_list_ascii_of_string.
Qed.

(** What it takes for a subject to match a pattern that starts with
    [item]: a first piece of an allowed length, made of characters of the
    class, and the rest of the pattern on what follows. *)
Lemma matchesFrom_cons item rest s :
  matchesFrom (item :: rest) s = true <->
  exists k, atLeast item <= k <= length s /\
            (forall n, atMost item = Some n -> k <= n) /\
            forallb (member (chars item)) (take k s) = true /\
            matchesFrom rest (drop k s) = true.
Proof.
  cbn [matchesFrom]. rewrite existsb_exists. unfold pieceLengths. split.
  - intros (k & Hin & Hk). apply in_seq in Hin. apply andb_true_iff in Hk.
    exists k. destruct Hk as [Hall Hrest]. repeat split; try assumption; try lia.
    intros n En. rewrite En in Hin. cbn in Hin. lia.
  - intros (k & Hk & Hmax & Hall & Hrest). exists k. split.
    + apply in_seq. destruct (atMost item) as [n |]; cbn.
      * specialize (Hmax n eq_refl). lia.
      * lia.
    + now rewrite Hall, Hrest.
Qed.

Lemma matchesFrom_nil s : matchesFrom [] s = true <-> s = [].
Proof. destruct s; cbn; split; congruence. Qed.

(** A class matched exactly once. *)
Lemma matchesFrom_single cc rest s :
  matchesFrom (single cc :: rest) s = true <->
  exists c t, s = c :: t /\ member cc c = true /\ matchesFrom rest t = true.
Proof.
  rewrite matchesFrom_cons. cbn [single atLeast atMost chars]. split.
  - intros (k & Hk & Hmax & Hall & Hrest). specialize (Hmax 1 eq_refl).
    assert (k = 1) by lia. subst k. destruct s as [| c t]; [cbn in Hk; lia |].
    exists c, t. cbn in Hall, Hrest. rewrite andb_true_r in Hall. auto.
  - intros (c & t & -> & Hc & Hrest). exists 1. cbn. rewrite Hc.
    repeat split; try lia; try assumption. intros n [= <-]. lia.
Qed.

(** A counted class at the end of a pattern. *)
Lemma matchesFrom_between cc m n s :
  matchesFrom [between cc m n] s = true <->
  m <= length s <= n /\ forallb (member cc) s = true.
Proof.
  rewrite matchesFrom_cons. cbn [between atLeast atMost chars]. split.
  - intros (k & Hk & Hmax & Hall & Hrest). specialize (Hmax n eq_refl).
    apply matchesFrom_nil in Hrest.
    assert (length s <= k).
    { pose proof (length_drop s k) as Hd. rewrite Hrest in Hd. cbn in Hd. lia. }
    rewrite take_ge in Hall by lia. split; [lia | assumption].
  - intros (Hlen & Hall). exists (length s). rewrite take_ge, drop_ge by lia.
    repeat split; try lia; try assumption. intros n' [= <-]. lia.
Qed.

Lemma inRange_one c0 c : inRange c (c0, c0) = true <-> c = c0.
Proof.
  unfold inRange. cbn. rewrite andb_true_iff, !Nat.leb_le. split.
  - intros [H1 H2]. rewrite <- (ascii_nat_embedding c), <- (ascii_nat_embedding c0).
    f_equal. lia.
  - intros ->. lia.
Qed.

Lemma member_lit c0 c : member (oneOf [(c0, c0)]) c = true <-> c = c0.
Proof.
  unfold member. cbn. rewrite orb_false_r. apply inRange_one.
Qed.

Lemma member_two c1 c2 c :
  member (oneOf [(c1, c1); (c2, c2)]) c = true <-> c = c1 \/ c = c2.
Proof.
  unfold member. cbn. rewrite orb_false_r, orb_true_iff, !inRange_one. reflexivity.
Qed.

Lemma matchesFrom_lit c0 rest s :
  matchesFrom (lit c0 :: rest) s = true <->
  exists t, s = c0 :: t /\ matchesFrom rest t = true.
Proof.
  unfold lit. rewrite matchesFrom_single. split.
  - intros (c & t & -> & Hc & Hrest). apply member_lit in Hc. subst c. eauto.
  - intros (t & -> & Hrest). exists c0, t. rewrite (proj2 (member_lit c0 c0) eq_refl). auto.
Qed.

(** The shape of the subjects each pattern accepts. *)
Lemma bitcoinLegacy_shape s :
  matchesFrom bitcoinLegacy s = true <->
  exists c t, s = c :: t /\ (c = "1" \/ c = "3")%char /\
              25 <= length t <= 34 /\ forallb (member base58) t = true.
Proof.
  unfold bitcoinLegacy. rewrite matchesFrom_single.
  setoid_rewrite matchesFrom_between. setoid_rewrite member_two. reflexivity.
Qed.

Lemma bitcoinBech32_shape s :
  matchesFrom bitcoinBech32 s = true <->
  exists t, s = ("b" :: "c" :: "1" :: t)%char /\ 39 <= length t <= 59 /\
            forallb (member (oneOf [("a", "z"); ("0", "9")]%char)) t = true.
Proof.
  unfold bitcoinBech32. rewrite matchesFrom_lit. setoid_rewrite matchesFrom_lit.
  setoid_rewrite matchesFrom_lit. setoid_rewrite matchesFrom_between. split.
  - intros (t1 & -> & t2 & -> & t3 & -> & H). eauto.
  - intros (t & -> & H). eauto 10.
Qed.

Lemma ethereumAddress_shape s :
  matchesFrom ethereumAddress s = true <->
  exists t, s = ("0" :: "x" :: t)%char /\ length t = 40 /\ forallb (member hexDigit) t = true.
Proof.
  unfold ethereumAddress. rewrite matchesFrom_lit. setoid_rewrite matchesFrom_lit.
  setoid_rewrite matchesFrom_between. split.
  - intros (t1 & -> & t2 & -> & H & H'). exists t2. repeat split; [lia | assumption].
  - intros (t & -> & H & H'). eexists. split; [reflexivity |]. eexists. split; [reflexivity |].
    split; [lia | assumption].
Qed.

Lemma tronAddress_shape s :
  matchesFrom tronAddress s = true <->
  exists t, s = ("T" :: t)%char /\ length t = 33 /\
            forallb (member (oneOf [("A", "Z"); ("a", "z"); ("1", "9")]%char)) t = true.
Proof.
  unfold tronAddress. rewrite matchesFrom_lit. setoid_rewrite matchesFrom_between. split.
  - intros (t & -> & H & H'). exists t. repeat split; [lia | assumption].
  - intros (t & -> & H & H'). exists t. repeat split; [lia | lia | assumption].
Qed.

Lemma litecoinAddress_shape s :
  matchesFrom litecoinAddress s = true <->
  exists c t, s = c :: t /\ (c = "L" \/ c = "M")%char /\
              26 <= length t <= 33 /\ forallb (member base58) t = true.
Proof.
  unfold litecoinAddress. rewrite matchesFrom_single.
  setoid_rewrite matchesFrom_between. setoid_rewrite member_two. reflexivity.
Qed.

Lemma bareHash_shape s :
  matchesFrom bareHash s = true <-> length s = 64 /\ forallb (member hexDigit) s = true.
Proof.
  unfold bareHash. rewrite matchesFrom_between. split; intros [H H']; (split; [lia | assumption]).
Qed.

Lemma prefixedHash_shape s :
  matchesFrom prefixedHash s = true <->
  exists t, s = ("0" :: "x" :: t)%char /\ length t = 64 /\ forallb (member hexDigit) t = true.
Proof.
  unfold prefixedHash. rewrite matchesFrom_lit. setoid_rewrite matchesFrom_lit.
  setoid_rewrite matchesFrom_between. split.
  - intros (t1 & -> & t2 & -> & H & H'). exists t2. repeat split; [lia | assumption].
  - intros (t & -> & H & H'). eexists. split; [reflexivity |]. eexists. split; [reflexivity |].
    split; [lia | assumption].
Qed.

End FormatFacts.

Section FormatTheorems.

Import RegExp.

Lemma trimStart_blank l s : blank l = true -> trimStart (l +:+ s) = trimStart s.
Proof.
  unfold blank. induction l as [| c l IH]; [reflexivity |]. cbn [list_ascii_of_string forallb].
  intros [Hc Hl]%andb_true_iff. change (String c l +:+ s) with (String c (l +:+ s)).
  cbn [trimStart]. rewrite Hc. auto.
Qed.

Lemma trimEnd_blank r : blank r = true -> trimEnd r = "".
Proof.
  unfold blank. induction r as [| c r IH]; [reflexivity |]. cbn [list_ascii_of_string forallb].
  intros [Hc Hr]%andb_true_iff. cbn [trimEnd]. rewrite (IH Hr), Hc. reflexivity.
Qed.

Lemma trimEnd_app_blank s r : blank r = true -> trimEnd (s +:+ r) = trimEnd s.
Proof.
  intros Hr. induction s as [| c s IH]; [apply trimEnd_blank, Hr |].
  change (String c s +:+ r) with (String c (s +:+ r)). cbn [trimEnd]. now rewrite IH.
Qed.

Lemma trimStart_blank_all r : blank r = true -> trimStart r = "".
Proof.
  unfold blank. induction r as [| c r IH]; [reflexivity |]. cbn [list_ascii_of_string forallb].
  intros [Hc Hr]%andb_true_iff. cbn [trimStart]. rewrite Hc. auto.
Qed.

(** White space around a string is stripped, whatever is inside. *)
Lemma trim_outer l s r :
  blank l = true -> blank r = true -> trim (l +:+ s +:+ r) = trim s.
Proof.
  intros Hl Hr. unfold trim. rewrite trimStart_blank by exact Hl. clear l Hl.
  induction s as [| c s IH].
  - change ("" +:+ r) with r. rewrite trimStart_blank_all by exact Hr. reflexivity.
  - change (String c s +:+ r) with (String c (s +:+ r)). cbn [trimStart].
    destruct (isWhiteSpace c); [exact IH |].
    change (String c (s +:+ r)) with (String c s +:+ r).
    apply trimEnd_app_blank, Hr.
Qed.

(** The first character of an address of each kind. *)
Lemma bitcoin_first s :
  test bitcoinLegacy s = true \/ test bitcoinBech32 s = true ->
  exists c t, s = String c t /\ (c = "1" \/ c = "3" \/ c = "b")%char /\
              (25 <= String.length t <= 34 \/ 41 <= String.length t <= 61).
Proof.
  unfold test. rewrite bitcoinLegacy_shape, bitcoinBech32_shape.
  destruct s as [| c t]; cbn [list_ascii_of_string].
  - intros [(c & t & H & _) | (t & H & _)]; discriminate H.
  - intros [(c' & t' & H & Hc & Hlen & _) | (t' & H & Hlen & _)];
      inversion H as [[Hc0 Ht0]]; (eexists _, _; split; [reflexivity |]);
      rewrite <- (length_list_ascii t), Ht0.
    + split; [subst; tauto | lia].
    + split; [tauto |]. right. cbn. lia.
Qed.

Lemma ethereum_first s :
  test ethereumAddress s = true ->
  exists t, s = String "0" t /\ String.length t = 41.
Proof.
  unfold test. rewrite ethereumAddress_shape.
  destruct s as [| c t]; cbn [list_ascii_of_string]; intros (t' & H & Hlen & _);
    [discriminate H |].
  inversion H as [[Hc0 Ht0]]. eexists. split; [reflexivity |].
  rewrite <- (length_list_ascii t), Ht0. cbn. lia.
Qed.

Lemma tron_first s :
  test tronAddress s = true -> exists t, s = String "T" t /\ String.length t = 33.
Proof.
  unfold test. rewrite tronAddress_shape.
  destruct s as [| c t]; cbn [list_ascii_of_string]; intros (t' & H & Hlen & _);
    [discriminate H |].
  inversion H as [[Hc0 Ht0]]. eexists. split; [reflexivity |].
  rewrite <- (length_list_ascii t), Ht0. exact Hlen.
Qed.

Lemma litecoin_first s :
  test litecoinAddress s = true ->
  exists c t, s = String c t /\ (c = "L" \/ c = "M")%char /\ 26 <= String.length t <= 33.
Proof.
  unfold test. rewrite litecoinAddress_shape.
  destruct s as [| c t]; cbn [list_ascii_of_string]; intros (c' & t' & H & Hc & Hlen & _);
    [discriminate H |].
  inversion H as [[Hc0 Ht0]]. eexists _, _. split; [reflexivity |].
  rewrite <- (length_list_ascii t), Ht0. subst. auto.
Qed.

Lemma bareHash_length s : test bareHash s = true -> String.length s = 64.
Proof.
  unfold test. rewrite bareHash_shape, length_list_ascii. tauto.
Qed.

Lemma prefixedHash_length s :
  test prefixedHash s = true -> exists t, s = String "0" t /\ String.length t = 65.
Proof.
  unfold test. rewrite prefixedHash_shape.
  destruct s as [| c t]; cbn [list_ascii_of_string]; intros (t' & H & Hlen & _);
    [discriminate H |].
  inversion H as [[Hc0 Ht0]]. eexists. split; [reflexivity |].
  rewrite <- (length_list_ascii t), Ht0. cbn. lia.
Qed.

(** No string is an address of two kinds: the first character tells the
    kinds apart. *)
Lemma address_kinds_exclusive s :
  let b := test bitcoinLegacy s || test bitcoinBech32 s in
  let e := test ethereumAddress s in
  let t := test tronAddress s in
  let l := test litecoinAddress s in
  (b = true -> e = false /\ t = false /\ l = false) /\
  (e = true -> t = false /\ l = false) /\
  (t = true -> l = false).
Proof.
  cbv zeta. rewrite orb_true_iff.
  split; [| split].
  - intros (c & r & -> & Hc & _)%bitcoin_first. repeat split.
    + destruct (test ethereumAddress _) eqn:E; [| reflexivity].
      apply ethereum_first in E as (r' & E & _). inversion E; subst.
      destruct Hc as [Hc | [Hc | Hc]]; discriminate Hc.
    + destruct (test tronAddress _) eqn:E; [| reflexivity].
      apply tron_first in E as (r' & E & _). inversion E; subst.
      destruct Hc as [Hc | [Hc | Hc]]; discriminate Hc.
    + destruct (test litecoinAddress _) eqn:E; [| reflexivity].
      apply litecoin_first in E as (c' & r' & E & Hc' & _). inversion E; subst.
      destruct Hc as [Hc | [Hc | Hc]], Hc' as [Hc' | Hc']; subst; discriminate.
  - intros (r & -> & _)%ethereum_first. split.
    + destruct (test tronAddress _) eqn:E; [| reflexivity].
      apply tron_first in E as (r' & E & _). discriminate E.
    + destruct (test litecoinAddress _) eqn:E; [| reflexivity].
      apply litecoin_first in E as (c' & r' & E & Hc' & _). inversion E; subst.
      destruct Hc' as [Hc' | Hc']; discriminate Hc'.
  - intros (r & -> & _)%tron_first.
    destruct (test litecoinAddress _) eqn:E; [| reflexivity].
    apply litecoin_first in E as (c' & r' & E & Hc' & _). inversion E; subst.
    destruct Hc' as [Hc' | Hc']; discriminate Hc'.
Qed.

(** X1: The address formats are mutually exclusive, so the order in which
    [detectNetworkFromAddress] tries them decides nothing: it answers a
    network exactly when the trimmed address matches that network's
    pattern, and 'unknown' exactly when it matches none. *)
Theorem detected_network_exact (address : string) :
  let s := trim address in
  (detectNetworkFromAddress address = "bitcoin" <->
     test bitcoinLegacy s = true \/ test bitcoinBech32 s = true) /\
  (detectNetworkFromAddress address = "ethereum" <-> test ethereumAddress s = true) /\
  (detectNetworkFromAddress address = "tron" <-> test tronAddress s = true) /\
  (detectNetworkFromAddress address = "litecoin" <-> test litecoinAddress s = true) /\
  (detectNetworkFromAddress address = "unknown" <->
     test bitcoinLegacy s = false /\ test bitcoinBech32 s = false /\
     test ethereumAddress s = false /\ test tronAddress s = false /\
     test litecoinAddress s = false).
Proof.
  cbv zeta. unfold detectNetworkFromAddress.
  pose proof (address_kinds_exclusive (trim address)) as (Hb & He & Ht). cbv zeta in *.
  rewrite <- orb_true_iff.
  destruct (test bitcoinLegacy (trim address) || test bitcoinBech32 (trim address)) eqn:Eb.
  - destruct (Hb eq_refl) as (-> & -> & ->).
    apply orb_true_iff in Eb.
    repeat split; try discriminate; try tauto.
    + intros (E1 & E2 & _). destruct Eb; congruence.
  - apply orb_false_iff in Eb as [E1 E2].
    destruct (test ethereumAddress (trim address)) eqn:Ee.
    + destruct (He eq_refl) as (-> & ->). repeat split; try discriminate; try tauto.
      intros (_ & _ & H & _). discriminate H.
    + destruct (test tronAddress (trim address)) eqn:Et.
      * rewrite (Ht eq_refl). repeat split; try discriminate; try tauto.
        intros (_ & _ & _ & H & _). discriminate H.
      * destruct (test litecoinAddress (trim address)) eqn:El;
          repeat split; try discriminate; try tauto.
        intros (_ & _ & _ & _ & H). discriminate H.
Qed.

(** What [detectNetworkFromAddress] answers, with the length of the
    trimmed address in each case. *)
Lemma detected_network_length address :
  let n := String.length (trim address) in
  (detectNetworkFromAddress address = "bitcoin" /\ (26 <= n <= 35 \/ 42 <= n <= 62)) \/
  (detectNetworkFromAddress address = "ethereum" /\ n = 42) \/
  (detectNetworkFromAddress address = "tron" /\ n = 34) \/
  (detectNetworkFromAddress address = "litecoin" /\ 27 <= n <= 34) \/
  detectNetworkFromAddress address = "unknown".
Proof.
  cbv zeta. unfold detectNetworkFromAddress.
  destruct (test bitcoinLegacy (trim address) || test bitcoinBech32 (trim address)) eqn:Eb.
  { left. split; [reflexivity |]. apply orb_true_iff, bitcoin_first in Eb.
    destruct Eb as (c & t & -> & _ & Hlen). cbn [String.length]. lia. }
  destruct (test ethereumAddress (trim address)) eqn:Ee.
  { right; left. split; [reflexivity |]. apply ethereum_first in Ee as (t & -> & Hlen).
    cbn [String.length]. lia. }
  destruct (test tronAddress (trim address)) eqn:Et.
  { right; right; left. split; [reflexivity |]. apply tron_first in Et as (t & -> & Hlen).
    cbn [String.length]. lia. }
  destruct (test litecoinAddress (trim address)) eqn:El.
  { right; right; right; left. split; [reflexivity |].
    apply litecoin_first in El as (c & t & -> & _ & Hlen). cbn [String.length]. lia. }
  right; right; right; right. reflexivity.
Qed.

Lemma isValidTransactionHash_bare hash :
  isValidTransactionHash hash "bitcoin" = test bareHash (trim hash) /\
  isValidTransactionHash hash "litecoin" = test bareHash (trim hash).
Proof. split; reflexivity. Qed.

Lemma isValidTransactionHash_prefixed hash :
  isValidTransactionHash hash "ethereum" = test prefixedHash (trim hash) /\
  isValidTransactionHash hash "tron" = test prefixedHash (trim hash).
Proof. split; reflexivity. Qed.

Lemma address_is_no_hash (query : string) :
  isValidTransactionHash query (detectNetworkFromAddress query) = false.
Proof.
  pose proof (detected_network_length query) as H. cbv zeta in H.
  destruct (isValidTransactionHash_bare query) as [Hb Hl].
  destruct (isValidTransactionHash_prefixed query) as [He Ht].
  destruct H as [[-> Hn] | [[-> Hn] | [[-> Hn] | [[-> Hn] | ->]]]].
  - rewrite Hb. destruct (test bareHash (trim query)) eqn:E; [| reflexivity].
    apply bareHash_length in E. lia.
  - rewrite He. destruct (test prefixedHash (trim query)) eqn:E; [| reflexivity].
    apply prefixedHash_length in E as (t & E & Hlen). rewrite E in Hn. cbn in Hn. lia.
  - rewrite Ht. destruct (test prefixedHash (trim query)) eqn:E; [| reflexivity].
    apply prefixedHash_length in E as (t & E & Hlen). rewrite E in Hn. cbn in Hn. lia.
  - rewrite Hl. destruct (test bareHash (trim query)) eqn:E; [| reflexivity].
    apply bareHash_length in E. lia.
  - reflexivity.
Qed.

(** X2: No input is both an address and a transaction hash: whatever network
    [detectNetworkFromAddress] reads off a string, the string is not a
    valid transaction hash of that network (addresses are at most 62
    characters long, hashes 64 or 66). *)
Theorem detected_network_rejects_hash (query : string) :
  isValidTransactionHash query (detectNetworkFromAddress query) = false.
Proof. apply address_is_no_hash. Qed.

(** X3: White space around the input changes neither the network detected
    nor the verdict on a transaction hash. *)
Theorem detection_ignores_outer_whitespace (l r s network : string) :
  blank l = true -> blank r = true ->
  detectNetworkFromAddress (l +:+ s +:+ r) = detectNetworkFromAddress s /\
  isValidTransactionHash (l +:+ s +:+ r) network = isValidTransactionHash s network.
Proof.
  intros Hl Hr. unfold detectNetworkFromAddress, isValidTransactionHash.
  rewrite (trim_outer l s r Hl Hr). split; reflexivity.
Qed.

Lemma detection_ignores_outer_whitespace_witness :
  detectNetworkFromAddress
    (" " +:+ "0x52908400098527886E0F7030069857D2E4169EE7" +:+ String "010" "") =
  detectNetworkFromAddress "0x52908400098527886E0F7030069857D2E4169EE7" /\
  isValidTransactionHash
    (" " +:+ "0x52908400098527886E0F7030069857D2E4169EE7" +:+ String "010" "") "ethereum" =
  isValidTransactionHash "0x52908400098527886E0F7030069857D2E4169EE7" "ethereum".
Proof.
  apply (detection_ignores_outer_whitespace
           " " (String "010" "") "0x52908400098527886E0F7030069857D2E4169EE7" "ethereum");
    reflexivity.
Defined.

(** X4: A hash that is valid for a network is valid for the whole family of
    that network and for no other: 64 hexadecimal digits for bitcoin and
    litecoin alike, [0x] and 64 hexadecimal digits for ethereum and tron
    alike; no other network has valid hashes. *)
Theorem valid_hash_families (hash network : string) :
  isValidTransactionHash hash network = true ->
  ((network = "bitcoin" \/ network = "litecoin") /\
   String.length (trim hash) = 64 /\ allHex (trim hash) = true /\
   isValidTransactionHash hash "bitcoin" = true /\
   isValidTransactionHash hash "litecoin" = true /\
   isValidTransactionHash hash "ethereum" = false /\
   isValidTransactionHash hash "tron" = false) \/
  ((network = "ethereum" \/ network = "tron") /\
   (exists digits, trim hash = "0x" +:+ digits /\ String.length digits = 64 /\
                   allHex digits = true) /\
   isValidTransactionHash hash "ethereum" = true /\
   isValidTransactionHash hash "tron" = true /\
   isValidTransactionHash hash "bitcoin" = false /\
   isValidTransactionHash hash "litecoin" = false).
Proof.
  destruct (isValidTransactionHash_bare hash) as [Hb Hl].
  destruct (isValidTransactionHash_prefixed hash) as [He Ht].
  rewrite Hb, Hl, He, Ht. unfold isValidTransactionHash.
  assert (Hx : test bareHash (trim hash) = true -> test prefixedHash (trim hash) = false).
  { intros E1. destruct (test prefixedHash (trim hash)) eqn:E2; [| reflexivity].
    apply bareHash_length in E1. apply prefixedHash_length in E2 as (t & E2 & Hlen).
    rewrite E2 in E1. cbn in E1. lia. }
  destruct (String.eqb network "bitcoin" || String.eqb network "litecoin") eqn:E1.
  - intros E. left. split.
    { apply orb_true_iff in E1. rewrite !String.eqb_eq in E1. exact E1. }
    split; [apply bareHash_length, E |]. split.
    { unfold test in E. apply bareHash_shape in E. apply E. }
    rewrite E, (Hx E). auto.
  - destruct (String.eqb network "ethereum" || String.eqb network "tron") eqn:E2;
      [| discriminate].
    intros E. right. split.
    { apply orb_true_iff in E2. rewrite !String.eqb_eq in E2. exact E2. }
    split.
    { unfold test in E. apply prefixedHash_shape in E as (t & Et & Hlen & Hall).
      exists (string_of_list_ascii t).
      rewrite <- (length_list_ascii (string_of_list_ascii t)).
      unfold allHex. rewrite list_ascii_of_string_of_list_ascii.
      split; [| auto]. apply list_ascii_inj.
      change ("0x" +:+ string_of_list_ascii t)
        with (String "0" (String "x" (string_of_list_ascii t))).
      cbn [list_ascii_of_string]. rewrite list_ascii_of_string_of_list_ascii. exact Et. }
    rewrite E. split; [reflexivity |]. split; [reflexivity |].
    destruct (test bareHash (trim hash)) eqn:E3; [| auto].
    rewrite (Hx eq_refl) in E. discriminate E.
Qed.

Lemma valid_hash_families_witness :
  isValidTransactionHash
    "0x4a5e1e4baab89f3a32518a88c31bc87f618f76673e2cc77ab2127b7afdeda33b" "tron" = true /\
  isValidTransactionHash
    "0x4a5e1e4baab89f3a32518a88c31bc87f618f76673e2cc77ab2127b7afdeda33b" "ethereum" = true /\
  isValidTransactionHash
    "0x4a5e1e4baab89f3a32518a88c31bc87f618f76673e2cc77ab2127b7afdeda33b" "bitcoin" = false.
Proof.
  split; [reflexivity |].
  destruct (valid_hash_families
              "0x4a5e1e4baab89f3a32518a88c31bc87f618f76673e2cc77ab2127b7afdeda33b" "tron"
              eq_refl)
    as [(_ & _ & _ & _ & _ & H & _) | (_ & _ & He & _ & Hb & _)].
  - discriminate H.
  - split; assumption.
Defined.

End FormatTheorems.

Section SearchTheorems.
Context {env : Env} {txProvider : TxProvider}.

(** X5: The transaction search of the investigator never reaches
    [getTransactionDetails]: the network is read off the query with
    [detectNetworkFromAddress], which knows addresses only, so a query is
    either of no known network or not a valid hash of the network found.
    The search shows one of three error toasts and nothing else, makes
    no request and leaves the caches as they were; a blank query leaves
    the cells of the component as they were, every other query clears
    the two results on display and leaves [isSearching] false. *)
Theorem transaction_search_never_looks_up (searchQuery : string)
  (searchOptions : SearchOptions) (ui : ComponentState) (dw : DetailsWorld) :
  exists message ui',
    handleSearch searchQuery TransactionSearch searchOptions ui dw =
      (Normal ([ToastError message], ui'), dw) /\
    (message = "Please enter a wallet address or transaction hash" /\ ui' = ui \/
     (message = "Could not detect blockchain network" \/
      message = "Invalid transaction hash format") /\ ui' = idle).
Proof.
  unfold handleSearch. destruct (String.eqb (trim searchQuery) "").
  { eexists _, ui. split; [reflexivity | left; split; reflexivity]. }
  cbn [andb]. destruct (String.eqb (detectNetworkFromAddress searchQuery) "unknown").
  - eexists _, _. split; [reflexivity |]. right. split; [auto | reflexivity].
  - rewrite address_is_no_hash. cbn [negb].
    eexists _, _. split; [reflexivity |]. right. split; [auto | reflexivity].
Qed.

End SearchTheorems.

(* ===================================================================== *)
(** ** getTransactionDetails and the networks without a provider *)
(* ===================================================================== *)

Section DetailsTheorems.
Context {env : Env} {txProvider : TxProvider}.

Lemma inWorld_run {A} (m : M A) dw c w' :
  m (world dw) = (c, w') ->
  inWorld m dw = (c, {| world := w'; detailsCache := detailsCache dw |}).
Proof. intros E. unfold inWorld. rewrite E. reflexivity. Qed.

Lemma detailsWorld_eta dw : {| world := world dw; detailsCache := detailsCache dw |} = dw.
Proof. destruct dw; reflexivity. Qed.

Lemma getBitcoinTransaction_run txHash w :
  getBitcoinTransaction txHash w =
  (match match blockchainInfoRawTx (tick w) txHash with
         | Ok data => transactionOf txHash data
         | _ => None
         end with
   | Some tx => Normal tx
   | None => Throw "Failed to fetch Bitcoin transaction"
   end, nextTick w).
Proof.
  unfold getBitcoinTransaction. erewrite bind_normal by reflexivity.
  destruct (match blockchainInfoRawTx (tick w) txHash with
            | Ok data => transactionOf txHash data
            | _ => None
            end); reflexivity.
Qed.

(** X7: [getTransactionDetails] never throws, makes at most one request, and
    an answer of [null] leaves the cache as it was: only transactions
    that were found are stored. *)
Theorem getTransactionDetails_never_throws (txHash network : string) (dw : DetailsWorld) :
  exists r dw',
    getTransactionDetails txHash network dw = (Normal r, dw') /\
    tick (world dw) <= tick (world dw') <= S (tick (world dw)) /\
    walletCache (world dw') = walletCache (world dw) /\
    txsCache (world dw') = txsCache (world dw) /\
    (r = None -> detailsCache dw' = detailsCache dw).
Proof.
  unfold getTransactionDetails.
  destruct (cachedDetails _ dw) as [c |].
  { exists (Some c), dw. split; [reflexivity |]. repeat split; try lia; try discriminate. }
  destruct (String.eqb network "bitcoin"); [| destruct (String.eqb network "ethereum")].
  - unfold inWorld, mbind, M_bind. rewrite getBitcoinTransaction_run.
    destruct (match blockchainInfoRawTx (tick (world dw)) txHash with
              | Ok data => transactionOf txHash data
              | _ => None
              end) as [tx |].
    + eexists _, _. split; [reflexivity |]. cbn. repeat split; try lia; try discriminate.
    + eexists _, _. split; [reflexivity |]. cbn. repeat split; lia.
  - eexists _, _. split; [reflexivity |]. cbn. repeat split; lia.
  - eexists _, _. split; [reflexivity |]. cbn. repeat split; lia.
Qed.

(** X8: Only bitcoin transactions can be looked up: for every other network,
    ethereum included, a lookup that the cache does not answer gives
    [null] without a request and leaves the state as it was. *)
Theorem getTransactionDetails_other_networks (txHash network : string) (dw : DetailsWorld) :
  network <> "bitcoin" ->
  cachedDetails (detailsKey network txHash) dw = None ->
  getTransactionDetails txHash network dw = (Normal None, dw).
Proof.
  intros Hn Hc. unfold getTransactionDetails. fold (detailsKey network txHash). rewrite Hc.
  apply String.eqb_neq in Hn. rewrite Hn.
  destruct (String.eqb network "ethereum");
    unfold inWorld, getEthereumTransaction, mbind, M_bind, throw, mret, M_ret;
    rewrite detailsWorld_eta; reflexivity.
Qed.

(** X9: What a transaction that was fetched looks like: the network is
    bitcoin, one request was made, the hash is the one that was asked
    for, no confirmation is ever counted and no amount is converted; the
    transaction is stored under its key for ten minutes. *)
Theorem getTransactionDetails_found (txHash network : string) (dw dw' : DetailsWorld)
  (tx : CryptoTransaction) :
  cachedDetails (detailsKey network txHash) dw = None ->
  getTransactionDetails txHash network dw = (Normal (Some tx), dw') ->
  network = "bitcoin" /\
  (exists data, blockchainInfoRawTx (tick (world dw)) txHash = Ok data /\
                transactionOf txHash data = Some tx) /\
  tx_hash tx = txHash /\ tx_confirmations tx = 0%float /\
  tx_valueUSD tx = 0%float /\ tx_feeUSD tx = 0%float /\
  tick (world dw') = S (tick (world dw)) /\
  detailsCache dw' =
    <[detailsKey network txHash :=
        (tx, (dateNow (S (tick (world dw))) + 600000)%Z)]> (detailsCache dw).
Proof.
  intros Hc. unfold getTransactionDetails. fold (detailsKey network txHash). rewrite Hc.
  destruct (String.eqb network "bitcoin") eqn:En;
    [| destruct (String.eqb network "ethereum"); cbn; intros H; discriminate H].
  apply String.eqb_eq in En. subst network.
  unfold inWorld, mbind, M_bind. rewrite getBitcoinTransaction_run.
  destruct (blockchainInfoRawTx (tick (world dw)) txHash) as [| | data] eqn:Er;
    try (cbn; intros H; discriminate H).
  destruct (transactionOf txHash data) as [tx0 |] eqn:Et; [| cbn; intros H; discriminate H].
  cbn. intros H. inversion H; subst tx0 dw'. clear H.
  split; [reflexivity |]. split; [eauto |].
  unfold transactionOf in Et. destruct (toISOString _); [| discriminate Et].
  cbn in Et. inversion Et; subst tx. cbn. repeat split.
Qed.

End DetailsTheorems.

Lemma getTransactionDetails_other_networks_witness :
  getTransactionDetails (env := Ledger.paymentWorld) (txProvider := oneTransaction)
    "0x4a5e1e4baab89f3a32518a88c31bc87f618f76673e2cc77ab2127b7afdeda33b" "ethereum"
    emptyDetails = (Normal None, emptyDetails).
Proof.
  apply (getTransactionDetails_other_networks (env := Ledger.paymentWorld)
           (txProvider := oneTransaction)).
  - discriminate.
  - reflexivity.
Defined.

Lemma getTransactionDetails_found_witness :
  exists tx dw',
    getTransactionDetails (env := Ledger.paymentWorld) (txProvider := oneTransaction)
      "t1" "bitcoin" emptyDetails = (Normal (Some tx), dw') /\
    tx_hash tx = "t1" /\ tx_confirmations tx = 0%float /\ tick (world dw') = 1.
Proof.
  eexists _, _. split; [vm_compute; reflexivity |].
  edestruct (getTransactionDetails_found (env := Ledger.paymentWorld)
               (txProvider := oneTransaction) "t1" "bitcoin" emptyDetails)
    as (_ & _ & Hh & Hc & _ & _ & Ht & _).
  - reflexivity.
  - vm_compute. reflexivity.
  - split; [exact Hh |]. split; [exact Hc | exact Ht].
Defined.

Section OtherNetworks.
Context {env : Env}.

Lemma getWalletInfo_other_networks address network w :
  network <> "bitcoin" -> network <> "ethereum" ->
  uncachedWallet network address w ->
  getWalletInfo address network w = (Normal None, w).
Proof.
  intros Hb He Hc. unfold getWalletInfo. fold (walletKey network address).
  erewrite bind_normal by reflexivity. cbn [store Cacheable_wallet].
  unfold uncachedWallet in Hc.
  assert (Hmiss : match walletCache w !! walletKey network address with
                  | Some (v, expiry) => if (dateNow (tick w) <? expiry)%Z then Some v else None
                  | None => None
                  end = None).
  { destruct (walletCache w !! _) as [[v expiry] |]; [| reflexivity].
    destruct (Z.ltb_spec (dateNow (tick w)) expiry); [lia | reflexivity]. }
  rewrite Hmiss. apply String.eqb_neq in Hb, He. rewrite Hb, He. reflexivity.
Qed.

Lemma investigateWallet_missing address network options w w1 :
  getWalletInfo address network w = (Normal None, w1) ->
  investigateWallet address network options w = (Normal None, w1).
Proof.
  intros E. unfold investigateWallet.
  erewrite tryCatch_throw by (erewrite bind_normal by exact E; reflexivity).
  reflexivity.
Qed.

(** X10: Only bitcoin and ethereum wallets can be investigated: for every
    other network name, 'tron' and 'litecoin' included, an investigation
    that the cache does not answer gives [null] without a single request
    and leaves the state as it was. *)
Theorem investigateWallet_other_networks (address network : string)
  (options : InvestigationOptions) (w : World) :
  network <> "bitcoin" -> network <> "ethereum" ->
  uncachedWallet network address w ->
  getWalletInfo address network w = (Normal None, w) /\
  investigateWallet address network options w = (Normal None, w).
Proof.
  intros Hb He Hc.
  pose proof (getWalletInfo_other_networks address network w Hb He Hc) as E.
  split; [exact E | apply investigateWallet_missing, E].
Qed.

End OtherNetworks.

Lemma investigateWallet_other_networks_witness :
  investigateWallet (env := Ledger.paymentWorld)
    "TJRabPrwbZy45sbavfcjinPJC18kjpRTv8" "tron" Ledger.defaults emptyWorld =
  (Normal None, emptyWorld).
Proof.
  apply (investigateWallet_other_networks (env := Ledger.paymentWorld)
           "TJRabPrwbZy45sbavfcjinPJC18kjpRTv8" "tron" Ledger.defaults emptyWorld).
  - discriminate.
  - discriminate.
  - exact I.
Defined.

Section WalletSearch.
Context {env : Env} {txProvider : TxProvider}.

Lemma trim_empty_unknown query : trim query = "" -> detectNetworkFromAddress query = "unknown".
Proof. intros E. unfold detectNetworkFromAddress. rewrite E. reflexivity. Qed.

(** X6: The wallet search of the investigator on an address of a network
    that is recognised and has no provider: an address that
    [detectNetworkFromAddress] reads as tron or litecoin always ends in
    'Failed to investigate wallet', without a request; no search is
    left running and no result is left on display. *)
Theorem wallet_search_without_provider (searchQuery : string)
  (searchOptions : SearchOptions) (ui : ComponentState) (dw : DetailsWorld) :
  detectNetworkFromAddress searchQuery = "tron" \/
  detectNetworkFromAddress searchQuery = "litecoin" ->
  uncachedWallet (detectNetworkFromAddress searchQuery) searchQuery (world dw) ->
  handleSearch searchQuery WalletSearch searchOptions ui dw =
    (Normal ([ToastInfo ("Investigating " +:+ detectNetworkFromAddress searchQuery +:+
                         " wallet...");
              ToastError "Failed to investigate wallet"], idle), dw).
Proof.
  intros Hn Hc. unfold handleSearch.
  destruct (String.eqb (trim searchQuery) "") eqn:Et.
  { apply String.eqb_eq, trim_empty_unknown in Et. rewrite Et in Hn.
    destruct Hn as [Hn | Hn]; discriminate Hn. }
  assert (Hu : String.eqb (detectNetworkFromAddress searchQuery) "unknown" = false)
    by (destruct Hn as [-> | ->]; reflexivity).
  rewrite Hu. cbn [andb negb].
  erewrite inWorld_run.
  2: { apply investigateWallet_missing, getWalletInfo_other_networks; [| | exact Hc];
       destruct Hn as [-> | ->]; discriminate. }
  rewrite detailsWorld_eta. reflexivity.
Qed.

End WalletSearch.

Lemma wallet_search_without_provider_witness :
  handleSearch (env := Ledger.paymentWorld) (txProvider := oneTransaction)
    "LM2WMpR1Rp6j3Sa59cMXMs1SPzj9eXpGc1" WalletSearch initialOptions shown emptyDetails =
  (Normal ([ToastInfo "Investigating litecoin wallet...";
            ToastError "Failed to investigate wallet"], idle), emptyDetails).
Proof.
  apply (wallet_search_without_provider (env := Ledger.paymentWorld)
           (txProvider := oneTransaction)).
  - right. vm_compute. reflexivity.
  - vm_compute. exact I.
Defined.

(** The detector on an address of each kind, on a transaction hash and
    on an address with white space around it. *)
Example detection_examples :
  detectNetworkFromAddress "1A1zP1eP5QGefi2DMPTfTL5SLmv7DivfNa" = "bitcoin" /\
  detectNetworkFromAddress "bc1qar0srrr7xfkvy5l643lydnw9re59gtzzwf5mdq" = "bitcoin" /\
  detectNetworkFromAddress "0x52908400098527886E0F7030069857D2E4169EE7" = "ethereum" /\
  detectNetworkFromAddress "TJRabPrwbZy45sbavfcjinPJC18kjpRTv8" = "tron" /\
  detectNetworkFromAddress "LM2WMpR1Rp6j3Sa59cMXMs1SPzj9eXpGc1" = "litecoin" /\
  detectNetworkFromAddress
    "4a5e1e4baab89f3a32518a88c31bc87f618f76673e2cc77ab2127b7afdeda33b" = "unknown" /\
  detectNetworkFromAddress "  1A1zP1eP5QGefi2DMPTfTL5SLmv7DivfNa " = "bitcoin" /\
  detectNetworkFromAddress "1A1zP1eP5QGefi2DMPTfTL5SLmv7DivfN0" = "unknown".
Proof. repeat split; vm_compute; reflexivity. Qed.

(* ===================================================================== *)
(** ** The shape of the graph *)
(* ===================================================================== *)

Section GraphShape.
Context {env : Env}.
Variable network : string.

Lemma within_mono (edges1 edges2 : list GraphEdge) root k a :
  (forall e, e ∈ edges1 -> e ∈ edges2) ->
  Within edges1 root k a -> Within edges2 root k a.
Proof.
  intros Hsub. induction 1 as [| k e He Hw IH]; [constructor |].
  apply within_step; auto.
Qed.

(** The counterparts of an address in a transaction are other addresses,
    and never the placeholder. *)
Lemma connectedAddresses_other address tx c :
  c ∈ connectedAddresses address tx -> c <> address /\ c <> "Unknown".
Proof.
  unfold connectedAddresses.
  set (keep := fun a : string => negb (String.eqb a address) && negb (String.eqb a "Unknown")).
  assert (Hkeep : forall a, keep a = true -> a <> address /\ a <> "Unknown").
  { intros a. unfold keep. rewrite andb_true_iff, !negb_true_iff, !String.eqb_neq. tauto. }
  assert (Hfold : forall (A : Type) (addr : A -> string) (l : list A) s,
             (forall a, a ∈ s -> keep a = true) ->
             forall a, a ∈ foldl (fun s i => if keep (addr i) then setAdd s (addr i) else s) s l ->
                       keep a = true).
  { intros A addr l. induction l as [| i l IH]; intros s Hs a; cbn; [apply Hs |].
    apply IH. destruct (keep (addr i)) eqn:Ek; [| exact Hs].
    intros b. unfold setAdd. case_bool_decide; [apply Hs |].
    rewrite elem_of_app, list_elem_of_singleton. intros [Hb | ->]; [apply Hs, Hb | exact Ek]. }
  intros Hc. apply Hkeep.
  eapply (Hfold _ out_address); [| exact Hc].
  apply (Hfold _ in_address). intros a Ha. apply elem_of_nil in Ha. contradiction.
Qed.

Lemma analyzeConnections_proper address transactions :
  Forall (properEntry address) (analyzeConnections address transactions).
Proof.
  apply Forall_forall. intros [c data] Hin.
  destruct (analyzeConnections_spec address transactions c data Hin) as [Hd Hne].
  destruct (involving address c transactions) as [| tx rest] eqn:Ei; [contradiction |].
  assert (Htx : tx ∈ involving address c transactions) by (rewrite Ei; apply elem_of_cons; auto).
  unfold involving in Htx. apply list_elem_of_filter in Htx as [Hc _].
  destruct (connectedAddresses_other address tx c Hc) as [H1 H2].
  unfold properEntry. cbn. subst data. cbn. repeat split; auto. lia.
Qed.

Lemma makeEdge_proper address connAddr data :
  properEntry address (connAddr, data) -> properEdge (makeEdge address connAddr data).
Proof.
  intros (H1 & H2 & H3). unfold properEdge. cbn in *. repeat split; auto.
Qed.

Lemma addConnection_shape root depth address level st entry :
  Shape root depth st -> Within (st_edges st) root level address ->
  (Z.of_nat level < depth)%Z -> properEntry address entry ->
  always (addConnection network address level st entry)
         (fun st' => Shape root depth st' /\ Within (st_edges st') root level address).
Proof.
  intros (Hnd & Hv & Hn & Hq & He) Hw Hlevel Hentry.
  destruct entry as [connAddr data]. unfold addConnection.
  eapply always_bind with
    (P := fun st1 =>
            st_edges st1 = st_edges st /\
            NoDup (addresses (st_nodes st1)) /\
            (forall a, a ∈ st_visited st1 <-> a ∈ addresses (st_nodes st1)) /\
            (forall n, n ∈ st_nodes st1 ->
               n_id n = n_address n /\
               (n_address n = connAddr \/
                exists k, (Z.of_nat k <= Z.max 0 depth)%Z /\
                          Within (st_edges st) root k (n_address n))) /\
            (forall a l, (a, l) ∈ st_queue st1 ->
               (a = connAddr /\ l = level + 1) \/
               ((Z.of_nat l <= Z.max 0 depth)%Z /\ Within (st_edges st) root l a))).
  - assert (Hsame : st_edges st = st_edges st /\
            NoDup (addresses (st_nodes st)) /\
            (forall a, a ∈ st_visited st <-> a ∈ addresses (st_nodes st)) /\
            (forall n, n ∈ st_nodes st ->
               n_id n = n_address n /\
               (n_address n = connAddr \/
                exists k, (Z.of_nat k <= Z.max 0 depth)%Z /\
                          Within (st_edges st) root k (n_address n))) /\
            (forall a l, (a, l) ∈ st_queue st ->
               (a = connAddr /\ l = level + 1) \/
               ((Z.of_nat l <= Z.max 0 depth)%Z /\ Within (st_edges st) root l a))).
    { split; [reflexivity |]. split; [exact Hnd |]. split; [exact Hv |]. split.
      - intros n Hin. split; [apply (Hn n Hin) | right; apply (Hn n Hin)].
      - intros a l Hin. right. apply (Hq a l Hin). }
    case_bool_decide as Hvis.
    + apply always_ret. exact Hsame.
    + eapply always_bind; [apply getWalletInfo_normal |].
      intros [info |] _; apply always_ret.
      * cbn. unfold addresses in *. rewrite !fmap_app. cbn. split; [reflexivity |].
        split; [| split; [| split]].
        -- apply NoDup_app. split; [exact Hnd |]. split; [| apply NoDup_singleton].
           intros a Ha Ha'. apply list_elem_of_singleton in Ha'. subst a.
           apply Hvis, Hv, Ha.
        -- intros a. rewrite elem_of_union, elem_of_singleton, elem_of_app,
             list_elem_of_singleton, Hv. tauto.
        -- intros n Hin. apply elem_of_app in Hin as [Hin | Hin].
           ++ split; [apply (Hn n Hin) | right; apply (Hn n Hin)].
           ++ apply list_elem_of_singleton in Hin. subst n. cbn. auto.
        -- intros a l Hin. apply elem_of_app in Hin as [Hin | Hin].
           ++ right. apply (Hq a l Hin).
           ++ apply list_elem_of_singleton in Hin. inversion Hin; subst. auto.
      * exact Hsame.
  - intros st1 (Hedges & Hnd1 & Hv1 & Hn1 & Hq1). apply always_ret.
    unfold Shape. cbn [st_nodes st_edges st_visited st_queue]. rewrite Hedges.
    assert (Hsub : forall e, e ∈ st_edges st ->
                             e ∈ (st_edges st ++ [makeEdge address connAddr data])%list)
      by (intros e Hin; apply elem_of_app; auto).
    assert (Hconn : Within (st_edges st ++ [makeEdge address connAddr data]) root
                           (S level) connAddr).
    { apply (within_step _ _ level (makeEdge address connAddr data)).
      - apply elem_of_app. right. apply list_elem_of_singleton. reflexivity.
      - cbn. eapply within_mono; [exact Hsub | exact Hw]. }
    split; [| eapply within_mono; [exact Hsub | exact Hw]].
    split; [exact Hnd1 |]. split; [exact Hv1 |]. split; [| split].
    + intros n Hin. destruct (Hn1 n Hin) as [Hid [Heq | (k & Hk & Hwk)]].
      * split; [exact Hid |]. exists (S level). rewrite Heq. split; [lia | exact Hconn].
      * split; [exact Hid |]. exists k. split; [exact Hk |].
        eapply within_mono; [exact Hsub | exact Hwk].
    + intros a l Hin. destruct (Hq1 a l Hin) as [[-> ->] | [Hl Hwl]].
      * split; [lia |]. rewrite Nat.add_1_r. exact Hconn.
      * split; [exact Hl |]. eapply within_mono; [exact Hsub | exact Hwl].
    + intros e Hin. apply elem_of_app in Hin as [Hin | Hin]; [apply He, Hin |].
      apply list_elem_of_singleton in Hin. subst e. apply makeEdge_proper, Hentry.
Qed.

Lemma forEach_shape root depth address level l : forall st,
  Shape root depth st -> Within (st_edges st) root level address ->
  (Z.of_nat level < depth)%Z -> Forall (properEntry address) l ->
  always (forEachM (addConnection network address level) st l) (Shape root depth).
Proof.
  induction l as [| entry l IH]; intros st HS Hw Hlevel Hl; cbn [forEachM].
  - apply always_ret. exact HS.
  - apply Forall_cons in Hl as [Hentry Hl].
    eapply always_bind;
      [apply (addConnection_shape root depth address level st entry HS Hw Hlevel Hentry) |].
    intros st1 [HS1 Hw1]. apply IH; assumption.
Qed.

Lemma bfsStep_shape root depth st :
  Shape root depth st -> always (bfsStep network depth st) (Shape root depth).
Proof.
  intros (Hnd & Hv & Hn & Hq & He). unfold bfsStep.
  destruct (st_queue st) as [| [address level] rest] eqn:E.
  - apply always_ret. unfold Shape. rewrite E. tauto.
  - assert (HS0 : Shape root depth
                    {| st_nodes := st_nodes st; st_edges := st_edges st;
                       st_visited := st_visited st; st_queue := rest |}).
    { unfold Shape. cbn. split; [exact Hnd |]. split; [exact Hv |]. split; [exact Hn |].
      split; [| exact He]. intros a l Hin. apply (Hq a l). apply elem_of_cons. auto. }
    case_bool_decide as Hdepth.
    + apply always_ret. exact HS0.
    + eapply always_bind; [apply getWalletTransactions_normal |].
      intros txs _. apply forEach_shape.
      * exact HS0.
      * cbn. apply (Hq address level). apply elem_of_cons. auto.
      * lia.
      * apply Forall_take, analyzeConnections_proper.
Qed.

Lemma initialState_shape root depth r : Shape root depth (initialState root r).
Proof.
  unfold Shape, initialState, addresses. destruct r as [info |]; cbn.
  - split; [apply NoDup_singleton |]. split; [| split; [| split]].
    + intros a. rewrite elem_of_singleton, list_elem_of_singleton. reflexivity.
    + intros n Hin. apply list_elem_of_singleton in Hin. subst n. cbn.
      split; [reflexivity |]. exists 0. split; [lia | constructor].
    + intros a l Hin. apply list_elem_of_singleton in Hin. inversion Hin; subst.
      split; [lia | constructor].
    + intros e Hin. apply elem_of_nil in Hin. contradiction.
  - split; [constructor |]. split; [| split; [| split]].
    + intros a. rewrite elem_of_empty. split; [contradiction |].
      intros Hin. apply elem_of_nil in Hin. contradiction.
    + intros n Hin. apply elem_of_nil in Hin. contradiction.
    + intros a l Hin. apply list_elem_of_singleton in Hin. inversion Hin; subst.
      split; [lia | constructor].
    + intros e Hin. apply elem_of_nil in Hin. contradiction.
Qed.

(** Every run of [buildWalletGraph] ends, and the state its loop ends in
    has the shape above. *)
Lemma buildWalletGraph_shape rootAddress depth maxNodes :
  always (buildWalletGraph rootAddress network depth maxNodes)
         (fun g => exists st,
            g = {| nodes := st_nodes st; edges := st_edges st; clusters := [] |} /\
            Shape rootAddress depth st).
Proof.
  unfold buildWalletGraph.
  eapply always_bind; [apply getWalletInfo_normal |]. intros r _.
  eapply always_bind.
  - apply (bfsLoop_invariant network depth maxNodes (Shape rootAddress depth)).
    + intros st HS _. apply bfsStep_shape, HS.
    + apply initialState_shape.
  - intros st HS. apply always_ret. exists st. auto.
Qed.

(** X14: No address is a node twice: the addresses of the nodes of a graph
    are pairwise distinct, and so are their ids, which are the
    addresses. *)
Theorem nodes_are_distinct (rootAddress : string) (depth maxNodes : Z) :
  always (buildWalletGraph rootAddress network depth maxNodes)
         (fun g => NoDup (addresses (nodes g)) /\ NoDup (n_id <$> nodes g) /\
                   forall n, n ∈ nodes g -> n_id n = n_address n).
Proof.
  eapply always_mono; [apply buildWalletGraph_shape |].
  intros g (st & -> & Hnd & _ & Hn & _). cbn [nodes].
  assert (Hid : n_id <$> st_nodes st = addresses (st_nodes st)).
  { unfold addresses. apply Forall_fmap_ext_1, Forall_forall. intros n Hin. apply (Hn n Hin). }
  rewrite Hid. split; [exact Hnd |]. split; [exact Hnd |]. intros n Hin. apply (Hn n Hin).
Qed.

(** X15: Every node lies within [depth] edges of the root: its address is the
    root address, or the end of a chain of at most [depth] edges of the
    graph that starts at the root address. *)
Theorem nodes_within_depth (rootAddress : string) (depth maxNodes : Z) :
  always (buildWalletGraph rootAddress network depth maxNodes)
         (fun g => forall n, n ∈ nodes g ->
            exists k, (Z.of_nat k <= Z.max 0 depth)%Z /\
                      Within (edges g) rootAddress k (n_address n)).
Proof.
  eapply always_mono; [apply buildWalletGraph_shape |].
  intros g (st & -> & _ & _ & Hn & _). cbn [nodes edges].
  intros n Hin. apply (Hn n Hin).
Qed.

(** X16: Every edge joins two different addresses, never ends at the
    placeholder 'Unknown', counts at least one transaction, is named
    [source-target] and is marked bidirectional. *)
Theorem edges_are_proper (rootAddress : string) (depth maxNodes : Z) :
  always (buildWalletGraph rootAddress network depth maxNodes)
         (fun g => forall e, e ∈ edges g -> properEdge e).
Proof.
  eapply always_mono; [apply buildWalletGraph_shape |].
  intros g (st & -> & _ & _ & _ & _ & He). cbn [edges]. exact He.
Qed.

End GraphShape.

Section NoExpansion.
Context {env : Env}.

(** X19: With a depth of zero or less, or a node budget of zero or less,
    nothing is expanded: the graph is the root node alone when the root
    wallet is found and has no node otherwise, it has no edge, and no
    request is made after the lookup of the root. *)
Theorem buildWalletGraph_no_expansion (rootAddress network : string) (depth maxNodes : Z)
  (w w1 : World) (rootWallet : option CryptoWalletInfo) :
  (depth <= 0)%Z \/ (maxNodes <= 0)%Z ->
  getWalletInfo rootAddress network w = (Normal rootWallet, w1) ->
  buildWalletGraph rootAddress network depth maxNodes w =
    (Normal {| nodes := match rootWallet with
                        | Some info => [makeNode rootAddress info]
                        | None => []
                        end;
               edges := []; clusters := [] |}, w1).
Proof.
  intros Hbound E. unfold buildWalletGraph. erewrite bind_normal by exact E.
  set (st0 := initialState rootAddress rootWallet).
  set (st1 := {| st_nodes := st_nodes st0; st_edges := st_edges st0;
                 st_visited := st_visited st0; st_queue := [] |}).
  assert (Hgraph : {| nodes := st_nodes st1; edges := st_edges st1; clusters := [] |} =
                   {| nodes := match rootWallet with
                               | Some info => [makeNode rootAddress info]
                               | None => []
                               end;
                      edges := []; clusters := [] |})
    by (destruct rootWallet; reflexivity).
  destruct (loopGuard maxNodes st0) eqn:G.
  - assert (Hdepth : (depth <= 0)%Z).
    { destruct Hbound as [H | H]; [exact H |]. apply loopGuard_true in G. lia. }
    erewrite bind_normal.
    2: { eapply (bfsLoop_single _ network depth maxNodes st0 w1 st1 w1).
         - unfold loopFuel, st0. destruct rootWallet; cbn; lia.
         - exact G.
         - unfold bfsStep, st0, st1. destruct rootWallet; cbn [initialState st_queue];
             (rewrite bool_decide_eq_true_2 by (cbn; lia)); reflexivity.
         - reflexivity. }
    unfold mret, M_ret. rewrite Hgraph. reflexivity.
  - erewrite bind_normal by (apply bfsLoop_stop; exact G).
    unfold mret, M_ret. f_equal. destruct rootWallet; reflexivity.
Qed.

End NoExpansion.

Lemma buildWalletGraph_no_expansion_witness :
  exists info w1,
    buildWalletGraph (env := Ledger.threeToBWorld) "A" "bitcoin" 0 10 emptyWorld =
      (Normal {| nodes := [makeNode "A" info]; edges := []; clusters := [] |}, w1) /\
    tick w1 = 1.
Proof.
  eexists _, _. split.
  - apply (buildWalletGraph_no_expansion (env := Ledger.threeToBWorld)
             "A" "bitcoin" 0 10 emptyWorld _ (Some _)).
    + left. lia.
    + vm_compute. reflexivity.
  - reflexivity.
Defined.

(* ===================================================================== *)
(** ** More on investigateWallet *)
(* ===================================================================== *)

Section InvestigationFacts.
Context {env : Env}.

(** The steps behind a result of [investigateWallet]. *)
Lemma investigateWallet_steps address network options w r w' :
  investigateWallet address network options w = (Normal (Some r), w') ->
  exists wallet0 w1 txs w2 g,
    getWalletInfo address network w = (Normal (Some wallet0), w1) /\
    (if default true (fetchTransactions options)
     then getWalletTransactions address network 50 else mret []) w1 = (Normal txs, w2) /\
    (if default true (buildGraph options)
     then buildWalletGraph address network (default 2%Z (graphDepth options)) 30
     else mret emptyGraph) w2 = (Normal g, w') /\
    r = assemble address wallet0 txs g.
Proof.
  intros Er.
  destruct (getWalletInfo_normal address network w) as ([wallet0 |] & w1 & E & _).
  2: { rewrite (investigateWallet_missing _ _ _ _ _ E) in Er. discriminate Er. }
  assert (Htx : exists txs w2,
             (if default true (fetchTransactions options)
              then getWalletTransactions address network 50 else mret []) w1 = (Normal txs, w2)).
  { destruct (default true (fetchTransactions options)).
    - destruct (getWalletTransactions_normal address network 50 w1) as (txs & w2 & Etx & _).
      eauto.
    - exists [], w1. reflexivity. }
  destruct Htx as (txs & w2 & Etx).
  assert (Hg : exists g w3,
             (if default true (buildGraph options)
              then buildWalletGraph address network (default 2%Z (graphDepth options)) 30
              else mret emptyGraph) w2 = (Normal g, w3)).
  { destruct (default true (buildGraph options)).
    - destruct (buildWalletGraph_shape network address (default 2%Z (graphDepth options)) 30 w2)
        as (g & w3 & Eg & _).
      eauto.
    - exists emptyGraph, w2. reflexivity. }
  destruct Hg as (g & w3 & Eg).
  rewrite (investigateWallet_found address network options w wallet0 w1 E txs w2 g w3 Etx Eg)
    in Er.
  inversion Er; subst. exists wallet0, w1, txs, w2, g. auto.
Qed.

(** X22: The wallets listed as connected are never the investigated wallet
    itself: each entry is made from one edge of the graph, of which it
    names an end other than the investigated address, and it repeats the
    transaction count and the volume of that edge. *)
Theorem connected_wallets_are_others (address network : string)
  (options : InvestigationOptions) (w w' : World) (r : CryptoInvestigationResult) :
  investigateWallet address network options w = (Normal (Some r), w') ->
  length (connectedWallets r) = length (edges (graph r)) /\
  forall cw, cw ∈ connectedWallets r ->
    cw_address cw <> address /\ cw_relationship cw = Both /\
    exists e, e ∈ edges (graph r) /\
              (cw_address cw = e_source e \/ cw_address cw = e_target e) /\
              cw_transactionCount cw = e_transactions e /\
              cw_totalVolume cw = e_totalVolume e.
Proof.
  intros Er.
  destruct (investigateWallet_steps _ _ _ _ _ _ Er)
    as (wallet0 & w1 & txs & w2 & g & _ & _ & Eg & ->).
  cbn [connectedWallets graph assemble]. split; [apply length_fmap |].
  assert (Hproper : forall e, e ∈ edges g -> properEdge e).
  { destruct (default true (buildGraph options)).
    - destruct (buildWalletGraph_shape network address (default 2%Z (graphDepth options)) 30 w2)
        as (g' & w3 & Eg' & st & -> & HS).
      rewrite Eg in Eg'. inversion Eg'; subst. apply HS.
    - inversion Eg; subst. intros e Hin. apply elem_of_nil in Hin. contradiction. }
  intros cw Hin. apply list_elem_of_fmap in Hin as (e & -> & He).
  destruct (Hproper e He) as (Hne & _).
  unfold connectedWalletOf. cbn.
  split; [| split; [reflexivity |]].
  - destruct (String.eqb (e_target e) address) eqn:Et.
    + apply String.eqb_eq in Et. congruence.
    + apply String.eqb_neq in Et. exact Et.
  - exists e. split; [exact He |]. split; [| auto].
    destruct (String.eqb (e_target e) address); auto.
Qed.

Lemma getWalletTransactions_other_networks address network limit w :
  network <> "bitcoin" -> txsCache w = ∅ ->
  getWalletTransactions address network limit w = (Normal [], w).
Proof.
  intros Hn Hc. unfold getWalletTransactions.
  erewrite bind_normal by reflexivity. cbn [store Cacheable_txs].
  rewrite Hc, lookup_empty. apply String.eqb_neq in Hn. rewrite Hn.
  destruct (String.eqb network "ethereum"); reflexivity.
Qed.

(** The graph of a network other than bitcoin is never expanded:
    ethereum has no source of transactions, so with no transaction list
    in the cache the graph is the root node alone, or nothing when the
    root wallet is not found, and no request follows the lookup of the
    root. *)
Lemma buildWalletGraph_other_networks (rootAddress network : string) (depth maxNodes : Z)
  (w w1 : World) (rootWallet : option CryptoWalletInfo) :
  network <> "bitcoin" -> txsCache w = ∅ ->
  getWalletInfo rootAddress network w = (Normal rootWallet, w1) ->
  buildWalletGraph rootAddress network depth maxNodes w =
    (Normal (rootOnly rootAddress rootWallet), w1).
Proof.
  intros Hn Hc E. unfold buildWalletGraph. erewrite bind_normal by exact E.
  destruct (getWalletInfo_spec _ _ _ _ _ E) as (Hc1 & _). rewrite Hc in Hc1.
  set (st0 := initialState rootAddress rootWallet).
  set (st1 := {| st_nodes := st_nodes st0; st_edges := st_edges st0;
                 st_visited := st_visited st0; st_queue := [] |}).
  assert (Hgraph : {| nodes := st_nodes st1; edges := st_edges st1; clusters := [] |} =
                   rootOnly rootAddress rootWallet)
    by (destruct rootWallet; reflexivity).
  destruct (loopGuard maxNodes st0) eqn:G.
  - erewrite bind_normal.
    2: { eapply (bfsLoop_single _ network depth maxNodes st0 w1 st1 w1).
         - unfold loopFuel, st0. destruct rootWallet; cbn; lia.
         - exact G.
         - unfold bfsStep. replace (st_queue st0) with [(rootAddress, 0)]
             by (unfold st0; destruct rootWallet; reflexivity).
           case_bool_decide; [reflexivity |].
           erewrite bind_normal
             by (apply getWalletTransactions_other_networks; assumption).
           reflexivity.
         - reflexivity. }
    unfold mret, M_ret. rewrite Hgraph. reflexivity.
  - erewrite bind_normal by (apply bfsLoop_stop; exact G).
    unfold mret, M_ret. f_equal. destruct rootWallet; reflexivity.
Qed.

(** X23: An ethereum investigation is the wallet and nothing else: no
    transaction, no connected wallet, a graph of at most the root node,
    and the analysis of an empty history. *)
Theorem investigation_without_transactions (address network : string)
  (options : InvestigationOptions) (w w' : World) (r : CryptoInvestigationResult) :
  network <> "bitcoin" -> txsCache w = ∅ ->
  investigateWallet address network options w = (Normal (Some r), w') ->
  transactions r = [] /\ connectedWallets r = [] /\ edges (graph r) = [] /\
  (graph r = emptyGraph \/ exists info, graph r = rootOnly address (Some info)) /\
  behaviorPattern (analysis r) = "No transaction history" /\
  volumeAnalysis (analysis r) = "No volume data" /\
  frequencyAnalysis (analysis r) = "Insufficient data" /\
  "New or unused wallet - verify legitimacy" ∈ recommendations (analysis r).
Proof.
  intros Hn Hc Er.
  destruct (investigateWallet_steps _ _ _ _ _ _ Er)
    as (wallet0 & w1 & txs & w2 & g & E & Etx & Eg & ->).
  destruct (getWalletInfo_spec _ _ _ _ _ E) as (Hc1 & _). rewrite Hc in Hc1.
  assert (Htxs : txs = [] /\ w2 = w1).
  { destruct (default true (fetchTransactions options)).
    - rewrite (getWalletTransactions_other_networks _ _ _ _ Hn Hc1) in Etx.
      inversion Etx; auto.
    - inversion Etx; auto. }
  destruct Htxs as [-> ->].
  assert (Hg : g = emptyGraph \/ exists info, g = rootOnly address (Some info)).
  { destruct (default true (buildGraph options)).
    - destruct (getWalletInfo_normal address network w1) as (r1 & w3 & E1 & _).
      rewrite (buildWalletGraph_other_networks _ _ _ _ _ _ _ Hn Hc1 E1) in Eg.
      inversion Eg; subst. destruct r1 as [info |]; [right; eauto | left; reflexivity].
    - inversion Eg; auto. }
  assert (He : edges g = []) by (destruct Hg as [-> | [info ->]]; reflexivity).
  cbn [transactions connectedWallets graph analysis assemble behaviorPattern volumeAnalysis
       frequencyAnalysis recommendations].
  rewrite He. split; [reflexivity |]. split; [reflexivity |]. split; [reflexivity |].
  split; [exact Hg |]. split; [reflexivity |]. split; [reflexivity |]. split; [reflexivity |].
  unfold generateRecommendations. rewrite !elem_of_app. right; right; right.
  apply list_elem_of_singleton. reflexivity.
Qed.

End InvestigationFacts.

Lemma connected_wallets_are_others_witness :
  exists r w',
    investigateWallet (env := Ledger.threeToBWorld) "A" "bitcoin" Ledger.defaults emptyWorld =
      (Normal (Some r), w') /\
    length (connectedWallets r) = length (edges (graph r)) /\
    forall cw, cw ∈ connectedWallets r -> cw_address cw <> "A".
Proof.
  eexists _, _. split; [vm_compute; reflexivity |].
  edestruct (connected_wallets_are_others (env := Ledger.threeToBWorld)
               "A" "bitcoin" Ledger.defaults emptyWorld) as [Hl Hcw].
  - vm_compute. reflexivity.
  - split; [exact Hl |]. intros cw Hin. apply (Hcw cw Hin).
Defined.

Lemma investigation_without_transactions_witness :
  exists r w',
    investigateWallet (env := etherWorld) "0x52908400098527886E0F7030069857D2E4169EE7"
      "ethereum" Ledger.defaults emptyWorld = (Normal (Some r), w') /\
    transactions r = [] /\ connectedWallets r = [] /\ edges (graph r) = [] /\
    behaviorPattern (analysis r) = "No transaction history".
Proof.
  eexists _, _. split; [vm_compute; reflexivity |].
  edestruct (investigation_without_transactions (env := etherWorld)
               "0x52908400098527886E0F7030069857D2E4169EE7" "ethereum" Ledger.defaults
               emptyWorld) as (Ht & Hc & He & _ & Hb & _).
  - discriminate.
  - reflexivity.
  - vm_compute. reflexivity.
  - auto.
Defined.

(* ===================================================================== *)
(** ** No risk is ever reported *)
(* ===================================================================== *)

Section NoThreat.
Context {env : Env}.
Variable network : string.

Lemma keeps_ret {A} (P : World -> Prop) (a : A) (Q : A -> Prop) : Q a -> keeps P (mret a) Q.
Proof. intros HQ w HP. exists a, w. auto. Qed.

Lemma keeps_bind {A B} (P : World -> Prop) (m : M A) (f : A -> M B)
  (Q : A -> Prop) (R : B -> Prop) :
  keeps P m Q -> (forall a, Q a -> keeps P (f a) R) -> keeps P (m ≫= f) R.
Proof.
  intros Hm Hf w HP. destruct (Hm w HP) as (a & w1 & E & HP1 & HQ).
  destruct (Hf a HQ w1 HP1) as (b & w2 & E2 & HP2 & HR).
  exists b, w2. split; [| auto]. erewrite bind_normal by exact E. exact E2.
Qed.

Lemma keeps_mono {A} (P : World -> Prop) (m : M A) (Q R : A -> Prop) :
  keeps P m Q -> (forall a, Q a -> R a) -> keeps P m R.
Proof.
  intros Hm HQR w HP. destruct (Hm w HP) as (a & w1 & E & HP1 & HQ). exists a, w1. auto.
Qed.

Lemma getWalletInfo_keeps a :
  keeps cacheClean (getWalletInfo a network)
        (fun r => forall info, r = Some info -> riskConstant info).
Proof.
  intros w Hc. destruct (getWalletInfo_normal a network w) as (r & w' & E & _).
  destruct (getWalletInfo_spec _ _ _ _ _ E) as (_ & _ & H). destruct (H Hc) as [Hc' Hr].
  exists r, w'. auto.
Qed.

Lemma getWalletTransactions_frame address limit w txs w' :
  getWalletTransactions address network limit w = (Normal txs, w') ->
  walletCache w' = walletCache w.
Proof.
  unfold getWalletTransactions. erewrite bind_normal by reflexivity.
  destruct (store w !! _) as [[c expiry] |];
    [destruct (dateNow (tick w) <? expiry)%Z |].
  1: { intros Heq. inversion Heq; subst. reflexivity. }
  all: unfold tryCatch, mbind, M_bind.
  all: destruct (String.eqb network "bitcoin"); [| destruct (String.eqb network "ethereum")].
  all: unfold getBitcoinWalletTransactions, getEthereumWalletTransactions, fetchRawAddr,
         mbind, M_bind, mret, M_ret, cacheAPIResponse.
  all: try destruct (blockchainInfoRawAddr (tick w) address limit) as [| | data].
  all: try match goal with
           | |- context [mapM normalizeTx ?l] => destruct (mapM normalizeTx l) as [txs0 |]
           end.
  all: cbn [default length]; repeat case_decide; intros Heq; inversion Heq; subst; reflexivity.
Qed.

Lemma getWalletTransactions_keeps address limit :
  keeps cacheClean (getWalletTransactions address network limit) (fun _ => True).
Proof.
  intros w Hc.
  destruct (getWalletTransactions_normal address network limit w) as (txs & w' & E & _).
  exists txs, w'. split; [exact E |]. split; [| exact I].
  intros key info expiry Hk. rewrite (getWalletTransactions_frame _ _ _ _ _ E) in Hk.
  eapply Hc. exact Hk.
Qed.

Lemma makeNode_safe address info : riskConstant info -> safeNode (makeNode address info).
Proof.
  intros (Hs & Hl & _ & He & Hm & _). unfold safeNode. cbn. rewrite He, Hm. auto.
Qed.

Lemma addConnection_safe address level st entry :
  Forall safeNode (st_nodes st) ->
  keeps cacheClean (addConnection network address level st entry)
        (fun st' => Forall safeNode (st_nodes st')).
Proof.
  intros Hs. destruct entry as [connAddr data]. unfold addConnection.
  eapply keeps_bind with (Q := fun st1 => Forall safeNode (st_nodes st1)).
  - case_bool_decide.
    + apply keeps_ret. exact Hs.
    + eapply keeps_bind; [apply getWalletInfo_keeps |].
      intros [info |] Hr; apply keeps_ret; [| exact Hs].
      cbn. apply Forall_app. split; [exact Hs |].
      apply Forall_singleton, makeNode_safe, Hr. reflexivity.
  - intros st1 Hs1. apply keeps_ret. exact Hs1.
Qed.

Lemma forEach_safe address level l : forall st,
  Forall safeNode (st_nodes st) ->
  keeps cacheClean (forEachM (addConnection network address level) st l)
        (fun st' => Forall safeNode (st_nodes st')).
Proof.
  induction l as [| entry l IH]; intros st Hs; cbn [forEachM].
  - apply keeps_ret. exact Hs.
  - eapply keeps_bind; [apply addConnection_safe, Hs |]. intros st1 Hs1. apply IH, Hs1.
Qed.

Lemma bfsStep_safe depth st :
  Forall safeNode (st_nodes st) ->
  keeps cacheClean (bfsStep network depth st) (fun st' => Forall safeNode (st_nodes st')).
Proof.
  intros Hs. unfold bfsStep. destruct (st_queue st) as [| [address level] rest].
  - apply keeps_ret. exact Hs.
  - case_bool_decide; [apply keeps_ret; exact Hs |].
    eapply keeps_bind; [apply getWalletTransactions_keeps |].
    intros txs _. apply forEach_safe. exact Hs.
Qed.

Lemma bfsLoop_safe depth maxNodes : forall fuel st,
  Forall safeNode (st_nodes st) ->
  keeps cacheClean (bfsLoop fuel network depth maxNodes st)
        (fun st' => Forall safeNode (st_nodes st')).
Proof.
  induction fuel as [| fuel IH]; intros st Hs; cbn [bfsLoop].
  - apply keeps_ret. exact Hs.
  - destruct (loopGuard maxNodes st); [| apply keeps_ret; exact Hs].
    eapply keeps_bind; [apply bfsStep_safe, Hs |]. intros st1 Hs1. apply IH, Hs1.
Qed.

Lemma buildWalletGraph_safe rootAddress depth maxNodes :
  keeps cacheClean (buildWalletGraph rootAddress network depth maxNodes)
        (fun g => Forall safeNode (nodes g)).
Proof.
  unfold buildWalletGraph.
  eapply keeps_bind; [apply getWalletInfo_keeps |]. intros r Hr.
  eapply keeps_bind.
  - apply bfsLoop_safe. destruct r as [info |]; cbn; [| constructor].
    apply Forall_singleton, makeNode_safe, Hr. reflexivity.
  - intros st Hs. apply keeps_ret. exact Hs.
Qed.

(** X21: No node of any graph shows a risk: starting from a cache whose
    wallets have the constant risk fields (the empty one to begin with),
    every node has risk score 0, risk level safe and type wallet, so the
    canvas draws every node green and rings none as exchange or mixer;
    the cache stays as it should. *)
Theorem graph_nodes_are_safe (rootAddress : string) (depth maxNodes : Z)
  (w w' : World) (g : WalletGraph) :
  cacheClean w ->
  buildWalletGraph rootAddress network depth maxNodes w = (Normal g, w') ->
  cacheClean w' /\ forall n, n ∈ nodes g -> safeNode n.
Proof.
  intros Hc Eg. destruct (buildWalletGraph_safe rootAddress depth maxNodes w Hc)
    as (g' & w'' & Eg' & Hc' & Hs).
  rewrite Eg in Eg'. inversion Eg'; subst. split; [exact Hc' |].
  apply Forall_forall, Hs.
Qed.

Lemma orElse_zero x : x = 0%float \/ x = nan -> JS.orElse x 0 = 0%float.
Proof. intros [-> | ->]; reflexivity. Qed.

(** X24: No investigation ever reports a threat: starting from a cache whose
    wallets have the constant risk fields, the threat intelligence of
    every result is the empty one, every node of its graph is safe,
    every connected wallet has risk score 0, the only risk factors are
    the two read off the balance and the number of transactions, and the
    only recommendation is the one for a wallet without transactions. *)
Theorem investigation_reports_no_threat (address : string)
  (options : InvestigationOptions) (w w' : World) (r : CryptoInvestigationResult) :
  cacheClean w ->
  investigateWallet address network options w = (Normal (Some r), w') ->
  riskConstant (wallet r) /\
  threatIntel r = noThreat /\
  (forall n, n ∈ nodes (graph r) -> safeNode n) /\
  (forall cw, cw ∈ connectedWallets r -> cw_riskScore cw = 0%float) /\
  riskFactors (analysis r) =
    (pushIf (JS.gt (parseFloat (w_balance (wallet r))) 100) "High balance - attractive target" ++
     pushIf (bool_decide (100 < length (transactions r)))%nat "High transaction count")%list /\
  recommendations (analysis r) =
    pushIf (bool_decide (length (transactions r) = 0))
           "New or unused wallet - verify legitimacy".
Proof.
  intros Hc Er.
  destruct (investigateWallet_steps _ _ _ _ _ _ Er)
    as (wallet0 & w1 & txs & w2 & g & E & Etx & Eg & ->).
  destruct (getWalletInfo_keeps address w Hc) as (r0 & w1' & E' & Hc1 & Hr).
  rewrite E in E'. inversion E'; subst r0 w1'. clear E'.
  specialize (Hr wallet0 eq_refl).
  assert (Hc2 : cacheClean w2).
  { destruct (default true (fetchTransactions options)).
    - destruct (getWalletTransactions_keeps address 50 w1 Hc1) as (t & w2' & Etx' & Hc2 & _).
      rewrite Etx in Etx'. inversion Etx'; subst. exact Hc2.
    - inversion Etx; subst. exact Hc1. }
  assert (Hs : Forall safeNode (nodes g)).
  { destruct (default true (buildGraph options)).
    - destruct (buildWalletGraph_safe address (default 2%Z (graphDepth options)) 30 w2 Hc2)
        as (g' & w3 & Eg' & _ & Hs).
      rewrite Eg in Eg'. inversion Eg'; subst. exact Hs.
    - inversion Eg; subst. constructor. }
  destruct Hr as (Hscore & Hlevel & Hlabels & Hex & Hmix & Hran).
  cbn [wallet threatIntel graph connectedWallets analysis riskFactors recommendations
       transactions assemble].
  split; [repeat split; assumption |]. split; [| split; [| split; [| split]]].
  - unfold threatIntelOf, noThreat. rewrite Hran, Hmix. reflexivity.
  - apply Forall_forall, Hs.
  - intros cw Hin. apply list_elem_of_fmap in Hin as (e & -> & He).
    unfold connectedWalletOf. cbn [cw_riskScore]. apply orElse_zero.
    destruct (find _ (nodes g)) as [n |] eqn:Ef; cbn; [left | right; reflexivity].
    apply find_some in Ef as [Hin _]. rewrite Forall_forall in Hs.
    apply (Hs n). apply list_elem_of_In. exact Hin.
  - unfold identifyRiskFactors. rewrite Hran, Hmix, Hex. reflexivity.
  - unfold generateRecommendations. rewrite Hscore, Hmix, Hran. reflexivity.
Qed.

End NoThreat.

Lemma graph_nodes_are_safe_witness :
  exists g w',
    buildWalletGraph (env := Ledger.threeToBWorld) "A" "bitcoin" 1 10 emptyWorld =
      (Normal g, w') /\
    length (nodes g) = 3 /\ forall n, n ∈ nodes g -> safeNode n.
Proof.
  eexists _, _. split; [vm_compute; reflexivity |]. split; [reflexivity |].
  eapply (graph_nodes_are_safe (env := Ledger.threeToBWorld) "bitcoin" "A" 1 10 emptyWorld).
  - exact emptyWorld_clean.
  - vm_compute. reflexivity.
Defined.

Lemma investigation_reports_no_threat_witness :
  exists r w',
    investigateWallet (env := Ledger.threeToBWorld) "A" "bitcoin" Ledger.defaults emptyWorld =
      (Normal (Some r), w') /\
    threatIntel r = noThreat /\ recommendations (analysis r) = [].
Proof.
  eexists _, _. split; [vm_compute; reflexivity |].
  edestruct (investigation_reports_no_threat (env := Ledger.threeToBWorld) "bitcoin" "A"
               Ledger.defaults emptyWorld) as (_ & Ht & _ & _ & _ & Hr).
  - exact emptyWorld_clean.
  - vm_compute. reflexivity.
  - split; [exact Ht | exact Hr].
Defined.

(* ===================================================================== *)
(** ** A wallet flagged as ransomware *)
(* ===================================================================== *)

Section Ransomware.
Context {env : Env}.




End Ransomware.



Section Limits.
Context {env : Env}.



End Limits.



(* ===================================================================== *)
(** ** More on the layout *)
(* ===================================================================== *)

Section LayoutMore.
Context {env : Env}.

Lemma moveNode_nodes canvas graphEdges l i :
  np_node <$> moveNode canvas graphEdges l i = np_node <$> l.
Proof.
  unfold moveNode. destruct (l !! i) as [nodeA |] eqn:E; [| reflexivity].
  rewrite list_fmap_insert. cbn [np_node]. apply list_insert_id.
  rewrite list_lookup_fmap, E. reflexivity.
Qed.

Lemma foldl_moveNode_nodes canvas graphEdges rounds : forall l,
  np_node <$> foldl (moveNode canvas graphEdges) l rounds = np_node <$> l.
Proof.
  induction rounds as [| i rounds IH]; intros l; cbn [foldl]; [reflexivity |].
  rewrite IH. apply moveNode_nodes.
Qed.

Lemma simulateForces_nodes canvas graphEdges l :
  np_node <$> simulateForces canvas graphEdges l = np_node <$> l.
Proof. apply foldl_moveNode_nodes. Qed.

Lemma initialNodes_nodes c g : np_node <$> initialNodes (Some c) g = nodes g.
Proof.
  unfold initialNodes. rewrite fmap_imap.
  rewrite (imap_ext _ (const id)) by reflexivity.
  rewrite imap_const. apply list_fmap_id.
Qed.

Lemma animate_next canvas g frames :
  animate canvas g (S frames) = simulateForces canvas (edges g) (animate canvas g frames).
Proof. reflexivity. Qed.

Lemma animate_nodes c g frames : np_node <$> animate (Some c) g frames = nodes g.
Proof.
  induction frames as [| frames IH].
  - apply initialNodes_nodes.
  - rewrite animate_next, simulateForces_nodes. exact IH.
Qed.

(** X27: The layout only moves nodes: after any number of frames the placed
    nodes are the nodes of the graph, each one unchanged, in the order
    of the graph; without a canvas nothing is placed at all. *)
Theorem layout_keeps_nodes (c : Canvas) (g : WalletGraph) (frames : nat) :
  np_node <$> animate (Some c) g frames = nodes g /\
  length (animate (Some c) g frames) = length (nodes g) /\
  animate None g frames = [].
Proof.
  split; [apply animate_nodes |]. split.
  - rewrite <- (length_fmap np_node), animate_nodes. reflexivity.
  - induction frames as [| frames IH]; [reflexivity |].
    rewrite animate_next, IH. reflexivity.
Qed.

Lemma findNode_missing l id : id ∉ placedIds l -> findNode l id = None.
Proof.
  unfold findNode, placedIds. induction l as [| n l IH]; cbn; intros Hid; [reflexivity |].
  apply not_elem_of_cons in Hid as [Hne Hid].
  destruct (String.eqb (n_id (np_node n)) id) eqn:E; [| apply IH, Hid].
  apply String.eqb_eq in E. congruence.
Qed.

Lemma attractionForce_joins graphEdges l nodeA : forall f,
  n_id (np_node nodeA) ∈ placedIds l ->
  attractionForce (filter (joins (placedIds l)) graphEdges) l nodeA f =
  attractionForce graphEdges l nodeA f.
Proof.
  intros f HA. unfold attractionForce. revert f.
  induction graphEdges as [| e graphEdges IH]; intros f; [reflexivity |].
  rewrite filter_cons. destruct (decide (joins (placedIds l) e)) as [Hj | Hj];
    cbn [foldl]; [apply IH |].
  rewrite IH. f_equal.
  destruct (String.eqb (e_source e) (n_id (np_node nodeA))) eqn:Es;
    destruct (String.eqb (e_target e) (n_id (np_node nodeA))) eqn:Et;
    try reflexivity.
  - apply String.eqb_eq in Es, Et. exfalso. apply Hj. unfold joins.
    rewrite Es, Et. auto.
  - apply String.eqb_eq in Es.
    rewrite findNode_missing; [reflexivity |].
    intros Ht. apply Hj. unfold joins. rewrite Es. auto.
  - apply String.eqb_eq in Et.
    rewrite findNode_missing; [reflexivity |].
    intros Hs. apply Hj. unfold joins. rewrite Et. auto.
Qed.

Lemma placedIds_nodes l : placedIds l = n_id <$> (np_node <$> l).
Proof. unfold placedIds. rewrite <- list_fmap_compose. reflexivity. Qed.

Lemma moveNode_joins canvas graphEdges l i :
  moveNode canvas (filter (joins (placedIds l)) graphEdges) l i =
  moveNode canvas graphEdges l i.
Proof.
  unfold moveNode. destruct (l !! i) as [nodeA |] eqn:E; [| reflexivity].
  rewrite attractionForce_joins; [reflexivity |].
  unfold placedIds. apply list_elem_of_fmap. exists nodeA. split; [reflexivity |].
  eapply list_elem_of_lookup_2. exact E.
Qed.

Lemma foldl_moveNode_joins canvas graphEdges ids rounds : forall l,
  placedIds l = ids ->
  foldl (moveNode canvas (filter (joins ids) graphEdges)) l rounds =
  foldl (moveNode canvas graphEdges) l rounds.
Proof.
  induction rounds as [| i rounds IH]; intros l Hids; cbn [foldl]; [reflexivity |].
  subst ids. rewrite moveNode_joins. apply IH.
  rewrite !placedIds_nodes, moveNode_nodes. reflexivity.
Qed.

(** X28: Dangling edges do not disturb the layout: an edge with an end that
    is not the id of a node, such as the edge to a wallet whose lookup
    failed, pulls on nothing, so the placed nodes are, frame by frame,
    those of the graph without its dangling edges. *)
Theorem dangling_edges_exert_no_force (canvas : option Canvas) (g : WalletGraph)
  (frames : nat) :
  animate canvas (withoutDangling g) frames = animate canvas g frames.
Proof.
  destruct canvas as [c |].
  2: { assert (Hnone : forall g0, animate None g0 frames = []).
       { intros g0. induction frames as [| frames IH]; [reflexivity |].
         rewrite animate_next, IH. reflexivity. }
       rewrite !Hnone. reflexivity. }
  induction frames as [| frames IH]; [reflexivity |].
  rewrite !animate_next, IH.
  unfold simulateForces. cbn [edges withoutDangling].
  apply foldl_moveNode_joins.
  rewrite placedIds_nodes. f_equal. apply (animate_nodes c g frames).
Qed.

End LayoutMore.

(** The edge to [B], whose wallet cannot be fetched, leaves [A] where a
    graph of [A] alone puts it. *)
Example dangling_edge_scenario :
  exists g,
    result (buildWalletGraph (env := Ledger.withoutB) "A" "bitcoin" 1 10 emptyWorld) =
      Normal g /\
    ends g = [("A", "B")] /\ edges (withoutDangling g) = [] /\
    positions (animate (env := Ledger.withoutB) Ledger.canvas g 3) =
    positions (animate (env := Ledger.withoutB) Ledger.canvas
                 {| nodes := nodes g; edges := []; clusters := [] |} 3).
Proof.
  eexists. split; [vm_compute; reflexivity |]. split; [reflexivity |].
  split; [reflexivity |]. vm_compute. reflexivity.
Qed.

(* ===================================================================== *)
(** ** The display helpers of the leaked-credentials service *)
(* ===================================================================== *)

Section Credentials.

Import RegExp.

Lemma list_ascii_substring s : forall n m,
  list_ascii_of_string (String.substring n m s) = take m (drop n (list_ascii_of_string s)).
Proof.
  induction s as [| c s IH]; intros [| n] [| m]; cbn; try reflexivity.
  - f_equal. apply (IH 0 m).
  - apply (IH n 0).
  - apply (IH n (S m)).
Qed.

Lemma list_ascii_stars n : list_ascii_of_string (stars n) = replicate n "*"%char.
Proof. induction n as [| n IH]; cbn; [reflexivity | now rewrite IH]. Qed.

(** The characters of a masked password of more than four characters. *)
Lemma maskPassword_long p :
  4 < String.length p ->
  list_ascii_of_string (maskPassword (Some p)) =
  (take 2 (list_ascii_of_string p) ++
   replicate (Nat.min (String.length p - 4) 8) "*"%char ++
   drop (String.length p - 2) (list_ascii_of_string p))%list.
Proof.
  intros Hlen. unfold maskPassword. destruct p as [| c p]; [cbn in Hlen; lia |].
  rewrite (proj2 (Nat.leb_gt _ _)) by exact Hlen.
  rewrite !list_ascii_app, !list_ascii_substring, list_ascii_stars.
  rewrite drop_0. f_equal. f_equal. apply take_ge.
  rewrite length_drop, length_list_ascii. lia.
Qed.

(** How long a masked password is: 'N/A' without a password, four stars
    for up to four characters, and the length of the password, capped at
    twelve, beyond. *)
Theorem maskPassword_length (password : option string) :
  String.length (maskPassword password) <= 12 /\
  match password with
  | None => maskPassword password = "N/A"
  | Some p =>
      (String.length p = 0 -> maskPassword password = "N/A") /\
      (1 <= String.length p <= 4 -> maskPassword password = "****") /\
      (4 < String.length p ->
         String.length (maskPassword password) = Nat.min (String.length p) 12)
  end.
Proof.
  assert (Hlong : forall p, 4 < String.length p ->
             String.length (maskPassword (Some p)) = Nat.min (String.length p) 12).
  { intros p Hlen. rewrite <- length_list_ascii, (maskPassword_long p Hlen).
    rewrite !length_app, length_take, length_replicate, length_drop, length_list_ascii. lia. }
  destruct password as [p |]; [| cbn; split; [lia | reflexivity]].
  destruct (Nat.le_gt_cases (String.length p) 4) as [Hshort | Hlen].
  - assert (Hmask : maskPassword (Some p) = "N/A" \/ maskPassword (Some p) = "****").
    { unfold maskPassword. destruct p as [| c p]; [auto |].
      rewrite (proj2 (Nat.leb_le _ _)) by exact Hshort. auto. }
    split; [destruct Hmask as [-> | ->]; cbn; lia |]. split; [| split].
    + intros H0. destruct p; [reflexivity | discriminate H0].
    + intros H1. unfold maskPassword. destruct p as [| c p]; [cbn in H1; lia |].
      rewrite (proj2 (Nat.leb_le _ _)) by exact Hshort. reflexivity.
    + lia.
  - split; [rewrite (Hlong p Hlen); lia |]. split; [lia |]. split; [lia |].
    intros _. apply Hlong, Hlen.
Qed.

(** X29: A masked password shows its first two characters, its last two and
    its length up to twelve, and nothing else: two passwords of more
    than four characters that agree on these have the same mask. *)
Theorem maskPassword_reveals_little (p q : string) :
  4 < String.length p -> 4 < String.length q ->
  String.substring 0 2 p = String.substring 0 2 q ->
  lastTwo p = lastTwo q ->
  Nat.min (String.length p) 12 = Nat.min (String.length q) 12 ->
  maskPassword (Some p) = maskPassword (Some q).
Proof.
  intros Hp Hq Hfirst Hlast Hlen. apply list_ascii_inj.
  rewrite (maskPassword_long p Hp), (maskPassword_long q Hq).
  apply (f_equal list_ascii_of_string) in Hfirst, Hlast. unfold lastTwo in Hlast.
  rewrite !list_ascii_substring, !drop_0 in Hfirst.
  rewrite !list_ascii_substring in Hlast.
  rewrite !take_ge in Hlast by (rewrite length_drop, length_list_ascii; lia).
  rewrite Hfirst, Hlast. f_equal. f_equal. f_equal. lia.
Qed.

Lemma maskPassword_reveals_little_witness :
  maskPassword (Some "correct horse battery staple") = maskPassword (Some "cobalt blue apple") /\
  maskPassword (Some "cobalt blue apple") = "co********le".
Proof.
  split; [| reflexivity].
  apply maskPassword_reveals_little; try reflexivity; cbn; lia.
Defined.

Lemma matchesFrom_oneOrMore cc rest l :
  matchesFrom (oneOrMore cc :: rest) l = true <->
  exists a b, l = (a ++ b)%list /\ a <> [] /\ forallb (member cc) a = true /\
              matchesFrom rest b = true.
Proof.
  rewrite matchesFrom_cons. cbn [oneOrMore atLeast atMost chars]. split.
  - intros (k & Hk & _ & Hall & Hrest). exists (take k l), (drop k l).
    split; [symmetry; apply take_drop |]. split; [| auto].
    intros Hnil. apply (f_equal length) in Hnil. rewrite length_take in Hnil. cbn in Hnil. lia.
  - intros (a & b & -> & Hne & Hall & Hrest). exists (length a).
    rewrite take_app_length, drop_app_length, length_app.
    split; [destruct a; [contradiction | cbn; lia] |].
    split; [discriminate | auto].
Qed.

Lemma member_notSpaceNorAt c :
  member notSpaceNorAt c = negb (isWhiteSpace c) && negb (Ascii.eqb c "@").
Proof.
  unfold member, notSpaceNorAt, noneOf, isWhiteSpace. cbn [negated ranges].
  rewrite existsb_app. cbn [existsb]. rewrite orb_false_r.
  destruct (existsb (inRange c) whiteSpace); [reflexivity |]. cbn [orb negb andb].
  destruct (Ascii.eqb c "@") eqn:E.
  - apply Ascii.eqb_eq in E. subst c. reflexivity.
  - apply Ascii.eqb_neq in E. destruct (inRange c ("@"%char, "@"%char)) eqn:Er; [| reflexivity].
    apply inRange_one in Er. contradiction.
Qed.

Lemma plain_chars s :
  plain s <->
  list_ascii_of_string s <> [] /\ forallb (member notSpaceNorAt) (list_ascii_of_string s) = true.
Proof.
  unfold plain.
  assert (Hext : forall l,
             forallb (fun c => negb (isWhiteSpace c) && negb (Ascii.eqb c "@")) l =
             forallb (member notSpaceNorAt) l).
  { induction l as [| c l IH]; cbn [forallb]; [reflexivity |].
    rewrite member_notSpaceNorAt, IH. reflexivity. }
  rewrite Hext.
  split; intros [Hne Hall]; (split; [| exact Hall]).
  - intros Hnil. apply Hne. destruct s; [reflexivity | discriminate Hnil].
  - intros ->. apply Hne. reflexivity.
Qed.

(** X30: What [isEmail] accepts: a local part, [@], a domain part, a dot and
    a last part, the three parts non-empty and free of white space and
    of [@]; in particular a string with no [@], with two of them, with
    white space anywhere or without a dot after the [@] is refused. *)
Theorem isEmail_accepts (str : string) :
  isEmail str = true <->
  exists localPart domain lastPart,
    str = localPart +:+ "@" +:+ domain +:+ "." +:+ lastPart /\
    plain localPart /\ plain domain /\ plain lastPart.
Proof.
  unfold isEmail, test, emailPattern.
  rewrite matchesFrom_oneOrMore. setoid_rewrite matchesFrom_lit.
  setoid_rewrite matchesFrom_oneOrMore. setoid_rewrite matchesFrom_lit.
  setoid_rewrite matchesFrom_oneOrMore. setoid_rewrite matchesFrom_nil.
  split.
  - intros (a & b & Hs & Ha & Hall_a & t1 & -> & d & b2 & -> & Hd & Hall_d
            & t2 & -> & c & e & -> & Hc & Hall_c & ->).
    exists (string_of_list_ascii a), (string_of_list_ascii d), (string_of_list_ascii c).
    rewrite !plain_chars, !list_ascii_of_string_of_list_ascii.
    split; [| auto]. apply list_ascii_inj.
    rewrite !list_ascii_app, !list_ascii_of_string_of_list_ascii, Hs, app_nil_r. reflexivity.
  - intros (lp & dm & tl & -> & Hl & Hd & Ht).
    apply plain_chars in Hl as [Hl1 Hl2], Hd as [Hd1 Hd2], Ht as [Ht1 Ht2].
    exists (list_ascii_of_string lp),
           (list_ascii_of_string ("@" +:+ dm +:+ "." +:+ tl)).
    split; [apply list_ascii_app |]. split; [exact Hl1 |]. split; [exact Hl2 |].
    exists (list_ascii_of_string (dm +:+ "." +:+ tl)). split; [reflexivity |].
    exists (list_ascii_of_string dm), (list_ascii_of_string ("." +:+ tl)).
    split; [apply list_ascii_app |]. split; [exact Hd1 |]. split; [exact Hd2 |].
    exists (list_ascii_of_string tl). split; [reflexivity |].
    exists (list_ascii_of_string tl), []. rewrite app_nil_r. auto.
Qed.

End Credentials.

(** [isEmail] and [maskPassword] on a few inputs. *)
Example credential_helpers_examples :
  isEmail "analyst@example.org" = true /\ isEmail "analyst@example" = false /\
  isEmail "a@b@example.org" = false /\ isEmail "an alyst@example.org" = false /\
  maskPassword None = "N/A" /\ maskPassword (Some "abc") = "****" /\
  maskPassword (Some "hunter2") = "hu***r2".
Proof. repeat split; vm_compute; reflexivity. Qed.

(* ===================================================================== *)
(** ** Transaction lists and the cache *)
(* ===================================================================== *)

Section Transactions.
Context {env : Env}.

Lemma normalizeTx_some tx t :
  normalizeTx tx = Some t ->
  is_Some (toISOString (rt_time tx * 1000)%float) /\ tx_hash t = rt_hash tx /\ unpriced t /\
  length (tx_inputs t) = length (rt_inputs tx) /\
  length (tx_outputs t) = length (rt_out tx).
Proof.
  unfold normalizeTx. destruct (toISOString _) as [ts |]; [| discriminate].
  cbn. intros [= <-]. cbn. split; [eauto |]. split; [reflexivity |].
  split; [| split; [apply length_fmap | apply length_imap]].
  unfold unpriced. cbn. repeat split. destruct (JS.truthy _); discriminate.
Qed.

Lemma normalizeTx_none tx :
  normalizeTx tx = None <-> toISOString (rt_time tx * 1000)%float = None.
Proof.
  unfold normalizeTx. destruct (toISOString _) as [ts |]; cbn; split; congruence.
Qed.

(** X13: A transaction list is all or nothing: [getBitcoinWalletTransactions]
    never throws and makes one request; when the provider answers and
    the time of every transaction can be printed, the list has the
    provider's transactions in the provider's order, none with a
    confirmation count or an amount in dollars; when the time of a
    single one cannot be printed, or the provider does not answer, the
    list is empty. *)
Theorem transactions_all_or_nothing (address : string) (limit : nat) (w : World) :
  exists txs,
    getBitcoinWalletTransactions address limit w = (Normal txs, nextTick w) /\
    match blockchainInfoRawAddr (tick w) address limit with
    | Ok data =>
        (Forall (fun tx => is_Some (toISOString (rt_time tx * 1000)%float)) (ra_txs data) ->
           tx_hash <$> txs = rt_hash <$> ra_txs data /\ Forall unpriced txs) /\
        (Exists (fun tx => toISOString (rt_time tx * 1000)%float = None) (ra_txs data) ->
           txs = [])
    | _ => txs = []
    end.
Proof.
  unfold getBitcoinWalletTransactions. erewrite bind_normal by reflexivity.
  destruct (blockchainInfoRawAddr (tick w) address limit) as [| | data];
    [exists []; auto | exists []; auto |].
  exists (default [] (mapM normalizeTx (ra_txs data))). split; [reflexivity |]. split.
  - intros Hall.
    destruct (mapM normalizeTx (ra_txs data)) as [txs |] eqn:Em.
    + change (default [] (Some txs)) with txs. apply mapM_Some_1 in Em. clear Hall.
      induction Em as [| tx t l k Ht Hl IH]; [split; [reflexivity | constructor] |].
      destruct IH as [IH1 IH2].
      destruct (normalizeTx_some tx t Ht) as (_ & Hh & Hu & _).
      cbn. rewrite Hh, IH1. split; [reflexivity | constructor; assumption].
    + apply mapM_None_1 in Em. exfalso. apply Exists_exists in Em as (tx & Hin & Hnone).
      rewrite Forall_forall in Hall. specialize (Hall tx Hin).
      apply normalizeTx_none in Hnone. rewrite Hnone in Hall. destruct Hall as [? Hall].
      discriminate Hall.
  - intros Hex. rewrite (mapM_None_2 normalizeTx (ra_txs data)); [reflexivity |].
    eapply Exists_impl; [exact Hex |]. intros tx. apply normalizeTx_none.
Qed.

(** X11: A failed wallet lookup leaves nothing behind: when [getWalletInfo]
    answers [null] the two caches are as they were, so the next lookup
    of the address asks the providers again, and it cost at most two
    requests. *)
Theorem failed_lookup_is_not_cached (address network : string) (w w' : World) :
  getWalletInfo address network w = (Normal None, w') ->
  walletCache w' = walletCache w /\ txsCache w' = txsCache w /\
  tick w <= tick w' <= tick w + 2.
Proof.
  unfold getWalletInfo. erewrite bind_normal by reflexivity.
  destruct (store w !! _) as [[c expiry] |];
    [destruct (dateNow (tick w) <? expiry)%Z |].
  1: { intros Heq. inversion Heq. }
  all: unfold tryCatch, mbind, M_bind.
  all: destruct (String.eqb network "bitcoin"); [| destruct (String.eqb network "ethereum")].
  all: unfold getBitcoinWalletInfo, getEthereumWalletInfo, fetchRawAddr, fetchBlockchair,
         fetchEthplorer, now, throw, mbind, M_bind, mret, M_ret, cacheAPIResponse.
  all: cbn [tick nextTick].
  all: repeat match goal with
              | |- context [match ?x with Threw => _ | NotOk => _ | Ok _ => _ end] =>
                  destruct x
              | |- context [match ?x with Some _ => _ | None => _ end] => destruct x
              end.
  all: intros Heq; inversion Heq; subst; cbn; repeat split; lia.
Qed.

(** X12: A wallet that was found is served from the cache, with the cache
    modelled as a store of values with their expiry: the lookup writes
    the wallet under the key of its network and address with an expiry
    ten minutes after the time of the call, and in any state that holds
    this entry before its expiry the same lookup returns the same wallet
    without a request and without a change of state. *)
Theorem found_wallet_is_cached (address network : string) (w w' : World)
  (info : CryptoWalletInfo) :
  uncachedWallet network address w ->
  getWalletInfo address network w = (Normal (Some info), w') ->
  walletCache w' =
    <[walletKey network address := (info, (dateNow (tick w') + 600000)%Z)]> (walletCache w) /\
  forall later,
    walletCache later !! walletKey network address =
      Some (info, (dateNow (tick w') + 600000)%Z) ->
    (dateNow (tick later) < dateNow (tick w') + 600000)%Z ->
    getWalletInfo address network later = (Normal (Some info), later).
Proof.
  intros Hmiss E. split.
  - revert E. unfold getWalletInfo. fold (walletKey network address).
    erewrite bind_normal by reflexivity. cbn [store Cacheable_wallet].
    unfold uncachedWallet in Hmiss.
    assert (Hnone : match walletCache w !! walletKey network address with
                    | Some (v, expiry) =>
                        if (dateNow (tick w) <? expiry)%Z then Some v else None
                    | None => None
                    end = None).
    { destruct (walletCache w !! _) as [[v expiry] |]; [| reflexivity].
      destruct (Z.ltb_spec (dateNow (tick w)) expiry); [lia | reflexivity]. }
    rewrite Hnone. clear Hnone Hmiss.
    unfold tryCatch, mbind, M_bind.
    all: destruct (String.eqb network "bitcoin"); [| destruct (String.eqb network "ethereum")].
    all: unfold getBitcoinWalletInfo, getEthereumWalletInfo, fetchRawAddr, fetchBlockchair,
           fetchEthplorer, now, throw, mbind, M_bind, mret, M_ret, cacheAPIResponse.
    all: cbn [tick nextTick store setStore Cacheable_wallet].
    all: repeat match goal with
                | |- context [match ?x with Threw => _ | NotOk => _ | Ok _ => _ end] =>
                    destruct x
                | |- context [match ?x with Some _ => _ | None => _ end] => destruct x
                end.
    all: intros Heq; inversion Heq; subst; cbn; reflexivity.
  - intros later Hentry Hfresh. unfold getWalletInfo. fold (walletKey network address).
    erewrite bind_normal by reflexivity. cbn [store Cacheable_wallet].
    rewrite Hentry. rewrite (proj2 (Z.ltb_lt _ _)) by exact Hfresh. reflexivity.
Qed.

End Transactions.

Lemma failed_lookup_is_not_cached_witness :
  exists w',
    getWalletInfo (env := Ledger.erroring) "A" "bitcoin" emptyWorld = (Normal None, w') /\
    walletCache w' = ∅ /\ tick w' = 2.
Proof.
  eexists. split; [vm_compute; reflexivity |].
  edestruct (failed_lookup_is_not_cached (env := Ledger.erroring) "A" "bitcoin" emptyWorld)
    as (Hw & _ & _).
  - vm_compute. reflexivity.
  - split; [exact Hw | reflexivity].
Defined.

Lemma found_wallet_is_cached_witness :
  exists info w',
    getWalletInfo (env := Ledger.paymentWorld) "A" "bitcoin" emptyWorld =
      (Normal (Some info), w') /\
    getWalletInfo (env := Ledger.paymentWorld) "A" "bitcoin" w' = (Normal (Some info), w').
Proof.
  eexists _, _. split; [vm_compute; reflexivity |].
  edestruct (found_wallet_is_cached (env := Ledger.paymentWorld) "A" "bitcoin" emptyWorld)
    as (_ & Hserved).
  - exact I.
  - vm_compute. reflexivity.
  - apply Hserved; [vm_compute; reflexivity | reflexivity].
Defined.

(** One payment without a time hides the dated one as well. *)
Example undated_transaction_hides_all :
  result (getWalletTransactions (env := undatedWorld) "A" "bitcoin" 50 emptyWorld) = Normal [] /\
  length (undated "A") = 2.
Proof. split; vm_compute; reflexivity. Qed.

Lemma node_count_bound_witness :
  exists g w',
    buildWalletGraph (env := Ledger.fanOutWorld) "A" "bitcoin" 2 2 emptyWorld = (Normal g, w') /\
    (Z.of_nat (length (nodes g)) <= 11)%Z.
Proof.
  eexists _, _. split; [vm_compute; reflexivity |].
  eapply (node_count_bound (env := Ledger.fanOutWorld) "A" "bitcoin" 2 2 emptyWorld).
  vm_compute. reflexivity.
Defined.

(* ===================================================================== *)
(** ** How many requests a search makes *)
(* ===================================================================== *)

Section Budget.
Context {env : Env}.
Variable network : string.

Lemma getWalletInfo_cost address w r w' :
  getWalletInfo address network w = (Normal r, w') -> tick w <= tick w' <= tick w + 2.
Proof.
  unfold getWalletInfo. erewrite bind_normal by reflexivity.
  destruct (store w !! _) as [[c expiry] |];
    [destruct (dateNow (tick w) <? expiry)%Z |].
  1: { intros Heq. inversion Heq; subst. lia. }
  all: unfold tryCatch, mbind, M_bind.
  all: destruct (String.eqb network "bitcoin"); [| destruct (String.eqb network "ethereum")].
  all: unfold getBitcoinWalletInfo, getEthereumWalletInfo, fetchRawAddr, fetchBlockchair,
         fetchEthplorer, now, throw, mbind, M_bind, mret, M_ret, cacheAPIResponse.
  all: cbn [tick nextTick].
  all: repeat match goal with
              | |- context [match ?x with Threw => _ | NotOk => _ | Ok _ => _ end] =>
                  destruct x
              | |- context [match ?x with Some _ => _ | None => _ end] => destruct x
              end.
  all: intros Heq; inversion Heq; subst; cbn; lia.
Qed.

Lemma getWalletTransactions_cost address limit w txs w' :
  getWalletTransactions address network limit w = (Normal txs, w') ->
  tick w <= tick w' <= tick w + 1.
Proof.
  unfold getWalletTransactions. erewrite bind_normal by reflexivity.
  destruct (store w !! _) as [[c expiry] |];
    [destruct (dateNow (tick w) <? expiry)%Z |].
  1: { intros Heq. inversion Heq; subst. lia. }
  all: unfold tryCatch, mbind, M_bind.
  all: destruct (String.eqb network "bitcoin"); [| destruct (String.eqb network "ethereum")].
  all: unfold getBitcoinWalletTransactions, getEthereumWalletTransactions, fetchRawAddr,
         mbind, M_bind, mret, M_ret, cacheAPIResponse.
  all: try destruct (blockchainInfoRawAddr (tick w) address limit) as [| | data].
  all: try match goal with
           | |- context [mapM normalizeTx ?l] => destruct (mapM normalizeTx l) as [txs0 |]
           end.
  all: cbn [default length]; repeat case_decide; intros Heq; inversion Heq; subst; cbn; lia.
Qed.

Lemma addConnection_cost address level st entry w st' w' :
  addConnection network address level st entry w = (Normal st', w') ->
  tick w <= tick w' <= tick w + 2 /\ exists k, k <= 1 /\ grew k st st'.
Proof.
  intros E. split.
  - destruct entry as [connAddr data]. unfold addConnection in E.
    destruct (bool_decide (connAddr ∈ st_visited st)).
    + erewrite bind_normal in E by reflexivity. inversion E; subst. lia.
    + destruct (getWalletInfo_normal connAddr network w) as (r & w1 & E1 & _).
      pose proof (getWalletInfo_cost _ _ _ _ E1) as Hc.
      destruct r;
        (erewrite bind_normal in E by (erewrite bind_normal by exact E1; reflexivity));
        inversion E; subst; exact Hc.
  - destruct (addConnection_grew network address level st entry w) as (st1 & w1 & E1 & Hg).
    rewrite E in E1. inversion E1; subst. exact Hg.
Qed.

Lemma forEach_cost address level l : forall st w st' w',
  forEachM (addConnection network address level) st l w = (Normal st', w') ->
  tick w <= tick w' <= tick w + 2 * length l /\ exists k, k <= length l /\ grew k st st'.
Proof.
  induction l as [| entry l IH]; intros st w st' w' E; cbn [forEachM] in E.
  - inversion E; subst. split; [cbn; lia |]. exists 0. unfold grew. cbn. lia.
  - destruct (addConnection_grew network address level st entry w) as (st1 & w1 & E1 & _).
    erewrite bind_normal in E by exact E1.
    destruct (addConnection_cost _ _ _ _ _ _ _ E1) as (Ht1 & k1 & Hk1 & Hn1 & Hq1).
    destruct (IH _ _ _ _ E) as (Ht2 & k2 & Hk2 & Hn2 & Hq2).
    split; [cbn [length]; lia |]. exists (k1 + k2). unfold grew. cbn [length]. lia.
Qed.

Lemma bfsStep_cost depth st w st' w' :
  0 < length (st_queue st) ->
  bfsStep network depth st w = (Normal st', w') ->
  tick w <= tick w' <= tick w + 21 /\
  length (st_edges st') <= length (st_edges st) + 10 /\
  exists k, k <= 10 /\ length (st_nodes st') = length (st_nodes st) + k /\
            S (length (st_queue st')) = length (st_queue st) + k.
Proof.
  intros Hq E. unfold bfsStep in E.
  destruct (st_queue st) as [| [address level] rest] eqn:Eq; [cbn in Hq; lia |].
  destruct (bool_decide (depth <= Z.of_nat level)%Z).
  - inversion E; subst. split; [lia |]. split; [cbn; lia |]. exists 0. cbn. lia.
  - destruct (getWalletTransactions_normal address network 20 w) as (txs & w1 & E1 & _).
    erewrite bind_normal in E by exact E1.
    pose proof (getWalletTransactions_cost _ _ _ _ _ E1) as Ht1.
    destruct (forEach_cost _ _ _ _ _ _ _ E) as (Ht2 & k & Hk & Hn & Hq').
    pose proof (forEach_edges _ _ _ _ _ _ _ _ E) as He.
    apply (f_equal length) in He. rewrite length_app, length_fmap in He.
    rewrite length_take in Ht2, Hk, He. cbn in Hn, Hq'. cbn [st_edges] in He.
    split; [lia |]. split; [lia |]. exists k. cbn [length]. lia.
Qed.

(** The requests and the edges of the loop are paid for by the nodes it
    adds: a round costs at most 21 requests and 10 edges, takes one
    address off the queue and queues one address for every node it
    adds. *)
Lemma bfsLoop_cost depth maxNodes : forall fuel st w st' w',
  bfsLoop fuel network depth maxNodes st w = (Normal st', w') ->
  tick w <= tick w' /\
  tick w' + 21 * length (st_queue st') + 21 * length (st_nodes st) <=
    tick w + 21 * length (st_queue st) + 21 * length (st_nodes st') /\
  length (st_edges st') + 10 * length (st_queue st') + 10 * length (st_nodes st) <=
    length (st_edges st) + 10 * length (st_queue st) + 10 * length (st_nodes st') /\
  (Z.of_nat (length (st_nodes st')) <=
     Z.max (Z.of_nat (length (st_nodes st))) (maxNodes + 9))%Z.
Proof.
  induction fuel as [| fuel IH]; intros st w st' w' E; cbn [bfsLoop] in E.
  - inversion E; subst. lia.
  - destruct (loopGuard maxNodes st) eqn:G; [| inversion E; subst; lia].
    apply loopGuard_true in G as [Hq Hn].
    destruct (bfsStep_grew network depth st Hq w) as (st1 & w1 & E1 & _).
    erewrite bind_normal in E by exact E1.
    destruct (bfsStep_cost _ _ _ _ _ Hq E1) as (Ht1 & He1 & k & Hk & Hn1 & Hq1).
    destruct (IH _ _ _ _ E) as (Ht2 & Hpay & Hedges & Hbound).
    split; [lia |]. split; [lia |]. split; lia.
Qed.

Lemma buildWalletGraph_cost (rootAddress : string) (depth maxNodes : Z)
  (w w' : World) (g : WalletGraph) :
  buildWalletGraph rootAddress network depth maxNodes w = (Normal g, w') ->
  tick w <= tick w' <= tick w + 23 + 21 * length (nodes g) /\
  (Z.of_nat (tick w') <= Z.of_nat (tick w) + 23 + 21 * Z.max 1 (maxNodes + 9))%Z /\
  length (edges g) <= 10 + 10 * length (nodes g).
Proof.
  intros Eg.
  destruct (getWalletInfo_normal rootAddress network w) as (r & w1 & E & _).
  destruct (buildWalletGraph_run rootAddress network depth maxNodes w _ w1 E)
    as (st & w2 & Eloop & _ & Eg').
  rewrite Eg in Eg'. inversion Eg'; subst g w2. clear Eg'. cbn [nodes edges].
  pose proof (getWalletInfo_cost _ _ _ _ E) as Ht1.
  destruct (bfsLoop_cost _ _ _ _ _ _ _ Eloop) as (Ht2 & Hpay & Hedges & Hbound).
  assert (Hq0 : length (st_queue (initialState rootAddress r)) = 1)
    by (destruct r; reflexivity).
  assert (Hn0 : length (st_nodes (initialState rootAddress r)) <= 1)
    by (destruct r; cbn; lia).
  assert (He0 : length (st_edges (initialState rootAddress r)) = 0)
    by (destruct r; reflexivity).
  split; [lia |]. split; lia.
Qed.

(** X20: The number of requests [buildWalletGraph] makes and the number of
    edges it returns are bounded by the number of nodes it returns, and
    so by the node budget alone, whatever the depth and the ledger: at
    most 23 requests and 21 for every node, hence at most
    23 + 21 * max(1, maxNodes + 9), and at most 10 edges and 10 for
    every node. *)
Theorem buildWalletGraph_request_budget (rootAddress : string) (depth maxNodes : Z)
  (w w' : World) (g : WalletGraph) :
  buildWalletGraph rootAddress network depth maxNodes w = (Normal g, w') ->
  tick w <= tick w' <= tick w + 23 + 21 * length (nodes g) /\
  (Z.of_nat (tick w') <= Z.of_nat (tick w) + 23 + 21 * Z.max 1 (maxNodes + 9))%Z /\
  length (edges g) <= 10 + 10 * length (nodes g).
Proof. apply buildWalletGraph_cost. Qed.

(** X26: An investigation makes at most 845 requests, whatever the depth, the
    options and the ledger: two for the wallet, one for its
    transactions, and those of a graph of 30 nodes. *)
Theorem investigation_request_budget (address : string) (options : InvestigationOptions)
  (w w' : World) (r : option CryptoInvestigationResult) :
  investigateWallet address network options w = (Normal r, w') ->
  tick w <= tick w' <= tick w + 845.
Proof.
  intros Er. destruct r as [r |].
  - destruct (investigateWallet_steps _ _ _ _ _ _ Er)
      as (wallet0 & w1 & txs & w2 & g & E & Etx & Eg & _).
    pose proof (getWalletInfo_cost _ _ _ _ E) as Ht1.
    assert (Ht2 : tick w1 <= tick w2 <= tick w1 + 1).
    { destruct (default true (fetchTransactions options)).
      - apply (getWalletTransactions_cost _ _ _ _ _ Etx).
      - inversion Etx; subst. lia. }
    assert (Ht3 : tick w2 <= tick w' <= tick w2 + 842).
    { destruct (default true (buildGraph options)).
      - destruct (buildWalletGraph_cost _ _ _ _ _ _ Eg) as ([Hlow _] & Hup & _). lia.
      - inversion Eg; subst. lia. }
    lia.
  - destruct (getWalletInfo_normal address network w) as ([wallet0 |] & w1 & E & _).
    + exfalso.
      assert (Htx : exists txs w2,
                 (if default true (fetchTransactions options)
                  then getWalletTransactions address network 50 else mret []) w1 =
                 (Normal txs, w2)).
      { destruct (default true (fetchTransactions options)).
        - destruct (getWalletTransactions_normal address network 50 w1) as (t & w2 & Et & _).
          eauto.
        - exists [], w1. reflexivity. }
      destruct Htx as (txs & w2 & Etx).
      assert (Hg : exists g w3,
                 (if default true (buildGraph options)
                  then buildWalletGraph address network (default 2%Z (graphDepth options)) 30
                  else mret emptyGraph) w2 = (Normal g, w3)).
      { destruct (default true (buildGraph options)).
        - destruct (buildWalletGraph_shape network address (default 2%Z (graphDepth options))
                      30 w2) as (g & w3 & Eg & _).
          eauto.
        - exists emptyGraph, w2. reflexivity. }
      destruct Hg as (g & w3 & Eg).
      rewrite (investigateWallet_found address network options w wallet0 w1 E txs w2 g w3
                 Etx Eg) in Er.
      discriminate Er.
    + rewrite (investigateWallet_missing _ _ _ _ _ E) in Er. inversion Er; subst.
      pose proof (getWalletInfo_cost _ _ _ _ E). lia.
Qed.

End Budget.

Lemma buildWalletGraph_request_budget_witness :
  exists g w',
    buildWalletGraph (env := Ledger.treeWorld) "0" "bitcoin" 2 30 emptyWorld = (Normal g, w') /\
    length (nodes g) = 31 /\ tick w' <= 674.
Proof.
  eexists _, _. split; [vm_compute; reflexivity |]. split; [reflexivity |].
  edestruct (buildWalletGraph_request_budget (env := Ledger.treeWorld) "bitcoin" "0" 2 30
               emptyWorld) as ([_ H] & _).
  - vm_compute. reflexivity.
  - exact H.
Defined.

Lemma investigation_request_budget_witness :
  exists r w',
    investigateWallet (env := Ledger.treeWorld) "0" "bitcoin" Ledger.defaults emptyWorld =
      (Normal r, w') /\
    tick w' <= 845.
Proof.
  eexists _, _. split; [vm_compute; reflexivity |].
  edestruct (investigation_request_budget (env := Ledger.treeWorld) "bitcoin" "0"
               Ledger.defaults emptyWorld) as [_ H].
  - vm_compute. reflexivity.
  - exact H.
Defined.

(** What the search of the tree of payments costs: 31 nodes for a budget
    of 30, and 35 requests. *)
Example tree_costs :
  exists r w',
    investigateWallet (env := Ledger.treeWorld) "0" "bitcoin" Ledger.defaults emptyWorld =
      (Normal (Some r), w') /\
    length (nodes (graph r)) = 31 /\ tick w' = 35.
Proof. eexists _, _. split; [vm_compute; reflexivity |]. split; reflexivity. Qed.
